(** * A shallow embedding of the Sudoku solver and puzzle generator

    The development follows [sudoku_solver.py] (class [SudokuSolver]) and
    [sudoku_generator.py] (class [SudokuGenerator]).

    - numpy arrays are lists: the 9x9 integer grid is a [list (list Z)], the
      9x9x9 boolean candidate array a [list (list (list bool))];
    - Python exceptions are the [Raise] results of a small error monad; the
      recursion of the search and the [while] loop of the propagation take
      fuel, and [OutOfFuel] is the only result that is not a Python outcome;
    - the impact matrix of the cell heuristic holds binary64 numbers, as
      numpy's [dtype=float] does: the kernel's primitive floats;
    - [random.shuffle] is an oracle handed to the generator. *)

From Stdlib Require Import List ZArith Lia ZifyNat Bool Arith PeanoNat.
From Stdlib Require String.
Import String.StringSyntax.
Delimit Scope string_scope with string.
From Stdlib Require Import Permutation Sorted.
From Stdlib Require Import Floats Uint63.
Import ListNotations.

Set Implicit Arguments.

(** ** Results of Python code *)

Inductive exn : Type :=
| IndexError
| ValueError
| TypeError             (* a name bound to no array of the expected kind *)
| GenerationFailed.     (* Exception("Could not generate a valid Sudoku puzzle") *)

Inductive res (A : Type) : Type :=
| Ok (a : A)
| Raise (e : exn)
| OutOfFuel.

Arguments Ok {A} a.
Arguments Raise {A} e.
Arguments OutOfFuel {A}.

Definition bind {A B : Type} (m : res A) (k : A -> res B) : res B :=
  match m with
  | Ok a => k a
  | Raise e => Raise e
  | OutOfFuel => OutOfFuel
  end.

Declare Scope res_scope.
Delimit Scope res_scope with res.
Notation "x <- m ;; k" := (bind m (fun x => k))
  (at level 61, m at next level, right associativity) : res_scope.
Notation "' p <- m ;; k" := (bind m (fun x => match x with p => k end))
  (at level 61, p pattern, m at next level, right associativity) : res_scope.
Open Scope res_scope.

(** A [for] loop whose body may raise. *)
Fixpoint foldM {A B : Type} (f : B -> A -> res B) (l : list A) (b : B) : res B :=
  match l with
  | [] => Ok b
  | x :: t => b' <- f b x ;; foldM f t b'
  end.

(** ** Arrays *)

Definition Grid : Type := list (list Z).
Definition Bitmap : Type := list (list (list bool)).

(** [upd n f l] is [l] with [f] applied in place to its element [n]. *)
Fixpoint upd {A : Type} (n : nat) (f : A -> A) (l : list A) : list A :=
  match l, n with
  | [], _ => []
  | x :: t, O => f x :: t
  | x :: t, S m => x :: upd m f t
  end.

Definition get_cell (g : Grid) (i j : nat) : Z := nth j (nth i g []) 0%Z.
Definition set_cell (g : Grid) (i j : nat) (v : Z) : Grid :=
  upd i (upd j (fun _ => v)) g.

Definition get_cand (b : Bitmap) (i j : nat) : list bool := nth j (nth i b []) [].
Definition set_cand (b : Bitmap) (i j : nat) (v : list bool) : Bitmap :=
  upd i (upd j (fun _ => v)) b.
Definition get_bit (b : Bitmap) (i j k : nat) : bool := nth k (get_cand b i j) false.
Definition set_bit (b : Bitmap) (i j k : nat) (v : bool) : Bitmap :=
  upd i (upd j (upd k (fun _ => v))) b.

(** [range(n)] and the row-major pairs of the nested loops
    [for i in range(9): for j in range(9)]. *)
Definition range (n : nat) : list nat := seq 0 n.
Definition cells : list (nat * nat) :=
  flat_map (fun i => map (pair i) (range 9)) (range 9).

(** [np.zeros((9, 9), dtype=int)] and [np.ones((9, 9, 9), dtype=bool)]. *)
Definition zeros99 : Grid := repeat (repeat 0%Z 9) 9.
Definition ones999 : Bitmap := repeat (repeat (repeat true 9) 9) 9.

(** Python's index normalisation on an axis of length [len]: negative
    indices count from the end, anything else out of range raises. *)
Definition py_index (len : nat) (k : Z) : res nat :=
  if ((0 <=? k) && (k <? Z.of_nat len))%Z then Ok (Z.to_nat k)
  else if ((- Z.of_nat len <=? k) && (k <? 0))%Z then Ok (Z.to_nat (k + Z.of_nat len))
  else Raise IndexError.

(** Reading the caller's array, which need not have the solver's shape. *)
Definition read_cell (g : Grid) (i j : nat) : res Z :=
  match nth_error g i with
  | Some row => match nth_error row j with
                | Some v => Ok v
                | None => Raise IndexError
                end
  | None => Raise IndexError
  end.

(** Slices and reductions of numpy. *)
Definition row_of (g : Grid) (i : nat) : list Z := nth i g [].
Definition col_of (g : Grid) (j : nat) : list Z := map (fun row => nth j row 0%Z) g.
Definition slice {A : Type} (a n : nat) (l : list A) : list A := firstn n (skipn a l).
Definition box_of (g : Grid) (bi bj : nat) : list Z :=
  concat (map (slice bj 3) (slice bi 3 g)).

Definition count {A : Type} (p : A -> bool) (l : list A) : nat :=
  length (filter p l).
Definition count_nonzero (l : list Z) : Z :=
  Z.of_nat (count (fun v => negb (v =? 0)%Z) l).
Definition count_eq (number : Z) (l : list Z) : Z :=
  Z.of_nat (count (fun v => (v =? number)%Z) l).
Definition sum_bool (l : list bool) : Z := Z.of_nat (count (fun b => b) l).

(** [np.argmax] on a boolean vector: the first [True], 0 when there is none. *)
Fixpoint argmax_bool (l : list bool) : nat :=
  match l with
  | [] => 0
  | true :: _ => 0
  | false :: t => if existsb (fun b => b) t then S (argmax_bool t) else 0
  end.

(** [np.argmax] on a flattened float array: the first maximum. *)
Fixpoint argmax_from (l : list float) (idx best_idx : nat) (best : float) : nat :=
  match l with
  | [] => best_idx
  | x :: t => if (best <? x)%float then argmax_from t (S idx) idx x
              else argmax_from t (S idx) best_idx best
  end.
Definition argmax_float (l : list float) : nat :=
  match l with
  | [] => 0
  | x :: t => argmax_from t 1 0 x
  end.

(** An integer as a binary64 number (exact on the small values used here). *)
Definition float_of_Z (z : Z) : float :=
  if (z <? 0)%Z then PrimFloat.opp (PrimFloat.of_uint63 (Uint63.of_Z (- z)))
  else PrimFloat.of_uint63 (Uint63.of_Z z).

(** Python's [int(x)] on a float: truncation toward zero. *)
Definition int_of_float (x : float) : res Z :=
  match Prim2SF x with
  | S754_zero _ => Ok 0%Z
  | S754_finite sg m e =>
      let mag := match e with
                 | Z.neg p => (Z.pos m / 2 ^ Z.pos p)%Z
                 | _ => (Z.pos m * 2 ^ e)%Z
                 end in
      Ok (if sg then (- mag)%Z else mag)
  | S754_infinity _ => Raise ValueError
  | S754_nan => Raise ValueError
  end.

(** ** The solver object *)

Inductive status : Type := searching | trying | placed | backtracking.

(** One call of the callback: the snapshot and the keyword arguments. *)
Record event : Type := mkEvent {
  ev_grid : Grid;
  ev_status : status;
  ev_cell : option (nat * nat);
  ev_number : option Z;
  ev_attempts : Z;
  ev_backtrack_count : Z
}.

Record Solver : Type := mkSolver {
  sudoku : Grid;
  bitmap : Bitmap;
  callback : bool;            (* whether a callback was given *)
  visualize : bool;
  attempts : Z;
  backtrack_count : Z;
  emitted : list event;       (* the calls made to the callback, latest first *)
  calls : Z                   (* ghost: invocations of the search so far *)
}.

Definition with_arrays (s : Solver) (g : Grid) (b : Bitmap) : Solver :=
  mkSolver g b (callback s) (visualize s) (attempts s) (backtrack_count s)
           (emitted s) (calls s).
Definition with_counters (s : Solver) (a bc : Z) : Solver :=
  mkSolver (sudoku s) (bitmap s) (callback s) (visualize s) a bc
           (emitted s) (calls s).
Definition with_visualize (s : Solver) (v : bool) : Solver :=
  mkSolver (sudoku s) (bitmap s) (callback s) v (attempts s) (backtrack_count s)
           (emitted s) (calls s).
Definition enter (s : Solver) : Solver :=
  mkSolver (sudoku s) (bitmap s) (callback s) (visualize s) (attempts s)
           (backtrack_count s) (emitted s) (calls s + 1).

(** [if self.callback and self.visualize: self.callback(grid, status=..., ...)];
    [time.sleep(delay)] leaves the state alone. *)
Definition emit (s : Solver) (g : Grid) (st : status)
    (cell : option (nat * nat)) (number : option Z) : Solver :=
  if callback s && visualize s then
    mkSolver (sudoku s) (bitmap s) (callback s) (visualize s) (attempts s)
             (backtrack_count s)
             (mkEvent g st cell number (attempts s) (backtrack_count s) :: emitted s)
             (calls s)
  else s.

(** *** [place_number] *)

(** [self.sudoku[i, j] = number; self.bitmap[i, j, :] = False], then the
    column, the row and the box of candidate [number - 1] are cleared.  Every
    caller in the source takes [i] and [j] from [range(9)] or from
    [np.unravel_index] on a 9x9 array, so the writes are in range; [number - 1]
    goes through Python's index rule and is the only index that can raise.
    The arrays hold int64: the model is that of the code for [i] and [j]
    below 9 and [number] from [- 2 ^ 63] to [2 ^ 63 - 1], and the properties
    of numbers that are no digits are stated for that domain. *)
Definition clear_row_col (i j d : nat) (b : Bitmap) (k : nat) : Bitmap :=
  set_bit (set_bit b i k d false) k j d false.
Definition clear_box (i j d : nat) (b : Bitmap) (k : nat) : Bitmap :=
  fold_left (fun b' l => set_bit b' (i / 3 * 3 + k) (j / 3 * 3 + l) d false)
            (range 3) b.

Definition place_number (s : Solver) (i j : nat) (number : Z) : res Solver :=
  let sudoku1 := set_cell (sudoku s) i j number in
  let bitmap1 := set_cand (bitmap s) i j (repeat false 9) in
  d <- py_index 9 (number - 1) ;;
  let bitmap2 := fold_left (clear_row_col i j d) (range 9) bitmap1 in
  let bitmap3 := fold_left (clear_box i j d) (range 3) bitmap2 in
  Ok (with_arrays s sudoku1 bitmap3).

(** *** [can_place_number], [is_solved], [is_trivial_cell] *)

(** [self.bitmap[i, j, number - 1]], for [i] and [j] below 9 as in every
    call of the source. *)
Definition can_place_number (s : Solver) (i j : nat) (number : Z) : res bool :=
  d <- py_index 9 (number - 1) ;;
  Ok (get_bit (bitmap s) i j d).

Definition count_empty (g : Grid) : nat :=
  count (fun v => (v =? 0)%Z) (concat g).

Definition is_solved (s : Solver) : bool :=
  (count_empty (sudoku s) =? 0)%nat.

Definition is_trivial_cell (s : Solver) (i j : nat) : bool :=
  (get_cell (sudoku s) i j =? 0)%Z && (sum_bool (get_cand (bitmap s) i j) =? 1)%Z.

(** *** [__init__] *)

Definition init_state (cb : bool) : Solver :=
  mkSolver zeros99 ones999 cb false 0 0 [] 0.

Definition init_cell (input : Grid) (s : Solver) (c : nat * nat) : res Solver :=
  let '(i, j) := c in
  v <- read_cell input i j ;;
  if negb (v =? 0)%Z then place_number s i j v else Ok s.

Definition SudokuSolver (input : Grid) (cb : bool) : res Solver :=
  foldM (init_cell input) cells (init_state cb).

(** *** [trivial_moves] *)

Definition trivial_step (acc : bool * Solver) (c : nat * nat) : res (bool * Solver) :=
  let '(changed, s) := acc in
  let '(i, j) := c in
  if is_trivial_cell s i j then
    s' <- place_number s i j (Z.of_nat (argmax_bool (get_cand (bitmap s) i j)) + 1) ;;
    Ok (true, s')
  else Ok (changed, s).

(** One execution of the body of [while changed]. *)
Definition trivial_pass (s : Solver) : res (bool * Solver) :=
  foldM trivial_step cells (false, s).

Fixpoint trivial_loop (fuel : nat) (s : Solver) : res Solver :=
  match fuel with
  | O => OutOfFuel
  | S fuel' =>
      ' (changed, s') <- trivial_pass s ;;
      if (changed : bool) then trivial_loop fuel' s' else Ok s'
  end.

(** Every pass but the last fills a cell, so one pass more than there are
    empty cells is enough fuel ([trivial_loop_terminates] below). *)
Definition trivial_moves (s : Solver) : res Solver :=
  trivial_loop (S (count_empty (sudoku s))) s.

(** *** [advanced_least_options_cell] *)

Definition impact_score (s : Solver) (i j : nat) : float :=
  let options_count := sum_bool (get_cand (bitmap s) i j) in
  let row_empty := (9 - count_nonzero (row_of (sudoku s) i))%Z in
  let col_empty := (9 - count_nonzero (col_of (sudoku s) j))%Z in
  let box_i := i / 3 * 3 in
  let box_j := j / 3 * 3 in
  let box_empty := (9 - count_nonzero (box_of (sudoku s) box_i box_j))%Z in
  (float_of_Z (row_empty + col_empty + box_empty) / float_of_Z (options_count + 1))%float.

(** The impact matrix, flattened in row-major order, before and after
    [impact_matrix[~empty_cells_mask] = -1]. *)
Definition impact_matrix (s : Solver) : list float :=
  map (fun '(i, j) => if (get_cell (sudoku s) i j =? 0)%Z then impact_score s i j
                      else float_of_Z 0) cells.
Definition empty_cells_mask (s : Solver) : list bool :=
  map (fun '(i, j) => (get_cell (sudoku s) i j =? 0)%Z) cells.
Definition masked_impact (s : Solver) : list float :=
  map (fun '(x, m) => if (m : bool) then x else float_of_Z (-1))
      (combine (impact_matrix s) (empty_cells_mask s)).

Definition advanced_least_options_cell (s : Solver) : res (nat * nat) :=
  if negb (existsb (fun m => m) (empty_cells_mask s)) then Raise ValueError
  else let k := argmax_float (masked_impact s) in Ok (k / 9, k mod 9).

(** *** [smart_number_ordering] *)

(** [sorted(l, key=key)]: the stable sort by ascending key. *)
Fixpoint insert_by {A : Type} (key : A -> Z) (x : A) (l : list A) : list A :=
  match l with
  | [] => [x]
  | y :: t => if (key x <=? key y)%Z then x :: l else y :: insert_by key x t
  end.
Fixpoint sorted {A : Type} (key : A -> Z) (l : list A) : list A :=
  match l with
  | [] => []
  | x :: t => insert_by key x (sorted key t)
  end.

Definition possible_numbers (s : Solver) (i j : nat) : list Z :=
  map (fun num => Z.of_nat num + 1)%Z
      (filter (fun num => get_bit (bitmap s) i j num) (range 9)).

Definition number_frequency_score (s : Solver) (i j : nat) (number : Z) : Z :=
  let row_freq := count_eq number (row_of (sudoku s) i) in
  let col_freq := count_eq number (col_of (sudoku s) j) in
  let box_i := i / 3 * 3 in
  let box_j := j / 3 * 3 in
  let box_freq := count_eq number (box_of (sudoku s) box_i box_j) in
  (- (row_freq + col_freq + box_freq))%Z.

Definition smart_number_ordering (s : Solver) (i j : nat) : list Z :=
  sorted (number_frequency_score s i j) (possible_numbers s i j).

(** *** [advanced_backtrack] *)

Definition search_result : Type := (option Grid * Solver)%type.

(** The loop [for number in numbers] of the search at cell [(i, j)];
    [rec] is the recursive call. *)
Fixpoint try_numbers (rec : Solver -> res search_result) (i j : nat)
    (numbers : list Z) (s : Solver) : res search_result :=
  match numbers with
  | [] => Ok (None, s)
  | number :: rest =>
      ok <- can_place_number s i j number ;;
      if (ok : bool) then
        let curr_bitmap := bitmap s in
        let curr_sudoku := sudoku s in
        s1 <- place_number s i j number ;;
        s2 <- trivial_moves s1 ;;
        ' (result, s3) <- rec s2 ;;
        match result with
        | Some g => Ok (Some g, s3)
        | None =>
            let s4 := with_counters s3 (attempts s3) (backtrack_count s3 + 1) in
            try_numbers rec i j rest (with_arrays s4 curr_sudoku curr_bitmap)
        end
      else try_numbers rec i j rest s
  end.

Fixpoint advanced_backtrack (fuel : nat) (s0 : Solver) : res search_result :=
  match fuel with
  | O => OutOfFuel
  | S fuel' =>
      let s := enter s0 in
      if is_solved s then Ok (Some (sudoku s), s)
      else
        match advanced_least_options_cell s with
        | Ok (i, j) =>
            let numbers := smart_number_ordering s i j in
            try_numbers (advanced_backtrack fuel') i j numbers s
        | Raise ValueError => Ok (None, s)
        | Raise e => Raise e
        | OutOfFuel => OutOfFuel
        end
  end.

(** *** [advanced_backtrack_visualize] *)

Fixpoint try_numbers_visualize (rec : Solver -> res search_result) (i j : nat)
    (numbers : list Z) (s : Solver) : res search_result :=
  match numbers with
  | [] => Ok (None, s)
  | number :: rest =>
      ok <- can_place_number s i j number ;;
      if (ok : bool) then
        let curr_bitmap := bitmap s in
        let curr_sudoku := sudoku s in
        let s := emit s (sudoku s) trying (Some (i, j)) (Some number) in
        s1 <- place_number s i j number ;;
        s2 <- trivial_moves s1 ;;
        let s2 := emit s2 (sudoku s2) placed None None in
        ' (result, s3) <- rec s2 ;;
        match result with
        | Some g => Ok (Some g, s3)
        | None =>
            let s4 := with_counters s3 (attempts s3) (backtrack_count s3 + 1) in
            let s5 := emit s4 curr_sudoku backtracking (Some (i, j)) None in
            try_numbers_visualize rec i j rest (with_arrays s5 curr_sudoku curr_bitmap)
        end
      else try_numbers_visualize rec i j rest s
  end.

Fixpoint advanced_backtrack_visualize (fuel : nat) (s0 : Solver) : res search_result :=
  match fuel with
  | O => OutOfFuel
  | S fuel' =>
      let s := enter s0 in
      let s := with_counters s (attempts s + 1) (backtrack_count s) in
      if is_solved s then Ok (Some (sudoku s), s)
      else
        let s := emit s (sudoku s) searching None None in
        match advanced_least_options_cell s with
        | Ok (i, j) =>
            let numbers := smart_number_ordering s i j in
            try_numbers_visualize (advanced_backtrack_visualize fuel') i j numbers s
        | Raise ValueError => Ok (None, s)
        | Raise e => Raise e
        | OutOfFuel => OutOfFuel
        end
  end.

(** *** [solve_with_visualization] *)

Definition solve_fuel (fuel : nat) (s : Solver) (vis : bool) : res search_result :=
  let s := with_visualize s vis in
  let s := with_counters s 0 0 in
  if vis then advanced_backtrack_visualize fuel s else advanced_backtrack fuel s.

(** A call of the search fills a cell before it recurses, so the depth is
    at most the number of empty cells ([search_fuel_enough] below). *)
Definition solve_with_visualization (s : Solver) (vis : bool) : res search_result :=
  solve_fuel (S (count_empty (sudoku s))) s vis.

(** ** The generator *)

Open Scope string_scope.

(** The fractions are the binary64 numbers Python reads [0.3], [0.5], [0.7]
    and [0.8] as. *)
Definition difficulty_settings (difficulty : String.string) : float * nat :=
  if String.eqb difficulty "easy" then (0x1.3333333333333p-2%float, 30)
  else if String.eqb difficulty "medium" then (0x1p-1%float, 40)
  else if String.eqb difficulty "hard" then (0x1.6666666666666p-1%float, 50)
  else if String.eqb difficulty "expert" then (0x1.999999999999ap-1%float, 60)
  else (0x1p-1%float, 40).

Close Scope string_scope.

(** [l[:n]] *)
Definition take_py {A : Type} (n : Z) (l : list A) : list A :=
  if (n <? 0)%Z then firstn (length l - Z.to_nat (- n)) l
  else firstn (Z.to_nat n) l.

Definition remove_count (diff_param : float) : res Z :=
  int_of_float (float_of_Z 81 * diff_param)%float.

Definition remove_cells (puzzle : Grid) (cs : list (nat * nat)) : Grid :=
  fold_left (fun p '(i, j) => set_cell p i j 0%Z) cs puzzle.

(** One execution of the body of [while attempts < max_attempts]:
    the reduced puzzle and the outcome of its re-solve.  [shuffled] is
    the list [cells] after [random.shuffle(cells)]. *)
Definition generation_attempt (shuffled : list (nat * nat)) (diff_param : float)
  : res (Grid * option Grid) :=
  let base_puzzle := zeros99 in
  solver <- SudokuSolver base_puzzle false ;;
  ' (_, solver) <- solve_with_visualization solver false ;;
  let puzzle := sudoku solver in
  n <- remove_count diff_param ;;
  let puzzle := remove_cells puzzle (take_py n shuffled) in
  test_solver <- SudokuSolver puzzle false ;;
  ' (result, _) <- solve_with_visualization test_solver false ;;
  Ok (puzzle, result).

(** The outcome of [generate_puzzle] and, as a ghost, how many times the
    body of the loop was entered. *)
Definition gen_run : Type := (res Grid * nat)%type.

Fixpoint generate_from (shuffle : nat -> list (nat * nat) -> list (nat * nat))
    (diff_param : float) (remaining attempts : nat) : gen_run :=
  match remaining with
  | O => (Raise GenerationFailed, attempts)
  | S remaining' =>
      match generation_attempt (shuffle attempts cells) diff_param with
      | Ok (puzzle, Some _) => (Ok puzzle, S attempts)
      | Ok (_, None) => generate_from shuffle diff_param remaining' (S attempts)
      | Raise e => (Raise e, S attempts)
      | OutOfFuel => (OutOfFuel, S attempts)
      end
  end.

(** [shuffle k] is what the [k]-th call of [random.shuffle] (counting from
    0) does to its list. *)
Definition generate_puzzle (shuffle : nat -> list (nat * nat) -> list (nat * nat))
    (difficulty : String.string) : gen_run :=
  let '(diff_param, max_attempts) := difficulty_settings difficulty in
  generate_from shuffle diff_param max_attempts 0.

(** *** The loop over any outcome of the re-solve

    [verify] is the re-solve of [generate_puzzle]: the constructor on the
    reduced puzzle and [test_solver.solve_with_visualization(False)].  The
    three definitions after it are [generation_attempt], [generate_from] and
    [generate_puzzle] with the re-solve as an argument [v], the form in
    which the loop can be followed when the re-solve answers [None]. *)
Definition verify (puzzle : Grid) : res (option Grid) :=
  test_solver <- SudokuSolver puzzle false ;;
  ' (result, _) <- solve_with_visualization test_solver false ;;
  Ok result.

Definition generation_attempt_with (v : Grid -> res (option Grid))
    (shuffled : list (nat * nat)) (diff_param : float) : res (Grid * option Grid) :=
  let base_puzzle := zeros99 in
  solver <- SudokuSolver base_puzzle false ;;
  ' (_, solver) <- solve_with_visualization solver false ;;
  let puzzle := sudoku solver in
  n <- remove_count diff_param ;;
  let puzzle := remove_cells puzzle (take_py n shuffled) in
  result <- v puzzle ;;
  Ok (puzzle, result).

Fixpoint generate_from_with (v : Grid -> res (option Grid))
    (shuffle : nat -> list (nat * nat) -> list (nat * nat))
    (diff_param : float) (remaining attempts : nat) : gen_run :=
  match remaining with
  | O => (Raise GenerationFailed, attempts)
  | S remaining' =>
      match generation_attempt_with v (shuffle attempts cells) diff_param with
      | Ok (puzzle, Some _) => (Ok puzzle, S attempts)
      | Ok (_, None) => generate_from_with v shuffle diff_param remaining' (S attempts)
      | Raise e => (Raise e, S attempts)
      | OutOfFuel => (OutOfFuel, S attempts)
      end
  end.

Definition generate_puzzle_with (v : Grid -> res (option Grid))
    (shuffle : nat -> list (nat * nat) -> list (nat * nat))
    (difficulty : String.string) : gen_run :=
  let '(diff_param, max_attempts) := difficulty_settings difficulty in
  generate_from_with v shuffle diff_param max_attempts 0.

(** ** The same code over a store of arrays

    The definitions above keep the arrays of a solver inside its state.
    Python binds names to array objects: [self.sudoku[i][j] = number]
    writes into the object [self.sudoku] is bound to, [.copy()] and
    [np.zeros] make new objects, and [self.sudoku = curr_sudoku] binds the
    attribute to another object.  Here the objects live in a store, names
    hold references, and each method says which object it writes. *)

Inductive ndarray : Type :=
| IntArray (g : Grid)
| BoolArray (b : Bitmap).

Definition store : Type := list ndarray.
Definition ref : Type := nat.

(** A new object is appended to the store. *)
Definition alloc (a : ndarray) (st : store) : ref * store :=
  (length st, st ++ [a]).

Definition read_int (r : ref) (st : store) : res Grid :=
  match nth_error st r with
  | Some (IntArray g) => Ok g
  | _ => Raise TypeError
  end.

Definition read_bool (r : ref) (st : store) : res Bitmap :=
  match nth_error st r with
  | Some (BoolArray b) => Ok b
  | _ => Raise TypeError
  end.

(** An in-place write: the object at [r] changes, the reference does not. *)
Definition write (r : ref) (a : ndarray) (st : store) : store :=
  upd r (fun _ => a) st.

(** [a.copy()] *)
Definition copy (r : ref) (st : store) : res (ref * store) :=
  match nth_error st r with
  | Some a => Ok (alloc a st)
  | None => Raise TypeError
  end.

(** The solver object: its two array attributes are references. *)
Record object : Type := mkObject {
  sudoku_at : ref;
  bitmap_at : ref;
  o_callback : bool;
  o_visualize : bool;
  o_attempts : Z;
  o_backtrack_count : Z;
  o_emitted : list event;
  o_calls : Z
}.

(** The state of the object [o] in the store [st]. *)
Definition view (o : object) (st : store) : res Solver :=
  g <- read_int (sudoku_at o) st ;;
  b <- read_bool (bitmap_at o) st ;;
  Ok (mkSolver g b (o_callback o) (o_visualize o) (o_attempts o)
               (o_backtrack_count o) (o_emitted o) (o_calls o)).

(** A method that only writes into the arrays of [self] and sets its other
    attributes: the references stay, the two objects change in place. *)
Definition commit (o : object) (s : Solver) (st : store) : object * store :=
  (mkObject (sudoku_at o) (bitmap_at o) (callback s) (visualize s) (attempts s)
            (backtrack_count s) (emitted s) (calls s),
   write (bitmap_at o) (BoolArray (bitmap s))
         (write (sudoku_at o) (IntArray (sudoku s)) st)).

Definition in_place (f : Solver -> res Solver) (o : object) (st : store)
  : res (object * store) :=
  s <- view o st ;;
  s' <- f s ;;
  Ok (commit o s' st).

(** A method that reads the arrays of [self] and writes nothing. *)
Definition reading {A : Type} (f : Solver -> A) (o : object) (st : store) : res A :=
  s <- view o st ;;
  Ok (f s).

Definition place_number_in (o : object) (i j : nat) (number : Z) (st : store)
  : res (object * store) :=
  in_place (fun s => place_number s i j number) o st.

Definition trivial_moves_in (o : object) (st : store) : res (object * store) :=
  in_place trivial_moves o st.

(** [self.bitmap = curr_bitmap; self.sudoku = curr_sudoku] *)
Definition rebind (o : object) (curr_sudoku curr_bitmap : ref) : object :=
  mkObject curr_sudoku curr_bitmap (o_callback o) (o_visualize o) (o_attempts o)
           (o_backtrack_count o) (o_emitted o) (o_calls o).

Definition set_counters (o : object) (a bc : Z) : object :=
  mkObject (sudoku_at o) (bitmap_at o) (o_callback o) (o_visualize o) a bc
           (o_emitted o) (o_calls o).

Definition set_visualize (o : object) (v : bool) : object :=
  mkObject (sudoku_at o) (bitmap_at o) (o_callback o) v (o_attempts o)
           (o_backtrack_count o) (o_emitted o) (o_calls o).

Definition enter_in (o : object) : object :=
  mkObject (sudoku_at o) (bitmap_at o) (o_callback o) (o_visualize o) (o_attempts o)
           (o_backtrack_count o) (o_emitted o) (o_calls o + 1).

(** [self.callback(a.copy(), status=..., ...)], the copy made only when the
    callback is called: the callback gets a new object. *)
Definition emit_in (o : object) (a : ref) (sts : status) (cell : option (nat * nat))
    (number : option Z) (st : store) : res (object * store) :=
  if o_callback o && o_visualize o then
    ' (c, st1) <- copy a st ;;
    g <- read_int c st1 ;;
    Ok (mkObject (sudoku_at o) (bitmap_at o) (o_callback o) (o_visualize o)
                 (o_attempts o) (o_backtrack_count o)
                 (mkEvent g sts cell number (o_attempts o) (o_backtrack_count o)
                    :: o_emitted o)
                 (o_calls o), st1)
  else Ok (o, st).

Definition search_result_in : Type := (option ref * object * store)%type.

Fixpoint try_numbers_in (rec : object -> store -> res search_result_in) (i j : nat)
    (numbers : list Z) (o : object) (st : store) : res search_result_in :=
  match numbers with
  | [] => Ok (None, o, st)
  | number :: rest =>
      ok <- bind (view o st) (fun s => can_place_number s i j number) ;;
      if (ok : bool) then
        ' (curr_bitmap, st) <- copy (bitmap_at o) st ;;
        ' (curr_sudoku, st) <- copy (sudoku_at o) st ;;
        ' (o, st) <- place_number_in o i j number st ;;
        ' (o, st) <- trivial_moves_in o st ;;
        ' (result, o, st) <- rec o st ;;
        match result with
        | Some g => Ok (Some g, o, st)
        | None =>
            let o := set_counters o (o_attempts o) (o_backtrack_count o + 1) in
            try_numbers_in rec i j rest (rebind o curr_sudoku curr_bitmap) st
        end
      else try_numbers_in rec i j rest o st
  end.

Fixpoint advanced_backtrack_in (fuel : nat) (o : object) (st : store)
  : res search_result_in :=
  match fuel with
  | O => OutOfFuel
  | S fuel' =>
      let o := enter_in o in
      solved <- reading is_solved o st ;;
      if (solved : bool) then Ok (Some (sudoku_at o), o, st)
      else
        cell <- reading advanced_least_options_cell o st ;;
        match cell with
        | Ok (i, j) =>
            numbers <- reading (fun s => smart_number_ordering s i j) o st ;;
            try_numbers_in (advanced_backtrack_in fuel') i j numbers o st
        | Raise ValueError => Ok (None, o, st)
        | Raise e => Raise e
        | OutOfFuel => OutOfFuel
        end
  end.

Fixpoint try_numbers_visualize_in (rec : object -> store -> res search_result_in)
    (i j : nat) (numbers : list Z) (o : object) (st : store) : res search_result_in :=
  match numbers with
  | [] => Ok (None, o, st)
  | number :: rest =>
      ok <- bind (view o st) (fun s => can_place_number s i j number) ;;
      if (ok : bool) then
        ' (curr_bitmap, st) <- copy (bitmap_at o) st ;;
        ' (curr_sudoku, st) <- copy (sudoku_at o) st ;;
        ' (o, st) <- emit_in o (sudoku_at o) trying (Some (i, j)) (Some number) st ;;
        ' (o, st) <- place_number_in o i j number st ;;
        ' (o, st) <- trivial_moves_in o st ;;
        ' (o, st) <- emit_in o (sudoku_at o) placed None None st ;;
        ' (result, o, st) <- rec o st ;;
        match result with
        | Some g => Ok (Some g, o, st)
        | None =>
            let o := set_counters o (o_attempts o) (o_backtrack_count o + 1) in
            ' (o, st) <- emit_in o curr_sudoku backtracking (Some (i, j)) None st ;;
            try_numbers_visualize_in rec i j rest (rebind o curr_sudoku curr_bitmap) st
        end
      else try_numbers_visualize_in rec i j rest o st
  end.

Fixpoint advanced_backtrack_visualize_in (fuel : nat) (o : object) (st : store)
  : res search_result_in :=
  match fuel with
  | O => OutOfFuel
  | S fuel' =>
      let o := enter_in o in
      let o := set_counters o (o_attempts o + 1) (o_backtrack_count o) in
      solved <- reading is_solved o st ;;
      if (solved : bool) then Ok (Some (sudoku_at o), o, st)
      else
        ' (o, st) <- emit_in o (sudoku_at o) searching None None st ;;
        cell <- reading advanced_least_options_cell o st ;;
        match cell with
        | Ok (i, j) =>
            numbers <- reading (fun s => smart_number_ordering s i j) o st ;;
            try_numbers_visualize_in (advanced_backtrack_visualize_in fuel') i j numbers o st
        | Raise ValueError => Ok (None, o, st)
        | Raise e => Raise e
        | OutOfFuel => OutOfFuel
        end
  end.

Definition solve_fuel_in (fuel : nat) (o : object) (vis : bool) (st : store)
  : res search_result_in :=
  let o := set_visualize o vis in
  let o := set_counters o 0 0 in
  if vis then advanced_backtrack_visualize_in fuel o st
  else advanced_backtrack_in fuel o st.

Definition solve_with_visualization_in (o : object) (vis : bool) (st : store)
  : res search_result_in :=
  empty <- reading (fun s => count_empty (sudoku s)) o st ;;
  solve_fuel_in (S empty) o vis st.

(** [SudokuSolver(sudoku, callback)]: two new arrays, then the clues of the
    caller's array [input], read cell by cell. *)
Definition init_cell_in (input : ref) (acc : object * store) (c : nat * nat)
  : res (object * store) :=
  let '(o, st) := acc in
  let '(i, j) := c in
  g <- read_int input st ;;
  v <- read_cell g i j ;;
  if negb (v =? 0)%Z then place_number_in o i j v st else Ok (o, st).

Definition SudokuSolver_in (input : ref) (cb : bool) (st : store)
  : res (object * store) :=
  let '(b, st) := alloc (BoolArray ones999) st in
  let '(g, st) := alloc (IntArray zeros99) st in
  foldM (init_cell_in input) cells (mkObject g b cb false 0 0 [] 0, st).

(** The second half of an attempt of the generator: the re-solve of the
    reduced puzzle the name [puzzle] is bound to. *)
Definition verify_in (puzzle : ref) (st : store) : res (option ref * store) :=
  ' (test_solver, st) <- SudokuSolver_in puzzle false st ;;
  ' (result, _, st) <- solve_with_visualization_in test_solver false st ;;
  Ok (result, st).

(** [puzzle[i][j] = 0] for the cells of [cs] *)
Definition remove_cells_in (puzzle : ref) (cs : list (nat * nat)) (st : store)
  : res store :=
  g <- read_int puzzle st ;;
  Ok (write puzzle (IntArray (remove_cells g cs)) st).

Definition generation_attempt_in (shuffled : list (nat * nat)) (diff_param : float)
    (st : store) : res (ref * option ref * store) :=
  let '(base_puzzle, st) := alloc (IntArray zeros99) st in
  ' (solver, st) <- SudokuSolver_in base_puzzle false st ;;
  ' (_, solver, st) <- solve_with_visualization_in solver false st ;;
  ' (puzzle, st) <- copy (sudoku_at solver) st ;;
  n <- remove_count diff_param ;;
  st <- remove_cells_in puzzle (take_py n shuffled) st ;;
  ' (result, st) <- verify_in puzzle st ;;
  Ok (puzzle, result, st).

(** * Specifications *)

(** ** Shapes *)

Definition wf_grid (g : Grid) : Prop :=
  length g = 9 /\ forall i, i < 9 -> length (nth i g []) = 9.

Definition wf_bitmap (b : Bitmap) : Prop :=
  length b = 9 /\
  (forall i, i < 9 -> length (nth i b []) = 9) /\
  (forall i j, i < 9 -> j < 9 -> length (get_cand b i j) = 9).

(** The states that stand for a solver object: both arrays have the shape
    numpy gave them. *)
Definition wf (s : Solver) : Prop := wf_grid (sudoku s) /\ wf_bitmap (bitmap s).

Definition shape_grid (g : Grid) : bool :=
  (length g =? 9) && forallb (fun row => length row =? 9) g.

Definition shape_bitmap (b : Bitmap) : bool :=
  (length b =? 9) &&
  forallb (fun row => (length row =? 9) && forallb (fun c => length c =? 9) row) b.

(** ** What [place_number] and [trivial_moves] do *)

(** The candidate array after the three elimination steps of
    [place_number] for the bit [d]. *)
Definition eliminate (b : Bitmap) (i j d : nat) : Bitmap :=
  fold_left (clear_box i j d) (range 3)
    (fold_left (clear_row_col i j d) (range 9)
       (set_cand b i j (repeat false 9))).

(** The positions [eliminate] switches off. *)
Definition cleared (i j d r c k : nat) : bool :=
  ((r =? i) && (c =? j)) ||
  ((k =? d) && (((r =? i) && (c <? 9)) || ((c =? j) && (r <? 9)) ||
                ((r / 3 =? i / 3) && (c / 3 =? j / 3)))).

(** The cells that share a row, a column or a box with [(i, j)]. *)
Definition peer (i j r c : nat) : Prop :=
  r = i \/ c = j \/ (r / 3 = i / 3 /\ c / 3 = j / 3).

(** [peer], as a check. *)
Definition peerb (i j r c : nat) : bool :=
  (r =? i) || (c =? j) || ((r / 3 =? i / 3) && (c / 3 =? j / 3)).

Definition b2n (b : bool) : nat := if b then 1 else 0.

Definition forced_number (s : Solver) (i j : nat) : Z :=
  Z.of_nat (argmax_bool (get_cand (bitmap s) i j)) + 1.

Inductive forced_steps : Solver -> Solver -> Prop :=
| fs_done : forall s, forced_steps s s
| fs_place : forall s i j s1 s',
    i < 9 -> j < 9 -> is_trivial_cell s i j = true ->
    place_number s i j (forced_number s i j) = Ok s1 ->
    forced_steps s1 s' ->
    forced_steps s s'.

(** The fields of the object that the array operations leave alone. *)
Definition same_fields (s s' : Solver) : Prop :=
  callback s' = callback s /\ visualize s' = visualize s /\
  attempts s' = attempts s /\ backtrack_count s' = backtrack_count s /\
  emitted s' = emitted s /\ calls s' = calls s.

(** ** Invariants of the grid and of the candidates *)

(** Row, column and box uniqueness of a grid: no cell shares its nonzero
    digit with another cell of its row, its column or its box. *)
Definition unique_grid (g : Grid) : Prop :=
  forall r c r' c', r < 9 -> c < 9 -> r' < 9 -> c' < 9 ->
    (r, c) <> (r', c') -> peer r c r' c' ->
    get_cell g r c <> 0%Z -> get_cell g r' c' <> get_cell g r c.

(** The cells of a puzzle are 0 (empty) or a digit. *)
Definition digits_grid (g : Grid) : Prop :=
  forall r c, r < 9 -> c < 9 -> (0 <= get_cell g r c <= 9)%Z.

(** The clue-consistency precondition, checked. *)
Definition unique_check (g : Grid) : bool :=
  forallb (fun '(r, c) =>
    forallb (fun '(r', c') =>
      ((r =? r') && (c =? c')) || negb (peerb r c r' c')
      || (get_cell g r c =? 0)%Z
      || negb (get_cell g r' c' =? get_cell g r c)%Z) cells) cells.

Definition digits_check (g : Grid) : bool :=
  forallb (fun '(r, c) => (0 <=? get_cell g r c)%Z && (get_cell g r c <=? 9)%Z) cells.

(** A filled cell has no candidate left. *)
Definition filled_closed (s : Solver) : Prop :=
  forall r c, r < 9 -> c < 9 -> get_cell (sudoku s) r c <> 0%Z ->
    forall k, get_bit (bitmap s) r c k = false.

(** A digit on the grid is no candidate of any cell it shares a row, a column
    or a box with. *)
Definition excluded (s : Solver) : Prop :=
  forall r c r' c', r < 9 -> c < 9 -> r' < 9 -> c' < 9 -> peer r c r' c' ->
    (1 <= get_cell (sudoku s) r c <= 9)%Z ->
    get_bit (bitmap s) r' c' (Z.to_nat (get_cell (sudoku s) r c - 1)) = false.

(** The grid holds clues of [input] and nothing else. *)
Definition sub_grid (input : Grid) (s : Solver) : Prop :=
  forall r c, r < 9 -> c < 9 ->
    get_cell (sudoku s) r c = 0%Z \/ get_cell (sudoku s) r c = get_cell input r c.

Record built (input : Grid) (s : Solver) : Prop := mkBuilt {
  built_wf : wf s;
  built_closed : filled_closed s;
  built_excluded : excluded s;
  built_sub : sub_grid input s
}.

Record sound (s : Solver) : Prop := mkSound {
  sound_wf : wf s;
  sound_closed : filled_closed s;
  sound_excluded : excluded s;
  sound_unique : unique_grid (sudoku s)
}.

(** The states the engine goes through on [input]: the constructor after any
    number of cells of its loop, a placement guarded by [can_place_number],
    a forced placement of the propagation, the restore of a snapshot, and
    the updates of the other fields. *)
Inductive engine_state (input : Grid) : Solver -> Prop :=
| es_clues : forall cb done rest s,
    cells = done ++ rest ->
    foldM (init_cell input) done (init_state cb) = Ok s ->
    engine_state input s
| es_guess : forall s i j number s',
    engine_state input s -> i < 9 -> j < 9 -> (1 <= number <= 9)%Z ->
    can_place_number s i j number = Ok true ->
    place_number s i j number = Ok s' ->
    engine_state input s'
| es_forced : forall s i j s',
    engine_state input s -> i < 9 -> j < 9 -> is_trivial_cell s i j = true ->
    place_number s i j (forced_number s i j) = Ok s' ->
    engine_state input s'
| es_restore : forall s snapshot,
    engine_state input s -> engine_state input snapshot ->
    engine_state input (with_arrays s (sudoku snapshot) (bitmap snapshot))
| es_fields : forall s s',
    engine_state input s -> sudoku s' = sudoku s -> bitmap s' = bitmap s ->
    engine_state input s'.

(** ** The candidate order *)

(** The order [sorted] sorts by. *)
Definition key_le {A : Type} (key : A -> Z) (x y : A) : Prop := (key x <= key y)%Z.

(** How often [number] occurs in the row, the column and the box of [(i, j)]. *)
Definition popularity (s : Solver) (i j : nat) (number : Z) : Z :=
  count_eq number (row_of (sudoku s) i) + count_eq number (col_of (sudoku s) j)
  + count_eq number (box_of (sudoku s) (i / 3 * 3) (j / 3 * 3)).

Definition more_popular (s : Solver) (i j : nat) (a b : Z) : Prop :=
  (popularity s i j a >= popularity s i j b)%Z.


(** A list that holds each of the digits 1 to 9 once. *)
Definition digits : list Z := [1; 2; 3; 4; 5; 6; 7; 8; 9]%Z.

Definition digit_set (l : list Z) : Prop := Permutation l digits.

(** ** What the search establishes *)

(** What a call of the search, or of its loop, establishes, for a property
    [P] of states that the steps of the search keep. *)
Definition search_post (P : Solver -> Prop) (strict : bool) (s : Solver) (r : option Grid) (s' : Solver) : Prop :=
  P s' /\ wf s' /\ filled_closed s' /\
  attempts s' = attempts s /\ emitted s' = emitted s /\
  (if strict then calls s < calls s' else calls s <= calls s')%Z /\
  match r with
  | Some g => g = sudoku s' /\ count_empty g = 0
  | None => sudoku s' = sudoku s /\ bitmap s' = bitmap s
  end.

(** The snapshots handed to the callback between two states are grids of
    states with [P]. *)
Definition snapshots (P : Solver -> Prop) (s s' : Solver) : Prop :=
  exists new, emitted s' = new ++ emitted s /\
    Forall (fun e => exists t, P t /\ ev_grid e = sudoku t) new.

Definition visualize_post (P : Solver -> Prop) (strict : bool) (s : Solver) (r : option Grid) (s' : Solver)
  : Prop :=
  P s' /\ wf s' /\ filled_closed s' /\
  (attempts s' - attempts s = calls s' - calls s)%Z /\
  (if strict then calls s < calls s' else calls s <= calls s')%Z /\
  snapshots P s s' /\
  match r with
  | Some g => g = sudoku s' /\ count_empty g = 0
  | None => sudoku s' = sudoku s /\ bitmap s' = bitmap s
  end.

(** ** Frames and agreement of the two models *)

(** The objects a call may write: those made after the first [n], and
    those of [A]. *)
Definition writable (n : nat) (A : ref -> Prop) (k : ref) : Prop := n <= k \/ A k.

(** Every other object is the same in [st'] as in [st], and no object was
    removed. *)
Definition frame (n : nat) (A : ref -> Prop) (st st' : store) : Prop :=
  length st <= length st' /\
  forall k, ~ writable n A k -> nth_error st' k = nth_error st k.

(** The arrays of the object are writable. *)
Definition owned (n : nat) (A : ref -> Prop) (o : object) : Prop :=
  writable n A (sudoku_at o) /\ writable n A (bitmap_at o).

Definition nothing (k : ref) : Prop := False.

(** What a call of the search leaves: a frame, and an object whose arrays
    are writable ones. *)
Definition framed (n : nat) (A : ref -> Prop) (st : store) (x : search_result_in)
  : Prop :=
  let '(_, o', st') := x in frame n A st st' /\ owned n A o'.

(** Two runs agree: both return, with related values, or both raise the
    same exception, or both run out of fuel. *)
Definition sim {X Y : Type} (R : X -> Y -> Prop) (a : res X) (b : res Y) : Prop :=
  match a, b with
  | Ok x, Ok y => R x y
  | Raise e, Raise e' => e = e'
  | OutOfFuel, OutOfFuel => True
  | _, _ => False
  end.

(** The object [o] is in state [s] in the store [st]. *)
Definition holds (o : object) (st : store) (s : Solver) : Prop := view o st = Ok s.

Definition refs_of (o : object) (k : ref) : Prop :=
  k = sudoku_at o \/ k = bitmap_at o.

Definition search_sim (n : nat) (A : ref -> Prop) (st : store)
    (x : search_result) (y : search_result_in) : Prop :=
  let '(r, s') := x in
  let '(rr, o', st') := y in
  holds o' st' s' /\ frame n A st st' /\ owned n A o' /\
  match r, rr with
  | Some g, Some k => k = sudoku_at o' /\ g = sudoku s'
  | None, None => True
  | _, _ => False
  end.

(** ** Completions of a puzzle *)

(** A completed grid: every cell holds a digit, and no digit is twice in a
    row, a column or a box. *)
Definition solution (g : Grid) : Prop :=
  wf_grid g /\
  (forall r c, r < 9 -> c < 9 -> (1 <= get_cell g r c <= 9)%Z) /\
  unique_grid g.

(** [g] keeps the clues of [input]. *)
Definition extends (input g : Grid) : Prop :=
  forall r c, r < 9 -> c < 9 ->
    get_cell input r c <> 0%Z -> get_cell g r c = get_cell input r c.

(** [extends], checked. *)
Definition extends_check (input g : Grid) : bool :=
  forallb (fun '(r, c) => (get_cell input r c =? 0)%Z
                          || (get_cell g r c =? get_cell input r c)%Z) cells.

(** [g] is a completion of the puzzle [input]. *)
Definition completes (g input : Grid) : Prop := solution g /\ extends input g.

(** The state has not ruled [g] out: its grid holds cells of [g] and empty
    cells, and the digit [g] has in an empty cell is a candidate there. *)
Definition carries (g : Grid) (s : Solver) : Prop :=
  sub_grid g s /\
  forall r c, r < 9 -> c < 9 -> get_cell (sudoku s) r c = 0%Z ->
    get_bit (bitmap s) r c (Z.to_nat (get_cell g r c - 1)) = true.

(** ** The cell heuristic *)

(** The values the masked impact matrix can hold: for an empty cell the
    quotient of at most 27 empty cells by 1 to 10, and -1 for a filled one. *)
Definition impact_quotients : list float :=
  flat_map (fun n =>
              map (fun m => (float_of_Z (Z.of_nat n) / float_of_Z (Z.of_nat m + 1))%float)
                  (range 10))
           (range 28).

Definition impact_values : list float := float_of_Z (-1) :: impact_quotients.

(** The entry of the masked impact matrix for a cell. *)
Definition masked_score (s : Solver) (c : nat * nat) : float :=
  let '(i, j) := c in
  if (get_cell (sudoku s) i j =? 0)%Z then impact_score s i j else float_of_Z (-1).

(** [<?] is a strict weak order on the numbers of [U]. *)
Definition order_check (U : list float) : bool :=
  forallb (fun x =>
    negb (x <? x)%float &&
    forallb (fun y =>
      forallb (fun z =>
        implb ((x <? y) && (y <? z))%float (x <? z)%float &&
        implb (negb (x <? y) && (x <? z))%float (y <? z)%float) U) U) U.

(** Row-major order of the cells. *)
Definition before (r c i j : nat) : Prop := r * 9 + c < i * 9 + j.

(** ** The two variants of the search *)

(** Two states with the same arrays and the same count of backtracks. *)
Definition agree (s t : Solver) : Prop :=
  sudoku s = sudoku t /\ bitmap s = bitmap t /\ backtrack_count s = backtrack_count t.

(** Two results of the search: the same answer, in states that agree. *)
Definition same_search (x y : search_result) : Prop :=
  fst x = fst y /\ agree (snd x) (snd y).

(** ** What the solver answers *)

(** What the search keeps on the puzzle [input]: the invariants of the
    engine, digits in the cells, and the clues. *)
Definition keeps (input : Grid) (s : Solver) : Prop :=
  sound s /\ digits_grid (sudoku s) /\ extends input (sudoku s).

(** ** The solver on clues that need not be consistent *)

(** What the search keeps of the puzzle [input] whatever its clues: filled
    cells have no candidate, the cells hold digits, and the clues stay. *)
Definition clues_kept (input : Grid) (s : Solver) : Prop :=
  filled_closed s /\ digits_grid (sudoku s) /\ extends input (sudoku s).

(** ** The counters of a streaming solve *)

(** What a call of the streaming search ([call] true) or its loop ([call]
    false) does to the two counters. *)
Definition counted (call : bool) (s : Solver) (r : option Grid) (s' : Solver) : Prop :=
  let da := (attempts s' - attempts s)%Z in
  let db := (backtrack_count s' - backtrack_count s)%Z in
  let own := (if call then 1 else 0)%Z in
  (0 <= db)%Z /\ (db + own <= da)%Z /\ (r = None -> da = db + own)%Z.

(** ** The calls of the callback *)

Definition status_eqb (a b : status) : bool :=
  match a, b with
  | searching, searching | trying, trying | placed, placed
  | backtracking, backtracking => true
  | _, _ => false
  end.

(** How many of the calls the callback got so far had the status [st]. *)
Definition calls_with (st : status) (s : Solver) : Z :=
  Z.of_nat (count (fun e => status_eqb (ev_status e) st) (emitted s)).

(** 1 for a search that returned a grid, 0 for one that returned [None]. *)
Definition found (r : option Grid) : Z :=
  match r with
  | Some _ => 1
  | None => 0
  end.

(** What a call of the streaming search, or of its loop, adds to the calls
    of a callback. *)
Definition traced (s : Solver) (r : option Grid) (s' : Solver) : Prop :=
  callback s' = true /\ visualize s' = true /\
  (calls_with backtracking s' - calls_with backtracking s
   = backtrack_count s' - backtrack_count s)%Z /\
  (calls_with trying s' - calls_with trying s
   = calls_with placed s' - calls_with placed s)%Z /\
  (calls_with searching s' - calls_with searching s
   = attempts s' - attempts s - found r)%Z.

(** ** The order of the calls of the callback *)

(** [follows a b]: a call with status [b] may come right after a call with
    status [a]. *)
Definition follows (a b : status) : bool :=
  match a, b with
  | searching, trying | searching, backtracking => true
  | trying, placed => true
  | placed, searching => true
  | backtracking, trying | backtracking, backtracking => true
  | _, _ => false
  end.

(** A trace, latest call first, that starts with a call 'searching' and in
    which every call follows the one before it. *)
Fixpoint ordered (l : list event) : bool :=
  match l with
  | [] => true
  | e :: t =>
      match t with
      | [] => status_eqb (ev_status e) searching
      | e' :: _ => follows (ev_status e') (ev_status e)
      end && ordered t
  end.

(** The status of the latest call. *)
Definition last_status (s : Solver) : option status :=
  match emitted s with
  | [] => None
  | e :: _ => Some (ev_status e)
  end.

(** Between two tries: no call yet, or the latest one was 'placed'. *)
Definition at_rest (s : Solver) : Prop :=
  last_status s = None \/ last_status s = Some placed.

(** Inside the loop of a call: the latest call was 'searching' or
    'backtracking'. *)
Definition in_loop (s : Solver) : Prop :=
  last_status s = Some searching \/ last_status s = Some backtracking.

(** What a call of the streaming search, or of its loop, leaves of the
    calls of a callback. *)
Definition in_order (r : option Grid) (s' : Solver) : Prop :=
  callback s' = true /\ visualize s' = true /\ ordered (emitted s') = true /\
  match r with
  | Some _ => at_rest s'
  | None => in_loop s'
  end.

(** ** Concrete states *)

(** A puzzle with forced cells: the solution of the empty grid with its
    last row and the cell above its last cell blanked. *)
Definition example_puzzle : Grid :=
  [[1; 4; 7; 2; 5; 8; 3; 6; 9];
   [2; 6; 8; 3; 7; 9; 1; 4; 5];
   [3; 5; 9; 1; 6; 4; 2; 7; 8];
   [4; 7; 1; 6; 8; 2; 5; 9; 3];
   [8; 2; 6; 9; 3; 5; 7; 1; 4];
   [9; 3; 5; 7; 4; 1; 8; 2; 6];
   [5; 9; 2; 8; 1; 6; 4; 3; 7];
   [6; 8; 3; 4; 2; 7; 9; 5; 0];
   [0; 0; 0; 0; 0; 0; 0; 0; 0]]%Z.

Definition example_state : Solver :=
  Eval vm_compute in
    match SudokuSolver example_puzzle false with
    | Ok s => s
    | _ => init_state false
    end.

Definition empty_solution : Grid :=
  [[1; 4; 7; 2; 5; 8; 3; 6; 9];
   [2; 6; 8; 3; 7; 9; 1; 4; 5];
   [3; 5; 9; 1; 6; 4; 2; 7; 8];
   [4; 7; 1; 6; 8; 2; 5; 9; 3];
   [8; 2; 6; 9; 3; 5; 7; 1; 4];
   [9; 3; 5; 7; 4; 1; 8; 2; 6];
   [5; 9; 2; 8; 1; 6; 4; 3; 7];
   [6; 8; 3; 4; 2; 7; 9; 5; 1];
   [7; 1; 4; 5; 9; 3; 6; 8; 2]]%Z.

(** The solver object for the empty grid, and what the search leaves of it. *)
Definition empty_solver : Solver :=
  Eval vm_compute in
    match SudokuSolver zeros99 false with
    | Ok s => s
    | _ => init_state false
    end.

Definition empty_solved : Solver :=
  Eval vm_compute in
    match solve_with_visualization empty_solver false with
    | Ok (_, s) => s
    | _ => init_state false
    end.

Definition empty_solved_visualize : Solver :=
  Eval vm_compute in
    match solve_with_visualization empty_solver true with
    | Ok (_, s) => s
    | _ => init_state false
    end.

(** What [generate_puzzle] returns with [difficulty="expert"] when
    [random.shuffle] leaves the cells in row-major order. *)
Definition expert_puzzle : Grid :=
  [[0; 0; 0; 0; 0; 0; 0; 0; 0];
   [0; 0; 0; 0; 0; 0; 0; 0; 0];
   [0; 0; 0; 0; 0; 0; 0; 0; 0];
   [0; 0; 0; 0; 0; 0; 0; 0; 0];
   [0; 0; 0; 0; 0; 0; 0; 0; 0];
   [0; 0; 0; 0; 0; 0; 0; 0; 0];
   [0; 0; 0; 0; 0; 0; 0; 0; 0];
   [0; 8; 3; 4; 2; 7; 9; 5; 1];
   [7; 1; 4; 5; 9; 3; 6; 8; 2]]%Z.

Definition no_shuffle (k : nat) (l : list (nat * nat)) : list (nat * nat) := l.

Definition cell_eq_dec (x y : nat * nat) : {x = y} + {x <> y}.
Proof. decide equality; apply Nat.eq_dec. Defined.

(** A caller's store with one array, the puzzle, and a streaming solve of it. *)
Definition example_store : store := [IntArray example_puzzle].

Definition example_object : object :=
  Eval vm_compute in
    match SudokuSolver_in 0 true example_store with
    | Ok (o, _) => o
    | _ => mkObject 0 0 false false 0 0 [] 0
    end.

Definition example_store_built : store :=
  Eval vm_compute in
    match SudokuSolver_in 0 true example_store with
    | Ok (_, st) => st
    | _ => []
    end.

Definition example_solved : search_result_in :=
  Eval vm_compute in
    match solve_with_visualization_in example_object true example_store_built with
    | Ok x => x
    | _ => (None, example_object, [])
    end.

(** A puzzle with consistent clues and no completion: the last cell of the
    first row has no digit left. *)
Definition stuck_puzzle : Grid :=
  [[1; 2; 3; 4; 5; 6; 7; 8; 0];
   [0; 0; 0; 0; 0; 0; 0; 0; 9];
   [0; 0; 0; 0; 0; 0; 0; 0; 0];
   [0; 0; 0; 0; 0; 0; 0; 0; 0];
   [0; 0; 0; 0; 0; 0; 0; 0; 0];
   [0; 0; 0; 0; 0; 0; 0; 0; 0];
   [0; 0; 0; 0; 0; 0; 0; 0; 0];
   [0; 0; 0; 0; 0; 0; 0; 0; 0];
   [0; 0; 0; 0; 0; 0; 0; 0; 0]]%Z.

Definition stuck_state : Solver :=
  Eval vm_compute in
    match SudokuSolver stuck_puzzle true with
    | Ok s => s
    | _ => init_state true
    end.

Definition stuck_failed : Solver :=
  Eval vm_compute in
    match solve_with_visualization stuck_state true with
    | Ok (_, s) => s
    | _ => init_state true
    end.

(** The example puzzle in a solver with a callback, and the solve of it with
    visualisation. *)
Definition example_streaming : Solver :=
  Eval vm_compute in
    match SudokuSolver example_puzzle true with
    | Ok s => s
    | _ => init_state true
    end.

Definition example_streamed : search_result :=
  Eval vm_compute in
    match solve_with_visualization example_streaming true with
    | Ok x => x
    | _ => (None, init_state true)
    end.

(** A puzzle whose clues clash: two 5 in the first row. *)
Definition clash_puzzle : Grid :=
  [[5; 5; 0; 0; 0; 0; 0; 0; 0];
   [0; 0; 0; 0; 0; 0; 0; 0; 0];
   [0; 0; 0; 0; 0; 0; 0; 0; 0];
   [0; 0; 0; 0; 0; 0; 0; 0; 0];
   [0; 0; 0; 0; 0; 0; 0; 0; 0];
   [0; 0; 0; 0; 0; 0; 0; 0; 0];
   [0; 0; 0; 0; 0; 0; 0; 0; 0];
   [0; 0; 0; 0; 0; 0; 0; 0; 0];
   [0; 0; 0; 0; 0; 0; 0; 0; 0]]%Z.

(** A full grid that is no solution. *)
Definition fives : Grid := repeat (repeat 5%Z 9) 9.

(** A re-solve that finds no solution, one that finds none while the first
    cell of the puzzle is blank, and a shuffle that leaves the list alone
    twice and reverses it from then on. *)
Definition reject_all (puzzle : Grid) : res (option Grid) := Ok None.

Definition accept_first_cell (puzzle : Grid) : res (option Grid) :=
  if (get_cell puzzle 0 0 =? 0)%Z then Ok None else Ok (Some puzzle).

Definition late_shuffle (k : nat) (l : list (nat * nat)) : list (nat * nat) :=
  if k <? 2 then l else rev l.

(** * Properties *)

Ltac Zify.zify_post_hook ::= Z.div_mod_to_equations.

(** ** In-place updates *)

Section Updates.
Context {A : Type}.

Lemma length_upd (n : nat) (f : A -> A) (l : list A) :
  length (upd n f l) = length l.
Proof.
  revert n; induction l as [|x t IH]; intros [|n]; simpl; auto.
Qed.

Lemma nth_upd (n m : nat) (f : A -> A) (l : list A) (d : A) :
  nth m (upd n f l) d =
  if (m =? n) && (m <? length l) then f (nth m l d) else nth m l d.
Proof.
  revert n m; induction l as [|x t IH]; intros n m; simpl.
  - rewrite andb_false_r. destruct n; reflexivity.
  - destruct n as [|n], m as [|m]; simpl; try reflexivity.
    rewrite IH. reflexivity.
Qed.

Lemma upd_same (n : nat) (f : A -> A) (l : list A) :
  (forall x, f x = x) -> upd n f l = l.
Proof.
  intros Hf. revert n; induction l as [|x t IH]; intros [|n]; simpl; auto.
  - now rewrite Hf.
  - now rewrite IH.
Qed.

Lemma fold_left_inv {B : Type} (P : B -> Prop) (f : B -> A -> B) (l : list A) (b : B) :
  P b -> (forall b' x, In x l -> P b' -> P (f b' x)) -> P (fold_left f l b).
Proof.
  revert b; induction l as [|x t IH]; intros b Hb Hstep; simpl; auto.
  apply IH.
  - apply Hstep; simpl; auto.
  - intros b' y Hy. apply Hstep. simpl; auto.
Qed.
End Updates.

Lemma get_cell_set_cell (g : Grid) (i j r c : nat) (v : Z) :
  get_cell (set_cell g i j v) r c =
  if (r =? i) && (c =? j) && (r <? length g) && (c <? length (nth r g []))
  then v else get_cell g r c.
Proof.
  unfold get_cell, set_cell. rewrite nth_upd.
  destruct (r =? i) eqn:Hr, (r <? length g) eqn:Hl; simpl;
    rewrite ?andb_false_r; try reflexivity.
  apply Nat.eqb_eq in Hr; subst r.
  rewrite nth_upd, ?andb_true_r. reflexivity.
Qed.

Lemma get_cand_set_cand (b : Bitmap) (i j r c : nat) (v : list bool) :
  get_cand (set_cand b i j v) r c =
  if (r =? i) && (c =? j) && (r <? length b) && (c <? length (nth r b []))
  then v else get_cand b r c.
Proof.
  unfold get_cand, set_cand. rewrite nth_upd.
  destruct (r =? i) eqn:Hr, (r <? length b) eqn:Hl; simpl;
    rewrite ?andb_false_r; try reflexivity.
  apply Nat.eqb_eq in Hr; subst r.
  rewrite nth_upd, ?andb_true_r. reflexivity.
Qed.

(** Clearing a bit needs no shape: a position that does not exist reads
    [False] before and after. *)
Lemma get_bit_set_bit (b : Bitmap) (i j k r c k' : nat) :
  get_bit (set_bit b i j k false) r c k' =
  if (r =? i) && (c =? j) && (k' =? k) then false else get_bit b r c k'.
Proof.
  unfold get_bit, get_cand, set_bit. rewrite nth_upd.
  destruct (r =? i) eqn:Hr; simpl; [|reflexivity].
  apply Nat.eqb_eq in Hr; subst r.
  destruct (i <? length b) eqn:Hi.
  - rewrite nth_upd.
    destruct (c =? j) eqn:Hc; simpl; [|reflexivity].
    apply Nat.eqb_eq in Hc; subst c.
    destruct (j <? length (nth i b [])) eqn:Hj.
    + rewrite nth_upd.
      destruct (k' =? k) eqn:Hk; simpl; [|reflexivity].
      apply Nat.eqb_eq in Hk; subst k'.
      destruct (k <? _) eqn:Hk; [reflexivity|].
      apply Nat.ltb_ge in Hk. now apply nth_overflow.
    + apply Nat.ltb_ge in Hj.
      rewrite (nth_overflow (nth i b []) [] Hj).
      destruct (k' =? k); [destruct k'|]; reflexivity.
  - apply Nat.ltb_ge in Hi.
    rewrite (nth_overflow b [] Hi).
    destruct (c =? j), (k' =? k); simpl; destruct c, k'; reflexivity.
Qed.

(** ** Shapes *)

Lemma wf_zeros99 : wf_grid zeros99.
Proof.
  split; [reflexivity|]. intros i Hi.
  do 9 (destruct i as [|i]; [reflexivity|]). lia.
Qed.

Lemma wf_ones999 : wf_bitmap ones999.
Proof.
  split; [reflexivity|]. split.
  - intros i Hi. do 9 (destruct i as [|i]; [reflexivity|]). lia.
  - intros i j Hi Hj.
    do 9 (destruct i as [|i]; [do 9 (destruct j as [|j]; [reflexivity|]); lia|]). lia.
Qed.

Lemma wf_set_cell (g : Grid) (i j : nat) (v : Z) :
  wf_grid g -> wf_grid (set_cell g i j v).
Proof.
  intros [Hl Hr]. unfold set_cell. split.
  - now rewrite length_upd.
  - intros r Hr9. rewrite nth_upd.
    destruct ((r =? i) && (r <? length g)); [rewrite length_upd|]; auto.
Qed.

Lemma wf_set_cand (b : Bitmap) (i j : nat) (v : list bool) :
  length v = 9 -> wf_bitmap b -> wf_bitmap (set_cand b i j v).
Proof.
  intros Hv (Hl & Hr & Hc). split; [|split].
  - unfold set_cand. now rewrite length_upd.
  - intros r Hr9. unfold set_cand. rewrite nth_upd.
    destruct ((r =? i) && (r <? length b)); [rewrite length_upd|]; auto.
  - intros r c Hr9 Hc9. rewrite get_cand_set_cand.
    destruct (_ && _); auto.
Qed.

Lemma wf_set_bit (b : Bitmap) (i j k : nat) (v : bool) :
  wf_bitmap b -> wf_bitmap (set_bit b i j k v).
Proof.
  intros (Hl & Hr & Hc). split; [|split].
  - unfold set_bit. now rewrite length_upd.
  - intros r Hr9. unfold set_bit. rewrite nth_upd.
    destruct ((r =? i) && (r <? length b)); [rewrite length_upd|]; auto.
  - intros r c Hr9 Hc9. unfold get_cand, set_bit. rewrite nth_upd.
    destruct ((r =? i) && (r <? length b)); [|apply Hc; auto].
    rewrite nth_upd.
    destruct ((c =? j) && (c <? length (nth r b []))); [|apply Hc; auto].
    rewrite length_upd. apply Hc; auto.
Qed.

(** ** [place_number] *)

Ltac b2p :=
  repeat rewrite ?andb_true_iff, ?orb_true_iff, ?negb_true_iff, ?andb_false_iff,
    ?orb_false_iff, ?negb_false_iff, ?Nat.eqb_eq, ?Nat.eqb_neq, ?Nat.ltb_lt,
    ?Nat.ltb_ge, ?Nat.leb_le, ?Nat.leb_gt, ?Z.eqb_eq, ?Z.eqb_neq, ?Z.ltb_lt,
    ?Z.ltb_ge, ?Z.leb_le, ?Z.leb_gt in *.

Ltac splits := repeat match goal with |- _ /\ _ => split end.

Lemma existsb_range (p : nat -> bool) (n : nat) :
  existsb p (range n) = true <-> exists x, x < n /\ p x = true.
Proof.
  unfold range. rewrite existsb_exists. split.
  - intros (x & Hin & Hp). apply in_seq in Hin. exists x. split; [lia|auto].
  - intros (x & Hlt & Hp). exists x. split; [apply in_seq; lia|auto].
Qed.

Lemma py_index_digit (number : Z) :
  (1 <= number <= 9)%Z -> py_index 9 (number - 1) = Ok (Z.to_nat (number - 1)).
Proof.
  intros H. unfold py_index.
  replace ((0 <=? number - 1)%Z && (number - 1 <? Z.of_nat 9)%Z) with true; auto.
  symmetry. b2p. lia.
Qed.

Lemma place_number_digit (s : Solver) (i j : nat) (number : Z) :
  (1 <= number <= 9)%Z ->
  place_number s i j number =
  Ok (with_arrays s (set_cell (sudoku s) i j number)
                    (eliminate (bitmap s) i j (Z.to_nat (number - 1)))).
Proof.
  intros H. unfold place_number. rewrite (py_index_digit H). reflexivity.
Qed.

Lemma get_bit_reset (b : Bitmap) (i j r c k : nat) :
  get_bit (set_cand b i j (repeat false 9)) r c k =
  if (r =? i) && (c =? j) then false else get_bit b r c k.
Proof.
  unfold get_bit. rewrite get_cand_set_cand.
  destruct (r =? i) eqn:Hr; simpl; [|reflexivity].
  destruct (c =? j) eqn:Hc; simpl; [|reflexivity].
  destruct (r <? length b) eqn:Hl; simpl.
  - destruct (c <? _) eqn:Hl'.
    + do 9 (destruct k as [|k]; [reflexivity|]). destruct k; reflexivity.
    + apply Nat.ltb_ge in Hl'. unfold get_cand.
      rewrite (nth_overflow _ [] Hl'). destruct k; reflexivity.
  - apply Nat.ltb_ge in Hl. unfold get_cand.
    rewrite (nth_overflow _ [] Hl). destruct c, k; reflexivity.
Qed.

Lemma get_bit_clear_row_col (i j d r c k : nat) (ks : list nat) (b : Bitmap) :
  get_bit (fold_left (clear_row_col i j d) ks b) r c k =
  if (k =? d) && existsb (fun x => ((r =? i) && (c =? x)) || ((r =? x) && (c =? j))) ks
  then false else get_bit b r c k.
Proof.
  revert b; induction ks as [|x ks IH]; intros b; simpl.
  - now rewrite andb_false_r.
  - rewrite IH. unfold clear_row_col. rewrite !get_bit_set_bit.
    destruct (k =? d), (r =? i), (c =? x), (r =? x), (c =? j); simpl;
      try reflexivity; destruct (existsb _ ks); reflexivity.
Qed.

Lemma get_bit_clear_box_row (R J d r c k : nat) (ls : list nat) (b : Bitmap) :
  get_bit (fold_left (fun b' l => set_bit b' R (J + l) d false) ls b) r c k =
  if (k =? d) && (r =? R) && existsb (fun l => c =? J + l) ls
  then false else get_bit b r c k.
Proof.
  revert b; induction ls as [|x ls IH]; intros b; simpl.
  - now rewrite andb_false_r.
  - rewrite IH, get_bit_set_bit.
    destruct (k =? d), (r =? R), (c =? J + x); simpl;
      try reflexivity; destruct (existsb _ ls); reflexivity.
Qed.

Lemma get_bit_clear_box (i j d r c k : nat) (ks : list nat) (b : Bitmap) :
  get_bit (fold_left (clear_box i j d) ks b) r c k =
  if (k =? d) && existsb (fun x => r =? i / 3 * 3 + x) ks
     && existsb (fun l => c =? j / 3 * 3 + l) (range 3)
  then false else get_bit b r c k.
Proof.
  revert b; induction ks as [|x ks IH]; intros b; cbn [fold_left existsb].
  - now rewrite andb_false_r.
  - rewrite IH. unfold clear_box. rewrite get_bit_clear_box_row.
    destruct (k =? d), (r =? i / 3 * 3 + x), (existsb _ ks),
      (existsb _ (range 3)); reflexivity.
Qed.

Lemma get_bit_eliminate (b : Bitmap) (i j d r c k : nat) :
  get_bit (eliminate b i j d) r c k =
  if cleared i j d r c k then false else get_bit b r c k.
Proof.
  unfold eliminate.
  rewrite get_bit_clear_box, get_bit_clear_row_col, get_bit_reset.
  assert (Hrc : existsb (fun x => ((r =? i) && (c =? x)) || ((r =? x) && (c =? j)))
                  (range 9) = ((r =? i) && (c <? 9)) || ((c =? j) && (r <? 9))).
  { apply eq_true_iff_eq. rewrite existsb_range. b2p. split.
    - intros (x & Hx & H). b2p. lia.
    - intros [[-> H]|[-> H]].
      + exists c. b2p. lia.
      + exists r. b2p. lia. }
  assert (Hbox : existsb (fun x => r =? i / 3 * 3 + x) (range 3)
                 && existsb (fun l => c =? j / 3 * 3 + l) (range 3)
                 = ((r / 3 =? i / 3) && (c / 3 =? j / 3))).
  { apply eq_true_iff_eq. rewrite andb_true_iff, !existsb_range. b2p. split.
    - intros [(x & Hx & H) (y & Hy & H')]. b2p. lia.
    - intros [H H']. split.
      + exists (r mod 3). b2p. lia.
      + exists (c mod 3). b2p. lia. }
  unfold cleared. rewrite <- Hrc, <- Hbox.
  destruct (k =? d), (r =? i), (c =? j); cbn [andb orb]; try reflexivity;
    repeat match goal with
           | |- context [existsb ?p ?l] => destruct (existsb p l); cbn [andb orb]
           end;
    reflexivity.
Qed.

Lemma wf_eliminate (b : Bitmap) (i j d : nat) :
  wf_bitmap b -> wf_bitmap (eliminate b i j d).
Proof.
  intros H. unfold eliminate.
  apply fold_left_inv.
  - apply fold_left_inv.
    + apply wf_set_cand; auto.
    + intros b' x _ Hb'. unfold clear_row_col. now do 2 apply wf_set_bit.
  - intros b' x _ Hb'. unfold clear_box. apply fold_left_inv; auto.
    intros b'' y _ Hb''. now apply wf_set_bit.
Qed.

Lemma wf_place_number (s s' : Solver) (i j : nat) (number : Z) :
  wf s -> place_number s i j number = Ok s' -> wf s'.
Proof.
  intros [Hg Hb]. unfold place_number.
  destruct (py_index 9 (number - 1)) as [d| |]; simpl; try discriminate.
  intros [= <-]. split; simpl.
  - now apply wf_set_cell.
  - now apply wf_eliminate.
Qed.

(** ** Candidates *)

Lemma In_possible_numbers (s : Solver) (i j : nat) (d : Z) :
  In d (possible_numbers s i j) <->
  (1 <= d <= 9)%Z /\ get_bit (bitmap s) i j (Z.to_nat (d - 1)) = true.
Proof.
  unfold possible_numbers, range. rewrite in_map_iff. split.
  - intros (num & <- & Hin). apply filter_In in Hin. destruct Hin as [Hin Hb].
    apply in_seq in Hin. split; [lia|].
    replace (Z.to_nat (Z.of_nat num + 1 - 1)) with num by lia. exact Hb.
  - intros [Hd Hb]. exists (Z.to_nat (d - 1)). split; [lia|].
    apply filter_In. split; [apply in_seq; lia|exact Hb].
Qed.

Lemma can_place_digit (s : Solver) (i j : nat) (d : Z) :
  (1 <= d <= 9)%Z ->
  can_place_number s i j d = Ok (get_bit (bitmap s) i j (Z.to_nat (d - 1))).
Proof.
  intros H. unfold can_place_number. now rewrite (py_index_digit H).
Qed.

Lemma possible_numbers_nil (s : Solver) (i j : nat) :
  (forall k, get_bit (bitmap s) i j k = false) -> possible_numbers s i j = [].
Proof.
  intros H. unfold possible_numbers.
  replace (filter _ (range 9)) with (@nil nat); [reflexivity|].
  symmetry. induction (range 9) as [|x t IH]; simpl; auto.
  now rewrite H.
Qed.

Lemma cleared_true (i j d r c k : nat) :
  r < 9 -> c < 9 ->
  (cleared i j d r c k = true <-> (r = i /\ c = j) \/ (k = d /\ peer i j r c)).
Proof.
  intros Hr Hc. unfold cleared, peer. b2p. lia.
Qed.

(** ** Counting empty cells *)

Lemma count_app {A : Type} (p : A -> bool) (l1 l2 : list A) :
  count p (l1 ++ l2) = count p l1 + count p l2.
Proof.
  unfold count. now rewrite filter_app, length_app.
Qed.

Lemma count_upd {A : Type} (p : A -> bool) (n : nat) (f : A -> A) (l : list A) (d : A) :
  n < length l ->
  count p (upd n f l) + b2n (p (nth n l d)) = count p l + b2n (p (f (nth n l d))).
Proof.
  revert n; induction l as [|x t IH]; intros n Hn; simpl in Hn; [lia|].
  destruct n as [|n]; simpl.
  - unfold count; simpl. destruct (p x), (p (f x)); simpl; lia.
  - specialize (IH n ltac:(lia)). unfold count in *; simpl.
    destruct (p x); simpl; lia.
Qed.

Lemma count_concat_upd {A : Type} (p : A -> bool) (n : nat) (F : list A -> list A)
    (g : list (list A)) :
  n < length g ->
  count p (concat (upd n F g)) + count p (nth n g []) =
  count p (concat g) + count p (F (nth n g [])).
Proof.
  revert n; induction g as [|row t IH]; intros n Hn; simpl in Hn; [lia|].
  destruct n as [|n]; simpl; rewrite !count_app.
  - lia.
  - specialize (IH n ltac:(lia)). lia.
Qed.

Lemma count_empty_set_cell (g : Grid) (i j : nat) (v : Z) :
  wf_grid g -> i < 9 -> j < 9 ->
  count_empty (set_cell g i j v) + b2n (get_cell g i j =? 0)%Z =
  count_empty g + b2n (v =? 0)%Z.
Proof.
  intros [Hl Hr] Hi Hj. unfold count_empty, set_cell, get_cell.
  pose proof (@count_concat_upd Z (fun v => (v =? 0)%Z) i (upd j (fun _ => v)) g
                ltac:(lia)) as H1.
  pose proof (@count_upd Z (fun v => (v =? 0)%Z) j (fun _ => v) (nth i g []) 0%Z
                ltac:(rewrite Hr; lia)) as H2.
  cbv beta in H2. lia.
Qed.

(** ** [np.argmax] on the candidates *)

Lemma argmax_bool_spec (l : list bool) :
  existsb (fun b => b) l = true ->
  argmax_bool l < length l /\ nth (argmax_bool l) l false = true.
Proof.
  induction l as [|[|] t IH]; simpl; intros H; try discriminate.
  - split; [lia|reflexivity].
  - rewrite H. destruct (IH H). split; [lia|assumption].
Qed.

Lemma sum_bool_pos (l : list bool) :
  (0 < sum_bool l)%Z -> existsb (fun b => b) l = true.
Proof.
  unfold sum_bool, count. induction l as [|[|] t IH]; simpl; intros H; auto; lia.
Qed.

(** ** [trivial_moves] *)

Lemma In_cells (i j : nat) : In (i, j) cells <-> i < 9 /\ j < 9.
Proof.
  unfold cells, range. rewrite in_flat_map. split.
  - intros (x & Hx & Hin). apply in_map_iff in Hin.
    destruct Hin as (y & [= <- <-] & Hy). apply in_seq in Hx, Hy. lia.
  - intros [Hi Hj]. exists i. split; [apply in_seq; lia|].
    apply in_map_iff. exists j. split; [reflexivity|apply in_seq; lia].
Qed.

Lemma forced_number_spec (s : Solver) (i j : nat) :
  wf s -> i < 9 -> j < 9 -> is_trivial_cell s i j = true ->
  get_cell (sudoku s) i j = 0%Z /\
  (1 <= forced_number s i j <= 9)%Z /\
  get_bit (bitmap s) i j (Z.to_nat (forced_number s i j - 1)) = true.
Proof.
  intros [Hg (Hl & Hr & Hc)] Hi Hj Ht. unfold is_trivial_cell in Ht. b2p.
  destruct Ht as [Hz Hs]. split; [assumption|].
  destruct (argmax_bool_spec (get_cand (bitmap s) i j)) as [Hlt Hn].
  { apply sum_bool_pos. lia. }
  rewrite Hc in Hlt by assumption. unfold forced_number. split; [lia|].
  unfold get_bit.
  replace (Z.to_nat _) with (argmax_bool (get_cand (bitmap s) i j)) by lia.
  exact Hn.
Qed.

Lemma place_fills (s : Solver) (i j : nat) (number : Z) :
  wf s -> i < 9 -> j < 9 -> (1 <= number <= 9)%Z ->
  get_cell (sudoku s) i j = 0%Z ->
  exists s', place_number s i j number = Ok s' /\ wf s' /\
             S (count_empty (sudoku s')) = count_empty (sudoku s).
Proof.
  intros Hwf Hi Hj Hn Hz. eexists. split; [apply place_number_digit; assumption|].
  split.
  - eapply wf_place_number; [eassumption|]. apply place_number_digit; assumption.
  - simpl. pose proof (@count_empty_set_cell (sudoku s) i j number (proj1 Hwf) Hi Hj) as H.
    rewrite Hz in H. replace (number =? 0)%Z with false in H by (symmetry; b2p; lia).
    simpl in H. lia.
Qed.

Lemma trivial_pass_progress (l : list (nat * nat)) :
  (forall i j, In (i, j) l -> i < 9 /\ j < 9) ->
  forall (c : bool) (s : Solver), wf s ->
  exists c' s', foldM trivial_step l (c, s) = Ok (c', s') /\ wf s' /\
    count_empty (sudoku s') <= count_empty (sudoku s) /\
    (c' = true -> c = true \/ count_empty (sudoku s') < count_empty (sudoku s)).
Proof.
  induction l as [|[i j] l IH]; intros Hl c s Hwf.
  - exists c, s. simpl. splits; auto.
  - assert (Hij : i < 9 /\ j < 9) by (apply Hl; left; reflexivity).
    assert (Hl' : forall i j, In (i, j) l -> i < 9 /\ j < 9)
      by (intros; apply Hl; right; assumption).
    cbn [foldM]. unfold trivial_step at 1.
    destruct (is_trivial_cell s i j) eqn:Ht.
    + destruct (forced_number_spec Hwf (proj1 Hij) (proj2 Hij) Ht) as (Hz & Hn & _).
      destruct (place_fills Hwf (proj1 Hij) (proj2 Hij) Hn Hz) as (s1 & Hp & Hwf1 & Hc1).
      fold (forced_number s i j). rewrite Hp. cbn [bind].
      destruct (IH Hl' true s1 Hwf1) as (c' & s' & Hf & Hwf' & Hle & Hch).
      exists c', s'. rewrite Hf. splits; auto; try lia.
    + cbn [bind]. apply IH; assumption.
Qed.

Lemma trivial_pass_changed (l : list (nat * nat)) (s s' : Solver) (c : bool) :
  foldM trivial_step l (true, s) = Ok (c, s') -> c = true.
Proof.
  revert s; induction l as [|[i j] l IH]; intros s; cbn [foldM].
  - now intros [= <- _].
  - unfold trivial_step at 1. destruct (is_trivial_cell s i j).
    + destruct (place_number _ _ _ _) as [s1| |]; cbn [bind]; try discriminate.
      apply IH.
    + cbn [bind]. apply IH.
Qed.

Lemma trivial_pass_unchanged (l : list (nat * nat)) (s s' : Solver) :
  foldM trivial_step l (false, s) = Ok (false, s') ->
  s' = s /\ forall i j, In (i, j) l -> is_trivial_cell s i j = false.
Proof.
  induction l as [|[i j] l IH]; cbn [foldM].
  - intros [= <-]. split; [reflexivity|]. intros i j [].
  - unfold trivial_step at 1. destruct (is_trivial_cell s i j) eqn:Ht.
    + destruct (place_number _ _ _ _) as [s1| |]; cbn [bind]; try discriminate.
      intros H. apply trivial_pass_changed in H. discriminate.
    + cbn [bind]. intros H. destruct (IH H) as [-> Hall]. split; [reflexivity|].
      intros i' j' [[= <- <-]|Hin]; auto.
Qed.

Lemma trivial_pass_idle (l : list (nat * nat)) (s : Solver) (c : bool) :
  (forall i j, In (i, j) l -> is_trivial_cell s i j = false) ->
  foldM trivial_step l (c, s) = Ok (c, s).
Proof.
  induction l as [|[i j] l IH]; intros H; cbn [foldM]; [reflexivity|].
  unfold trivial_step at 1. rewrite (H i j) by (left; reflexivity).
  cbn [bind]. apply IH. intros; apply H; right; assumption.
Qed.

Lemma trivial_loop_total (fuel : nat) :
  forall s, wf s -> count_empty (sudoku s) < fuel ->
  exists s', trivial_loop fuel s = Ok s' /\ wf s' /\
             count_empty (sudoku s') <= count_empty (sudoku s).
Proof.
  induction fuel as [|fuel IH]; intros s Hwf Hlt; [lia|].
  cbn [trivial_loop]. unfold trivial_pass.
  destruct (@trivial_pass_progress cells (fun i j H => proj1 (In_cells i j) H)
              false s Hwf) as (c' & s1 & Hf & Hwf1 & Hle & Hch).
  rewrite Hf. cbn [bind]. destruct c'.
  - destruct Hch as [Hch|Hch]; [reflexivity|discriminate|].
    destruct (IH s1 Hwf1 ltac:(lia)) as (s' & Hl & Hwf' & Hle').
    exists s'. splits; auto; lia.
  - exists s1. splits; auto.
Qed.

Lemma trivial_loop_mono (fuel fuel' : nat) (s s' : Solver) :
  trivial_loop fuel s = Ok s' -> fuel <= fuel' -> trivial_loop fuel' s = Ok s'.
Proof.
  revert fuel' s; induction fuel as [|fuel IH]; intros fuel' s; [discriminate|].
  intros H Hle. destruct fuel' as [|fuel']; [lia|].
  cbn [trivial_loop] in *. destruct (trivial_pass s) as [[c s1]| |]; cbn [bind] in *;
    try discriminate.
  destruct c; auto. apply IH; [assumption|lia].
Qed.

Lemma trivial_loop_stable (fuel : nat) (s s' : Solver) :
  trivial_loop fuel s = Ok s' -> trivial_pass s' = Ok (false, s').
Proof.
  revert s; induction fuel as [|fuel IH]; intros s; [discriminate|].
  cbn [trivial_loop]. destruct (trivial_pass s) as [[c s1]| |] eqn:Hp; cbn [bind];
    try discriminate.
  destruct c; [apply IH|].
  intros [= <-]. destruct (@trivial_pass_unchanged cells s s1 Hp) as [-> _]. exact Hp.
Qed.

(** ** The state invariants *)

Lemma peer_sym (i j r c : nat) : peer i j r c -> peer r c i j.
Proof. unfold peer. lia. Qed.

Lemma peer_refl (i j : nat) : peer i j i j.
Proof. unfold peer. lia. Qed.

Lemma get_cell_place (g : Grid) (i j r c : nat) (v : Z) :
  wf_grid g -> i < 9 -> j < 9 -> r < 9 -> c < 9 ->
  get_cell (set_cell g i j v) r c =
  if (r =? i) && (c =? j) then v else get_cell g r c.
Proof.
  intros [Hl Hr] Hi Hj Hr9 Hc9. rewrite get_cell_set_cell, Hl, Hr by assumption.
  replace (r <? 9) with true by (symmetry; b2p; lia).
  replace (c <? 9) with true by (symmetry; b2p; lia).
  now rewrite !andb_true_r.
Qed.

(** What [place_number] does with a digit, in one statement. *)
Lemma place_number_spec (s : Solver) (i j : nat) (number : Z) :
  wf s -> i < 9 -> j < 9 -> (1 <= number <= 9)%Z ->
  exists s', place_number s i j number = Ok s' /\ wf s' /\
    (forall r c, r < 9 -> c < 9 ->
       get_cell (sudoku s') r c =
       if (r =? i) && (c =? j) then number else get_cell (sudoku s) r c) /\
    (forall r c k,
       get_bit (bitmap s') r c k =
       if cleared i j (Z.to_nat (number - 1)) r c k then false
       else get_bit (bitmap s) r c k).
Proof.
  intros Hwf Hi Hj Hn. eexists. split; [apply place_number_digit; assumption|].
  split; [|split].
  - eapply wf_place_number; [eassumption|]. apply place_number_digit; assumption.
  - intros r c Hr Hc. simpl. apply get_cell_place; auto. apply Hwf.
  - intros r c k. simpl. apply get_bit_eliminate.
Qed.

Lemma place_keeps_closed (s s' : Solver) (i j : nat) (number : Z) :
  wf s -> i < 9 -> j < 9 -> (1 <= number <= 9)%Z ->
  place_number s i j number = Ok s' ->
  filled_closed s -> filled_closed s'.
Proof.
  intros Hwf Hi Hj Hn Hp Hcl.
  destruct (place_number_spec Hwf Hi Hj Hn) as (s1 & Hp1 & _ & Hg & Hb).
  rewrite Hp in Hp1. injection Hp1 as <-.
  intros r c Hr Hc Hnz k. rewrite Hb.
  destruct (cleared _ _ _ _ _ _) eqn:Hcd; [reflexivity|].
  rewrite Hg in Hnz by assumption.
  destruct ((r =? i) && (c =? j)) eqn:Hrc.
  - unfold cleared in Hcd. rewrite Hrc in Hcd. discriminate.
  - now apply Hcl.
Qed.

Lemma place_keeps_excluded (s s' : Solver) (i j : nat) (number : Z) :
  wf s -> i < 9 -> j < 9 -> (1 <= number <= 9)%Z ->
  place_number s i j number = Ok s' ->
  excluded s -> excluded s'.
Proof.
  intros Hwf Hi Hj Hn Hp Hex.
  destruct (place_number_spec Hwf Hi Hj Hn) as (s1 & Hp1 & _ & Hg & Hb).
  rewrite Hp in Hp1. injection Hp1 as <-.
  intros r c r' c' Hr Hc Hr' Hc' Hpeer Hd. rewrite Hb.
  destruct (cleared _ _ _ _ _ _) eqn:Hcd; [reflexivity|].
  rewrite Hg in Hd, Hcd |- * by assumption.
  destruct ((r =? i) && (c =? j)) eqn:Hrc.
  - b2p. destruct Hrc as [-> ->].
    assert (cleared i j (Z.to_nat (number - 1)) r' c' (Z.to_nat (number - 1)) = true)
      by (apply cleared_true; auto).
    congruence.
  - now apply Hex.
Qed.

Lemma place_keeps_unique (s s' : Solver) (i j : nat) (number : Z) :
  wf s -> i < 9 -> j < 9 -> (1 <= number <= 9)%Z ->
  place_number s i j number = Ok s' ->
  get_bit (bitmap s) i j (Z.to_nat (number - 1)) = true ->
  excluded s -> unique_grid (sudoku s) -> unique_grid (sudoku s').
Proof.
  intros Hwf Hi Hj Hn Hp Hbit Hex Hun.
  destruct (place_number_spec Hwf Hi Hj Hn) as (s1 & Hp1 & _ & Hg & _).
  rewrite Hp in Hp1. injection Hp1 as <-.
  assert (Hfresh : forall r c, r < 9 -> c < 9 -> peer i j r c ->
                     get_cell (sudoku s) r c <> number).
  { intros r c Hr Hc Hpeer Heq.
    specialize (Hex r c i j Hr Hc Hi Hj (peer_sym Hpeer)).
    rewrite Heq in Hex. specialize (Hex Hn). congruence. }
  intros r c r' c' Hr Hc Hr' Hc' Hne Hpeer Hnz.
  rewrite !Hg in * by assumption.
  destruct ((r =? i) && (c =? j)) eqn:Hrc, ((r' =? i) && (c' =? j)) eqn:Hrc'; b2p.
  - destruct Hrc as [-> ->], Hrc' as [-> ->]. congruence.
  - destruct Hrc as [-> ->]. now apply Hfresh.
  - destruct Hrc' as [-> ->]. intros Heq. symmetry in Heq. revert Heq.
    apply Hfresh; auto. now apply peer_sym.
  - now apply Hun.
Qed.

(** ** What propagation does: a sequence of forced placements *)

Lemma forced_steps_trans (s1 s2 s3 : Solver) :
  forced_steps s1 s2 -> forced_steps s2 s3 -> forced_steps s1 s3.
Proof.
  induction 1 as [|s i j s1 s' Hi Hj Ht Hp Hs IH]; intros Hrest; [assumption|].
  eapply fs_place; [exact Hi|exact Hj|exact Ht|exact Hp|exact (IH Hrest)].
Qed.

Lemma trivial_pass_steps (l : list (nat * nat)) :
  (forall i j, In (i, j) l -> i < 9 /\ j < 9) ->
  forall c s c' s', foldM trivial_step l (c, s) = Ok (c', s') -> forced_steps s s'.
Proof.
  induction l as [|[i j] l IH]; intros Hl c s c' s'; cbn [foldM].
  - intros [= _ <-]. constructor.
  - assert (Hij : i < 9 /\ j < 9) by (apply Hl; left; reflexivity).
    assert (Hl' : forall i j, In (i, j) l -> i < 9 /\ j < 9)
      by (intros; apply Hl; right; assumption).
    unfold trivial_step at 1. destruct (is_trivial_cell s i j) eqn:Ht.
    + fold (forced_number s i j).
      destruct (place_number s i j (forced_number s i j)) as [s1| |] eqn:Hp;
        cbn [bind]; try discriminate.
      intros H. eapply fs_place; try eassumption; try apply Hij.
      eapply IH; eassumption.
    + cbn [bind]. apply IH; assumption.
Qed.

Lemma trivial_loop_steps (fuel : nat) (s s' : Solver) :
  trivial_loop fuel s = Ok s' -> forced_steps s s'.
Proof.
  revert s; induction fuel as [|fuel IH]; intros s; [discriminate|].
  cbn [trivial_loop]. destruct (trivial_pass s) as [[c s1]| |] eqn:Hp; cbn [bind];
    try discriminate.
  assert (Hs : forced_steps s s1).
  { eapply trivial_pass_steps; [|exact Hp]. intros i j. apply In_cells. }
  destruct c.
  - intros H. eapply forced_steps_trans; [exact Hs|]. now apply IH.
  - now intros [= <-].
Qed.

Lemma same_fields_refl (s : Solver) : same_fields s s.
Proof. unfold same_fields. tauto. Qed.

Lemma same_fields_trans (s1 s2 s3 : Solver) :
  same_fields s1 s2 -> same_fields s2 s3 -> same_fields s1 s3.
Proof. unfold same_fields. intuition congruence. Qed.

Lemma place_number_fields (s s' : Solver) (i j : nat) (number : Z) :
  place_number s i j number = Ok s' -> same_fields s s'.
Proof.
  unfold place_number. destruct (py_index 9 (number - 1)); cbn [bind]; try discriminate.
  intros [= <-]. unfold same_fields. simpl. tauto.
Qed.

Lemma forced_steps_fields (s s' : Solver) : forced_steps s s' -> same_fields s s'.
Proof.
  induction 1 as [|s i j s1 s' Hi Hj Ht Hp Hs IH]; [apply same_fields_refl|].
  eapply same_fields_trans; [eapply place_number_fields; eassumption|assumption].
Qed.

Lemma forced_steps_wf (s s' : Solver) : forced_steps s s' -> wf s -> wf s'.
Proof.
  induction 1 as [|s i j s1 s' Hi Hj Ht Hp Hs IH]; auto. intros Hwf. apply IH.
  eapply wf_place_number; eassumption.
Qed.

Lemma forced_steps_closed (s s' : Solver) :
  forced_steps s s' -> wf s -> filled_closed s -> filled_closed s'.
Proof.
  induction 1 as [|s i j s1 s' Hi Hj Ht Hp Hs IH]; auto. intros Hwf Hcl.
  destruct (forced_number_spec Hwf Hi Hj Ht) as (_ & Hn & _).
  apply IH.
  - eapply wf_place_number; eassumption.
  - exact (place_keeps_closed Hwf Hi Hj Hn Hp Hcl).
Qed.

Lemma forced_steps_excluded (s s' : Solver) :
  forced_steps s s' -> wf s -> excluded s -> excluded s'.
Proof.
  induction 1 as [|s i j s1 s' Hi Hj Ht Hp Hs IH]; auto. intros Hwf Hex.
  destruct (forced_number_spec Hwf Hi Hj Ht) as (_ & Hn & _).
  apply IH.
  - eapply wf_place_number; eassumption.
  - exact (place_keeps_excluded Hwf Hi Hj Hn Hp Hex).
Qed.

Lemma forced_steps_unique (s s' : Solver) :
  forced_steps s s' -> wf s -> excluded s ->
  unique_grid (sudoku s) -> unique_grid (sudoku s').
Proof.
  induction 1 as [|s i j s1 s' Hi Hj Ht Hp Hs IH]; auto. intros Hwf Hex Hun.
  destruct (forced_number_spec Hwf Hi Hj Ht) as (_ & Hn & Hb).
  apply IH.
  - eapply wf_place_number; eassumption.
  - exact (place_keeps_excluded Hwf Hi Hj Hn Hp Hex).
  - exact (place_keeps_unique Hwf Hi Hj Hn Hp Hb Hex Hun).
Qed.

Lemma forced_steps_count (s s' : Solver) :
  forced_steps s s' -> wf s ->
  count_empty (sudoku s') <= count_empty (sudoku s).
Proof.
  induction 1 as [|s i j s1 s' Hi Hj Ht Hp Hs IH]; auto. intros Hwf.
  destruct (forced_number_spec Hwf Hi Hj Ht) as (Hz & Hn & _).
  destruct (place_fills Hwf Hi Hj Hn Hz) as (s2 & Hp2 & Hwf2 & Hc).
  rewrite Hp in Hp2. injection Hp2 as <-.
  specialize (IH Hwf2). lia.
Qed.

(** ** [sorted] is a stable sort *)

Section Sorted.
Variable A : Type.
Variable key : A -> Z.

Lemma insert_by_perm (x : A) (l : list A) : Permutation (insert_by key x l) (x :: l).
Proof.
  induction l as [|y t IH]; simpl; [reflexivity|].
  destruct (key x <=? key y)%Z; [reflexivity|].
  rewrite IH. apply perm_swap.
Qed.

Lemma sorted_perm (l : list A) : Permutation (sorted key l) l.
Proof.
  induction l as [|x t IH]; simpl; [reflexivity|].
  rewrite insert_by_perm. now constructor.
Qed.

Lemma In_sorted (x : A) (l : list A) : In x (sorted key l) <-> In x l.
Proof.
  split; apply Permutation_in; [|symmetry]; apply sorted_perm.
Qed.

Lemma insert_by_sorted (x : A) (l : list A) :
  StronglySorted (key_le key) l -> StronglySorted (key_le key) (insert_by key x l).
Proof.
  induction 1 as [|y t Hs IH Hall]; simpl.
  - constructor; constructor.
  - destruct (key x <=? key y)%Z eqn:Hxy; b2p.
    + constructor; [constructor; assumption|].
      constructor; [exact Hxy|].
      eapply Forall_impl; [|exact Hall]. unfold key_le. intros; lia.
    + constructor; [assumption|].
      apply (Permutation_Forall (Permutation_sym (insert_by_perm x t))).
      constructor; [unfold key_le; lia|assumption].
Qed.

Lemma sorted_sorted (l : list A) : StronglySorted (key_le key) (sorted key l).
Proof.
  induction l as [|x t IH]; simpl; [constructor|]. now apply insert_by_sorted.
Qed.

(** Stability: elements with one key keep their order. *)
Lemma insert_by_filter (p : A -> bool) (x : A) (l : list A) :
  (forall y z, p y = true -> p z = true -> key y = key z) ->
  filter p (insert_by key x l) = filter p (x :: l).
Proof.
  intros Hp. induction l as [|y t IH]; [reflexivity|].
  cbn [insert_by]. destruct (key x <=? key y)%Z eqn:Hxy; [reflexivity|].
  cbn [filter] in *. rewrite IH.
  destruct (p x) eqn:Hx, (p y) eqn:Hy; try reflexivity.
  b2p. rewrite (Hp x y Hx Hy) in Hxy. lia.
Qed.

Lemma sorted_stable (p : A -> bool) (l : list A) :
  (forall y z, p y = true -> p z = true -> key y = key z) ->
  filter p (sorted key l) = filter p l.
Proof.
  intros Hp. induction l as [|x t IH]; [reflexivity|].
  cbn [sorted]. rewrite insert_by_filter by assumption.
  cbn [filter]. now rewrite IH.
Qed.

Lemma sorted_constant_key (l : list A) :
  (forall y z, In y l -> In z l -> key y = key z) -> sorted key l = l.
Proof.
  induction l as [|x t IH]; intros H; [reflexivity|].
  cbn [sorted]. rewrite IH by (intros; apply H; right; assumption).
  destruct t as [|y t]; [reflexivity|]. cbn [insert_by].
  rewrite (H x y) by (simpl; auto). now rewrite Z.leb_refl.
Qed.
End Sorted.

(** ** The cell heuristic stays on the board *)

Lemma argmax_from_bound (l : list float) (idx best_idx : nat) (best : float) :
  best_idx < idx -> argmax_from l idx best_idx best < idx + length l.
Proof.
  revert idx best_idx best; induction l as [|x t IH]; intros idx bi best Hlt; simpl.
  - lia.
  - destruct (best <? x)%float.
    + specialize (IH (S idx) idx x ltac:(lia)). lia.
    + specialize (IH (S idx) bi best ltac:(lia)). lia.
Qed.

Lemma argmax_float_bound (l : list float) :
  l <> [] -> argmax_float l < length l.
Proof.
  destruct l as [|x t]; [congruence|]. intros _. simpl.
  pose proof (@argmax_from_bound t 1 0 x ltac:(lia)). lia.
Qed.

Lemma length_cells : length cells = 81.
Proof. reflexivity. Qed.

Lemma length_masked_impact (s : Solver) : length (masked_impact s) = 81.
Proof.
  unfold masked_impact, impact_matrix, empty_cells_mask.
  rewrite length_map, length_combine, !length_map, length_cells. reflexivity.
Qed.

Lemma least_options_cell_range (s : Solver) (i j : nat) :
  advanced_least_options_cell s = Ok (i, j) -> i < 9 /\ j < 9.
Proof.
  unfold advanced_least_options_cell. destruct (negb _); [discriminate|].
  assert (H : argmax_float (masked_impact s) < 81).
  { rewrite <- (length_masked_impact s). apply argmax_float_bound.
    intros E. pose proof (length_masked_impact s) as L. rewrite E in L. discriminate. }
  revert H. generalize (argmax_float (masked_impact s)) as k. intros k H E.
  assert (Hi : i = k / 9) by congruence.
  assert (Hj : j = k mod 9) by congruence.
  lia.
Qed.

Lemma least_options_cell_cases (s : Solver) :
  (exists i j, advanced_least_options_cell s = Ok (i, j)) \/
  advanced_least_options_cell s = Raise ValueError.
Proof.
  unfold advanced_least_options_cell. destruct (negb _); eauto.
Qed.

(** ** The search *)

Lemma wf_arrays (s s' : Solver) :
  sudoku s' = sudoku s -> bitmap s' = bitmap s -> wf s -> wf s'.
Proof. unfold wf. intros -> ->. auto. Qed.

Lemma filled_closed_arrays (s s' : Solver) :
  sudoku s' = sudoku s -> bitmap s' = bitmap s -> filled_closed s -> filled_closed s'.
Proof. unfold filled_closed. intros -> ->. auto. Qed.

Lemma excluded_arrays (s s' : Solver) :
  sudoku s' = sudoku s -> bitmap s' = bitmap s -> excluded s -> excluded s'.
Proof. unfold excluded. intros -> ->. auto. Qed.

Lemma candidate_cell_empty (s : Solver) (i j k : nat) :
  filled_closed s -> i < 9 -> j < 9 -> get_bit (bitmap s) i j k = true ->
  get_cell (sudoku s) i j = 0%Z.
Proof.
  intros Hcl Hi Hj Hb. destruct (Z.eq_dec (get_cell (sudoku s) i j) 0) as [|Hnz]; auto.
  rewrite (Hcl i j Hi Hj Hnz k) in Hb. discriminate.
Qed.

Lemma smart_numbers_digits (s : Solver) (i j : nat) (number : Z) :
  In number (smart_number_ordering s i j) -> (1 <= number <= 9)%Z.
Proof.
  unfold smart_number_ordering. rewrite In_sorted, In_possible_numbers. tauto.
Qed.

Lemma trivial_moves_total (s : Solver) :
  wf s ->
  exists s', trivial_moves s = Ok s' /\ forced_steps s s'.
Proof.
  intros Hwf. unfold trivial_moves.
  destruct (@trivial_loop_total (S (count_empty (sudoku s))) s Hwf ltac:(lia))
    as (s' & Hl & _).
  exists s'. split; [assumption|]. eapply trivial_loop_steps; eassumption.
Qed.

Section SearchInvariant.
Variable P : Solver -> Prop.
Hypothesis P_enter : forall s, P s -> P (enter s).
Hypothesis P_guess : forall s i j number s',
  P s -> wf s -> i < 9 -> j < 9 -> (1 <= number <= 9)%Z ->
  can_place_number s i j number = Ok true ->
  place_number s i j number = Ok s' -> P s'.
Hypothesis P_forced : forall s i j s',
  P s -> wf s -> i < 9 -> j < 9 -> is_trivial_cell s i j = true ->
  place_number s i j (forced_number s i j) = Ok s' -> P s'.
Hypothesis P_restore : forall s s3,
  P s -> P s3 ->
  P (with_arrays (with_counters s3 (attempts s3) (backtrack_count s3 + 1))
                 (sudoku s) (bitmap s)).

Lemma P_forced_steps (s s' : Solver) : forced_steps s s' -> wf s -> P s -> P s'.
Proof.
  induction 1 as [|s i j s1 s' Hi Hj Ht Hp Hs IH]; auto. intros Hwf HP.
  apply IH; [eapply wf_place_number; eassumption|].
  exact (P_forced HP Hwf Hi Hj Ht Hp).
Qed.

Lemma try_numbers_total (fuel : nat) (i j : nat) :
  (forall s, P s -> wf s -> filled_closed s -> count_empty (sudoku s) < fuel ->
     exists r s', advanced_backtrack fuel s = Ok (r, s') /\ search_post P true s r s') ->
  i < 9 -> j < 9 ->
  forall numbers s,
    (forall number, In number numbers -> (1 <= number <= 9)%Z) ->
    P s -> wf s -> filled_closed s -> count_empty (sudoku s) <= fuel ->
    exists r s', try_numbers (advanced_backtrack fuel) i j numbers s = Ok (r, s') /\
                 search_post P false s r s'.
Proof.
  intros Hrec Hi Hj. induction numbers as [|number rest IH];
    intros s Hdig HP Hwf Hcl Hcnt; cbn [try_numbers].
  - exists None, s. split; [reflexivity|]. unfold search_post. splits; auto. lia.
  - assert (Hn : (1 <= number <= 9)%Z) by (apply Hdig; left; reflexivity).
    assert (Hdig' : forall n, In n rest -> (1 <= n <= 9)%Z)
      by (intros; apply Hdig; right; assumption).
    rewrite (can_place_digit s i j Hn). cbn [bind].
    destruct (get_bit (bitmap s) i j (Z.to_nat (number - 1))) eqn:Hbit;
      [|apply IH; assumption].
    pose proof (@candidate_cell_empty s i j _ Hcl Hi Hj Hbit) as Hz.
    destruct (place_fills Hwf Hi Hj Hn Hz) as (s1 & Hp & Hwf1 & Hc1).
    assert (HP1 : P s1).
    { apply (P_guess HP Hwf Hi Hj Hn); [|exact Hp].
      rewrite (can_place_digit s i j Hn), Hbit. reflexivity. }
    pose proof (place_keeps_closed Hwf Hi Hj Hn Hp Hcl) as Hcl1.
    pose proof (place_number_fields _ _ _ _ Hp) as Hf1.
    destruct (trivial_moves_total Hwf1) as (s2 & Ht & Hst).
    pose proof (forced_steps_wf Hst Hwf1) as Hwf2.
    pose proof (forced_steps_closed Hst Hwf1 Hcl1) as Hcl2.
    pose proof (forced_steps_count Hst Hwf1) as Hc2.
    pose proof (forced_steps_fields Hst) as Hf2.
    pose proof (P_forced_steps Hst Hwf1 HP1) as HP2.
    rewrite Hp. cbn [bind]. rewrite Ht. cbn [bind].
    destruct (Hrec s2 HP2 Hwf2 Hcl2 ltac:(lia)) as (r & s3 & Hr & Hpost).
    rewrite Hr. cbn [bind].
    destruct Hpost as (HP3 & Hwf3 & Hcl3 & Ha3 & He3 & Hcalls3 & Hres).
    unfold same_fields in Hf1, Hf2.
    destruct r as [g|].
    + exists (Some g), s3. split; [reflexivity|]. unfold search_post.
      splits; auto; try tauto; try intuition congruence.
    + set (s4 := with_arrays _ _ _).
      destruct (IH s4 Hdig') as (r & s' & Hr' & Hpost').
      * apply P_restore; assumption.
      * apply (wf_arrays (s:=s)); auto.
      * apply (filled_closed_arrays (s:=s)); auto.
      * exact Hcnt.
      * exists r, s'. split; [exact Hr'|].
        destruct Hpost' as (HP' & Hwf' & Hcl' & Ha' & He' & Hcalls' & Hres').
        simpl in Ha', He', Hcalls', Hres'.
        destruct Hf1 as (_ & _ & Ha1 & _ & He1 & Hx), Hf2 as (_ & _ & Ha2 & _ & He2 & Hy).
        unfold search_post. splits; auto; try congruence; try lia.
Qed.

Lemma advanced_backtrack_total (fuel : nat) :
  forall s, P s -> wf s -> filled_closed s -> count_empty (sudoku s) < fuel ->
  exists r s', advanced_backtrack fuel s = Ok (r, s') /\ search_post P true s r s'.
Proof.
  induction fuel as [|fuel IH]; intros s HP Hwf Hcl Hcnt; [lia|].
  cbn [advanced_backtrack].
  assert (HPe : P (enter s)) by (apply P_enter; assumption).
  assert (Hwfe : wf (enter s)) by (apply (wf_arrays (s:=s)); auto).
  assert (Hcle : filled_closed (enter s)) by (apply (filled_closed_arrays (s:=s)); auto).
  destruct (is_solved (enter s)) eqn:Hsol.
  - exists (Some (sudoku (enter s))), (enter s). split; [reflexivity|].
    unfold search_post. splits; auto; simpl; try lia.
    unfold is_solved in Hsol. simpl in Hsol. b2p. exact Hsol.
  - destruct (least_options_cell_cases (enter s)) as [(i & j & Hc)|Hc]; rewrite Hc.
    + destruct (least_options_cell_range _ Hc) as [Hi Hj].
      destruct (@try_numbers_total fuel i j IH Hi Hj
                  (smart_number_ordering (enter s) i j) (enter s)) as (r & s' & Hr & Hpost);
        auto.
      * intros n. apply smart_numbers_digits.
      * simpl. lia.
      * exists r, s'. split; [exact Hr|].
        destruct Hpost as (HP' & Hwf' & Hcl' & Ha' & He' & Hcalls' & Hres').
        unfold search_post. splits; auto. simpl in Hcalls'. lia.
    + exists None, (enter s). split; [reflexivity|].
      unfold search_post. splits; auto; simpl; lia.
Qed.
End SearchInvariant.

(** More fuel does not change a result. *)
Lemma try_numbers_mono (rec rec' : Solver -> res search_result) (i j : nat) :
  (forall s x, rec s = Ok x -> rec' s = Ok x) ->
  forall numbers s x,
    try_numbers rec i j numbers s = Ok x -> try_numbers rec' i j numbers s = Ok x.
Proof.
  intros Hrec. induction numbers as [|number rest IH]; intros s x; cbn [try_numbers]; auto.
  destruct (can_place_number s i j number) as [[|]| |]; cbn [bind]; try discriminate; auto.
  destruct (place_number s i j number) as [s1| |]; cbn [bind]; try discriminate.
  destruct (trivial_moves s1) as [s2| |]; cbn [bind]; try discriminate.
  destruct (rec s2) as [[r s3]| |] eqn:Hr; cbn [bind]; try discriminate.
  rewrite (Hrec _ _ Hr). cbn [bind]. destruct r; auto.
Qed.

Lemma advanced_backtrack_mono (fuel fuel' : nat) (s : Solver) (x : search_result) :
  advanced_backtrack fuel s = Ok x -> fuel <= fuel' -> advanced_backtrack fuel' s = Ok x.
Proof.
  revert fuel' s x; induction fuel as [|fuel IH]; intros fuel' s x; [discriminate|].
  intros H Hle. destruct fuel' as [|fuel']; [lia|].
  cbn [advanced_backtrack] in *.
  destruct (is_solved (enter s)); auto.
  destruct (advanced_least_options_cell (enter s)) as [[i j]| |]; auto.
  eapply try_numbers_mono; [|exact H]. intros s1 x1 H1. apply IH; [exact H1|lia].
Qed.

(** ** The constructor *)

Lemma read_cell_wf (input : Grid) (i j : nat) :
  wf_grid input -> i < 9 -> j < 9 -> read_cell input i j = Ok (get_cell input i j).
Proof.
  intros [Hl Hr] Hi Hj. unfold read_cell, get_cell.
  assert (H1 : i < length input) by lia.
  assert (H2 : j < length (nth i input [])) by (rewrite Hr; lia).
  rewrite (nth_error_nth' input [] H1), (nth_error_nth' (nth i input []) 0%Z H2).
  reflexivity.
Qed.

Lemma get_cell_zeros99 (r c : nat) : r < 9 -> c < 9 -> get_cell zeros99 r c = 0%Z.
Proof.
  intros Hr Hc. unfold get_cell, zeros99.
  do 9 (destruct r as [|r]; [do 9 (destruct c as [|c]; [reflexivity|]); lia|]). lia.
Qed.

Lemma sub_grid_unique (input : Grid) (s : Solver) :
  unique_grid input -> sub_grid input s -> unique_grid (sudoku s).
Proof.
  intros Hun Hsub r c r' c' Hr Hc Hr' Hc' Hne Hpeer Hnz.
  destruct (Hsub r c Hr Hc) as [E|E]; [congruence|].
  destruct (Hsub r' c' Hr' Hc') as [E'|E']; [congruence|].
  rewrite E, E'. apply Hun; auto. congruence.
Qed.

Lemma built_init_state (input : Grid) (cb : bool) : built input (init_state cb).
Proof.
  split.
  - split; [apply wf_zeros99|apply wf_ones999].
  - intros r c Hr Hc Hnz. simpl in Hnz. now rewrite get_cell_zeros99 in Hnz.
  - intros r c r' c' Hr Hc Hr' Hc' _. simpl. rewrite get_cell_zeros99 by assumption. lia.
  - intros r c Hr Hc. left. simpl. now apply get_cell_zeros99.
Qed.

Lemma built_init_cell (input : Grid) (s : Solver) (i j : nat) :
  wf_grid input -> digits_grid input -> i < 9 -> j < 9 -> built input s ->
  exists s', init_cell input s (i, j) = Ok s' /\ built input s' /\ same_fields s s' /\
    get_cell (sudoku s') i j = get_cell input i j /\
    (forall r c, r < 9 -> c < 9 -> get_cell (sudoku s) r c = get_cell input r c ->
                 get_cell (sudoku s') r c = get_cell input r c).
Proof.
  intros Hin Hdig Hi Hj [Hwf Hcl Hex Hsub]. unfold init_cell.
  rewrite (read_cell_wf Hin Hi Hj). cbn [bind].
  destruct (get_cell input i j =? 0)%Z eqn:Hz; cbn [negb]; b2p.
  - exists s. splits; auto using same_fields_refl.
    + split; assumption.
    + destruct (Hsub i j Hi Hj); congruence.
  - assert (Hn : (1 <= get_cell input i j <= 9)%Z) by (specialize (Hdig i j Hi Hj); lia).
    destruct (place_number_spec Hwf Hi Hj Hn) as (s' & Hp & Hwf' & Hg & Hb).
    exists s'. splits; auto.
    + split; auto.
      * exact (place_keeps_closed Hwf Hi Hj Hn Hp Hcl).
      * exact (place_keeps_excluded Hwf Hi Hj Hn Hp Hex).
      * intros r c Hr Hc. rewrite Hg by assumption.
        destruct ((r =? i) && (c =? j)) eqn:E; [|apply Hsub; assumption].
        b2p. destruct E as [-> ->]. now right.
    + eapply place_number_fields; eassumption.
    + rewrite Hg, !Nat.eqb_refl by assumption. reflexivity.
    + intros r c Hr Hc E. rewrite Hg by assumption.
      destruct ((r =? i) && (c =? j)) eqn:E'; [|assumption].
      b2p. destruct E' as [-> ->]. reflexivity.
Qed.

Lemma built_init_cells (input : Grid) (l : list (nat * nat)) :
  wf_grid input -> digits_grid input ->
  (forall i j, In (i, j) l -> i < 9 /\ j < 9) ->
  forall s, built input s ->
  exists s', foldM (init_cell input) l s = Ok s' /\ built input s' /\ same_fields s s' /\
    (forall r c, r < 9 -> c < 9 ->
       In (r, c) l \/ get_cell (sudoku s) r c = get_cell input r c ->
       get_cell (sudoku s') r c = get_cell input r c).
Proof.
  intros Hin Hdig. induction l as [|[i j] l IH]; intros Hl s Hb; cbn [foldM].
  - exists s. splits; auto using same_fields_refl. intros r c _ _ [[]|E]. exact E.
  - assert (Hij : i < 9 /\ j < 9) by (apply Hl; left; reflexivity).
    destruct (built_init_cell Hin Hdig (proj1 Hij) (proj2 Hij) Hb)
      as (s1 & H1 & Hb1 & Hf1 & Hg1 & Hk1).
    rewrite H1. cbn [bind].
    destruct (IH (fun i j H => Hl i j (or_intror H)) s1 Hb1) as (s' & H' & Hb' & Hf' & Hg').
    exists s'. splits; auto.
    + eapply same_fields_trans; eassumption.
    + intros r c Hr Hc [[[= <- <-]|Hin']|E]; apply Hg'; auto.
Qed.

Lemma grid_ext (g g' : Grid) :
  wf_grid g -> wf_grid g' ->
  (forall r c, r < 9 -> c < 9 -> get_cell g r c = get_cell g' r c) -> g = g'.
Proof.
  intros [Hl Hr] [Hl' Hr'] H.
  apply (nth_ext g g' [] []); [congruence|]. intros r Hr9. rewrite Hl in Hr9.
  apply (nth_ext _ _ 0%Z 0%Z); [rewrite Hr, Hr'; auto|].
  intros c Hc9. rewrite Hr in Hc9 by assumption. now apply H.
Qed.

(** On a puzzle the constructor succeeds, and its grid is the puzzle. *)
Lemma SudokuSolver_spec (input : Grid) (cb : bool) :
  wf_grid input -> digits_grid input ->
  exists s, SudokuSolver input cb = Ok s /\ built input s /\ sudoku s = input /\
            same_fields (init_state cb) s.
Proof.
  intros Hin Hdig. unfold SudokuSolver.
  destruct (@built_init_cells input cells Hin Hdig (fun i j H => proj1 (In_cells i j) H)
              (init_state cb) (built_init_state input cb)) as (s & Hs & Hb & Hf & Hg).
  exists s. splits; auto.
  apply grid_ext; [apply Hb|assumption|].
  intros r c Hr Hc. apply Hg; auto. left. apply In_cells. auto.
Qed.

(** ** Checking a concrete state *)

Lemma shape_grid_wf (g : Grid) : shape_grid g = true -> wf_grid g.
Proof.
  unfold shape_grid. rewrite andb_true_iff, forallb_forall, Nat.eqb_eq.
  intros [Hl Hr]. split; [assumption|]. intros i Hi.
  apply Nat.eqb_eq, Hr, nth_In. lia.
Qed.

Lemma shape_bitmap_wf (b : Bitmap) : shape_bitmap b = true -> wf_bitmap b.
Proof.
  unfold shape_bitmap. rewrite andb_true_iff, forallb_forall, Nat.eqb_eq.
  intros [Hl Hr].
  assert (Hrow : forall i, i < 9 -> length (nth i b []) = 9 /\
                   forall c, In c (nth i b []) -> length c = 9).
  { intros i Hi. specialize (Hr (nth i b []) ltac:(apply nth_In; lia)).
    rewrite andb_true_iff, forallb_forall, Nat.eqb_eq in Hr.
    destruct Hr as [H1 H2]. split; [assumption|].
    intros c Hc. now apply Nat.eqb_eq, H2. }
  split; [assumption|]. split.
  - intros i Hi. now apply Hrow.
  - intros i j Hi Hj. destruct (Hrow i Hi) as [H1 H2].
    apply H2. unfold get_cand. apply nth_In. lia.
Qed.

Lemma shape_wf (s : Solver) :
  shape_grid (sudoku s) && shape_bitmap (bitmap s) = true -> wf s.
Proof.
  rewrite andb_true_iff. intros [Hg Hb].
  split; [now apply shape_grid_wf|now apply shape_bitmap_wf].
Qed.

Lemma digit_set_check (l : list Z) : sorted (fun v => v) l = digits -> digit_set l.
Proof.
  intros H. unfold digit_set. rewrite <- H. symmetry. apply sorted_perm.
Qed.

(** * The claims *)

(** C9.  For a cell (row, col) and a digit d of its candidates,
    [place_number] returns a state in which [can_place_number] answers
    False for d at that cell, the cell has no candidate at all, and d is no
    candidate of any cell of the same row, column or 3x3 box. *)
Theorem place_number_removes_candidate (s : Solver) (row col : nat) (d : Z) :
  row < 9 -> col < 9 -> In d (possible_numbers s row col) ->
  exists s', place_number s row col d = Ok s' /\
    can_place_number s' row col d = Ok false /\
    possible_numbers s' row col = [] /\
    (forall r c, r < 9 -> c < 9 -> peer row col r c ->
       can_place_number s' r c d = Ok false /\ ~ In d (possible_numbers s' r c)).
Proof.
  intros Hrow Hcol Hin. apply In_possible_numbers in Hin. destruct Hin as [Hd _].
  eexists. split; [apply place_number_digit; assumption|].
  assert (Hpeer : forall r c, r < 9 -> c < 9 -> peer row col r c ->
            get_bit (eliminate (bitmap s) row col (Z.to_nat (d - 1))) r c
                    (Z.to_nat (d - 1)) = false).
  { intros r c Hr Hc Hp. rewrite get_bit_eliminate.
    replace (cleared _ _ _ _ _ _) with true; [reflexivity|].
    symmetry. apply cleared_true; auto. }
  split; [|split].
  - rewrite can_place_digit by assumption. simpl. f_equal.
    apply Hpeer; auto. apply peer_refl.
  - apply possible_numbers_nil. intros k. simpl. rewrite get_bit_eliminate.
    unfold cleared. now rewrite !Nat.eqb_refl.
  - intros r c Hr Hc Hp. split.
    + rewrite can_place_digit by assumption. simpl. f_equal. now apply Hpeer.
    + rewrite In_possible_numbers. simpl. rewrite Hpeer by assumption.
      intros [_ H]. discriminate.
Qed.

Lemma place_number_removes_candidate_witness :
  exists s', place_number (init_state false) 4 4 5 = Ok s' /\
    can_place_number s' 4 4 5 = Ok false /\
    possible_numbers s' 4 4 = [] /\
    (forall r c, r < 9 -> c < 9 -> peer 4 4 r c ->
       can_place_number s' r c 5 = Ok false /\ ~ In 5%Z (possible_numbers s' r c)).
Proof.
  apply (@place_number_removes_candidate (init_state false) 4 4 5%Z).
  - lia.
  - lia.
  - vm_compute. do 4 right. left. reflexivity.
Defined.

(** C7.  On every solver state [trivial_moves] terminates: a forced
    placement leaves strictly fewer empty cells, so the loop returns with
    any fuel above the number of empty cells, and in the state it returns
    no empty cell has exactly one candidate. *)
Theorem trivial_moves_terminates (s : Solver) :
  wf s ->
  (forall i j, i < 9 -> j < 9 -> is_trivial_cell s i j = true ->
     exists s1, place_number s i j (forced_number s i j) = Ok s1 /\
                count_empty (sudoku s1) < count_empty (sudoku s)) /\
  exists s', trivial_moves s = Ok s' /\
    (forall fuel, count_empty (sudoku s) < fuel -> trivial_loop fuel s = Ok s') /\
    (forall i j, i < 9 -> j < 9 -> is_trivial_cell s' i j = false).
Proof.
  intros Hwf. split.
  - intros i j Hi Hj Ht.
    destruct (forced_number_spec Hwf Hi Hj Ht) as (Hz & Hn & _).
    destruct (place_fills Hwf Hi Hj Hn Hz) as (s1 & Hp & _ & Hc).
    exists s1. split; [assumption|lia].
  - unfold trivial_moves.
    destruct (@trivial_loop_total (S (count_empty (sudoku s))) s Hwf ltac:(lia))
      as (s' & Hl & _).
    exists s'. split; [assumption|]. split.
    + intros fuel Hf.
      destruct (@trivial_loop_total fuel s Hwf Hf) as (s2 & Hl2 & _).
      destruct (Nat.le_ge_cases fuel (S (count_empty (sudoku s)))) as [Hle|Hle].
      * rewrite (trivial_loop_mono _ Hl2 Hle) in Hl. congruence.
      * apply (trivial_loop_mono _ Hl Hle).
    + intros i j Hi Hj. pose proof (trivial_loop_stable _ _ Hl) as Hst.
      destruct (@trivial_pass_unchanged cells s' s' Hst) as [_ Hall].
      apply Hall, In_cells. auto.
Qed.

Lemma trivial_moves_terminates_witness :
  is_trivial_cell example_state 7 8 = true /\
  (forall i j, i < 9 -> j < 9 -> is_trivial_cell example_state i j = true ->
     exists s1, place_number example_state i j (forced_number example_state i j) = Ok s1 /\
                count_empty (sudoku s1) < count_empty (sudoku example_state)) /\
  exists s', trivial_moves example_state = Ok s' /\
    (forall fuel, count_empty (sudoku example_state) < fuel ->
       trivial_loop fuel example_state = Ok s') /\
    (forall i j, i < 9 -> j < 9 -> is_trivial_cell s' i j = false).
Proof.
  split; [vm_compute; reflexivity|].
  apply (@trivial_moves_terminates example_state).
  apply shape_wf. vm_compute. reflexivity.
Defined.

(** C8.  Propagation is idempotent: on every solver state, running
    [trivial_moves] a second time returns the state the first run returned
    (the grid, the candidates and every other field). *)
Theorem trivial_moves_idempotent (s : Solver) :
  wf s ->
  exists s', trivial_moves s = Ok s' /\
             (s1 <- trivial_moves s ;; trivial_moves s1) = Ok s'.
Proof.
  intros Hwf. destruct (trivial_moves_total Hwf) as (s' & Ht & _).
  exists s'. split; [assumption|]. rewrite Ht. cbn [bind].
  unfold trivial_moves in *. cbn [trivial_loop].
  rewrite (trivial_loop_stable _ _ Ht). reflexivity.
Qed.

Lemma strongly_sorted_impl {A : Type} (R R' : A -> A -> Prop) (l : list A) :
  (forall a b, R a b -> R' a b) -> StronglySorted R l -> StronglySorted R' l.
Proof.
  intros HR. induction 1 as [|a l Hs IH Hall]; constructor; auto.
  eapply Forall_impl; [|exact Hall]. intros b. apply HR.
Qed.

(** ** Slices of the grid *)

Lemma In_slice {A : Type} (x : A) (a n : nat) (l : list A) (d0 : A) :
  In x (slice a n l) -> exists k, a <= k < a + n /\ k < length l /\ nth k l d0 = x.
Proof.
  unfold slice. intros H. apply (In_nth _ _ d0) in H. destruct H as (m & Hm & E).
  rewrite length_firstn, length_skipn in Hm. rewrite nth_firstn, nth_skipn in E.
  replace (m <? n) with true in E by (symmetry; b2p; lia).
  exists (a + m). split; [lia|]. split; [lia|exact E].
Qed.

Lemma In_row_of (g : Grid) (i : nat) (d : Z) :
  wf_grid g -> i < 9 -> In d (row_of g i) -> exists c, c < 9 /\ get_cell g i c = d.
Proof.
  intros [Hl Hr] Hi H. unfold row_of in H. apply (In_nth _ _ 0%Z) in H.
  destruct H as (c & Hc & E). rewrite Hr in Hc by assumption. exists c. auto.
Qed.

Lemma In_col_of (g : Grid) (j : nat) (d : Z) :
  wf_grid g -> In d (col_of g j) -> exists r, r < 9 /\ get_cell g r j = d.
Proof.
  intros [Hl Hr] H. unfold col_of in H. apply in_map_iff in H.
  destruct H as (row & E & Hin). apply (In_nth _ _ []) in Hin.
  destruct Hin as (r & Hr9 & E'). exists r. split; [lia|].
  unfold get_cell. now rewrite E'.
Qed.

Lemma In_box_of (g : Grid) (bi bj : nat) (d : Z) :
  wf_grid g -> In d (box_of g bi bj) ->
  exists r c, bi <= r < bi + 3 /\ bj <= c < bj + 3 /\ r < 9 /\ c < 9 /\ get_cell g r c = d.
Proof.
  intros [Hl Hr] H. unfold box_of in H. apply in_concat in H.
  destruct H as (seg & Hseg & Hd). apply in_map_iff in Hseg.
  destruct Hseg as (row & <- & Hrow).
  apply (@In_slice _ _ _ _ _ []) in Hrow. destruct Hrow as (r & Hr1 & Hr2 & <-).
  apply (@In_slice _ _ _ _ _ 0%Z) in Hd. destruct Hd as (c & Hc1 & Hc2 & E).
  rewrite Hr in Hc2 by lia. exists r, c. splits; auto; lia.
Qed.

Lemma count_zero {A : Type} (p : A -> bool) (l : list A) :
  (forall x, In x l -> p x = false) -> count p l = 0.
Proof.
  unfold count. induction l as [|x t IH]; intros H; simpl; [reflexivity|].
  rewrite (H x) by (left; reflexivity). apply IH. intros; apply H; right; assumption.
Qed.

Lemma score_popularity (s : Solver) (i j : nat) (number : Z) :
  number_frequency_score s i j number = (- popularity s i j number)%Z.
Proof. reflexivity. Qed.

(** In a state of the engine a candidate does not occur around its cell. *)
Lemma candidate_popularity (s : Solver) (i j : nat) (d : Z) :
  wf s -> excluded s -> i < 9 -> j < 9 ->
  In d (possible_numbers s i j) -> popularity s i j d = 0%Z.
Proof.
  intros [Hg Hb] Hex Hi Hj Hin. apply In_possible_numbers in Hin.
  destruct Hin as [Hd Hbit].
  assert (Hno : forall r c, r < 9 -> c < 9 -> peer r c i j ->
                  get_cell (sudoku s) r c <> d).
  { intros r c Hr Hc Hp E. specialize (Hex r c i j Hr Hc Hi Hj Hp).
    rewrite E in Hex. specialize (Hex Hd). congruence. }
  unfold popularity, count_eq. rewrite !count_zero; [reflexivity| | |].
  - intros x Hx. b2p. intros ->.
    apply In_box_of in Hx; [|exact Hg]. destruct Hx as (r & c & Hr & Hc & Hr9 & Hc9 & E).
    apply (Hno r c Hr9 Hc9); [|exact E]. unfold peer. lia.
  - intros x Hx. b2p. intros ->.
    apply In_col_of in Hx; [|exact Hg]. destruct Hx as (r & Hr9 & E).
    apply (Hno r j Hr9 Hj); [|exact E]. unfold peer. lia.
  - intros x Hx. b2p. intros ->.
    apply In_row_of in Hx; [|exact Hg|exact Hi]. destruct Hx as (c & Hc9 & E).
    apply (Hno i c Hi Hc9); [|exact E]. unfold peer. lia.
Qed.

(** On any state, reached or not, [smart_number_ordering] sorts the
    candidates by the key [number_frequency_score], the negated popularity:
    most occurrences in row, column and box first, candidates of equal
    popularity in ascending order.  In a state whose candidates are in step
    with its grid the key is constant and the list is that of
    [possible_numbers]. *)
Lemma smart_number_ordering_order (s : Solver) (i j : nat) :
  Permutation (smart_number_ordering s i j) (possible_numbers s i j) /\
  StronglySorted (more_popular s i j) (smart_number_ordering s i j) /\
  (forall p, filter (fun d => (popularity s i j d =? p)%Z) (smart_number_ordering s i j)
           = filter (fun d => (popularity s i j d =? p)%Z) (possible_numbers s i j)) /\
  (wf s /\ excluded s /\ i < 9 /\ j < 9 ->
   smart_number_ordering s i j = possible_numbers s i j).
Proof.
  unfold smart_number_ordering. split; [apply sorted_perm|]. split; [|split].
  - eapply strongly_sorted_impl; [|apply sorted_sorted].
    intros a b. unfold key_le, more_popular. rewrite !score_popularity. lia.
  - intros p. apply sorted_stable. intros y z Hy Hz. b2p.
    rewrite !score_popularity. lia.
  - intros (Hwf & Hex & Hi & Hj). apply sorted_constant_key.
    intros y z Hy Hz. rewrite !score_popularity.
    rewrite !(candidate_popularity _ Hwf Hex Hi Hj) by assumption. reflexivity.
Qed.

Lemma trivial_moves_idempotent_witness :
  exists s', trivial_moves example_state = Ok s' /\
             (s1 <- trivial_moves example_state ;; trivial_moves s1) = Ok s'.
Proof.
  apply (@trivial_moves_idempotent example_state).
  apply shape_wf. vm_compute. reflexivity.
Defined.

(** ** Solving the empty grid *)

Lemma empty_solver_built : SudokuSolver zeros99 false = Ok empty_solver.
Proof. vm_compute. reflexivity. Qed.

Lemma empty_solver_solved :
  solve_with_visualization empty_solver false = Ok (Some empty_solution, empty_solved).
Proof. vm_compute. reflexivity. Qed.

Lemma empty_solved_grid : sudoku empty_solved = empty_solution.
Proof. vm_compute. reflexivity. Qed.

Lemma empty_solved_counters :
  attempts empty_solved = 0%Z /\ calls empty_solved = 47%Z /\
  backtrack_count empty_solved = 3%Z.
Proof. vm_compute. repeat split. Qed.

Lemma empty_solver_search :
  advanced_backtrack 82 (with_counters (with_visualize empty_solver false) 0 0)
  = Ok (Some empty_solution, empty_solved).
Proof. vm_compute. reflexivity. Qed.

(** C5.  The non-streaming solve of the all-zeros grid returns a grid, not
    the not-solvable result, with the fuel of the model and with any
    larger fuel, and each row, each column and each 3x3 box of that grid
    holds every digit of 1..9 once. *)
Theorem solve_empty_grid :
  exists g s',
    (s <- SudokuSolver zeros99 false ;; solve_with_visualization s false) = Ok (Some g, s') /\
    (forall fuel, 82 <= fuel ->
       (s <- SudokuSolver zeros99 false ;; solve_fuel fuel s false) = Ok (Some g, s')) /\
    (forall k, k < 9 -> digit_set (row_of g k) /\ digit_set (col_of g k)) /\
    (forall bi bj, bi < 3 -> bj < 3 -> digit_set (box_of g (3 * bi) (3 * bj))).
Proof.
  exists empty_solution, empty_solved.
  rewrite empty_solver_built. cbn [bind].
  split; [exact empty_solver_solved|]. split; [|split].
  - intros fuel Hf. unfold solve_fuel. cbv beta iota zeta.
    apply advanced_backtrack_mono with (fuel := 82); [|exact Hf].
    exact empty_solver_search.
  - intros k Hk.
    do 9 (destruct k as [|k];
          [split; apply digit_set_check; vm_compute; reflexivity|]).
    lia.
  - intros bi bj Hi Hj.
    do 3 (destruct bi as [|bi];
          [do 3 (destruct bj as [|bj];
                 [apply digit_set_check; vm_compute; reflexivity|]); lia|]).
    lia.
Qed.

(** ** The attempts counter *)

Lemma empty_solver_solved_visualize :
  solve_with_visualization empty_solver true
  = Ok (Some empty_solution, empty_solved_visualize).
Proof. vm_compute. reflexivity. Qed.

Lemma empty_solved_visualize_counters :
  attempts empty_solved_visualize = 47%Z /\ calls empty_solved_visualize = 47%Z.
Proof. vm_compute. split; reflexivity. Qed.

(** C3 at the all-zeros grid.  Solved without visualisation, the search is
    entered 47 times and [attempts] is 0 when it returns; solved with
    visualisation, the same 47 calls leave [attempts] at 47. *)
Theorem attempts_not_counted_without_visualization :
  exists r s' rv sv,
    (s <- SudokuSolver zeros99 false ;; solve_with_visualization s false) = Ok (r, s') /\
    calls s' = 47%Z /\ attempts s' = 0%Z /\
    (s <- SudokuSolver zeros99 false ;; solve_with_visualization s true) = Ok (rv, sv) /\
    calls sv = 47%Z /\ attempts sv = 47%Z.
Proof.
  exists (Some empty_solution), empty_solved,
         (Some empty_solution), empty_solved_visualize.
  rewrite empty_solver_built. cbn [bind].
  split; [exact empty_solver_solved|].
  split; [apply empty_solved_counters|]. split; [apply empty_solved_counters|].
  split; [exact empty_solver_solved_visualize|].
  split; apply empty_solved_visualize_counters.
Qed.

(** ** The search with visualisation *)

Lemma emit_arrays (s : Solver) (g : Grid) (st : status) (cell : option (nat * nat))
    (number : option Z) :
  sudoku (emit s g st cell number) = sudoku s /\
  bitmap (emit s g st cell number) = bitmap s /\
  attempts (emit s g st cell number) = attempts s /\
  backtrack_count (emit s g st cell number) = backtrack_count s /\
  calls (emit s g st cell number) = calls s.
Proof.
  unfold emit. destruct (callback s && visualize s); simpl; tauto.
Qed.

Lemma emit_emitted (s : Solver) (g : Grid) (st : status) (cell : option (nat * nat))
    (number : option Z) :
  emitted (emit s g st cell number) = emitted s \/
  exists e, ev_grid e = g /\ emitted (emit s g st cell number) = e :: emitted s.
Proof.
  unfold emit. destruct (callback s && visualize s); simpl; [right|left; reflexivity].
  eexists. split; [|reflexivity]. reflexivity.
Qed.

Section VisualizeInvariant.
Variable P : Solver -> Prop.
Hypothesis P_fields : forall s s',
  P s -> sudoku s' = sudoku s -> bitmap s' = bitmap s -> P s'.
Hypothesis P_guess : forall s i j number s',
  P s -> wf s -> i < 9 -> j < 9 -> (1 <= number <= 9)%Z ->
  can_place_number s i j number = Ok true ->
  place_number s i j number = Ok s' -> P s'.
Hypothesis P_forced : forall s i j s',
  P s -> wf s -> i < 9 -> j < 9 -> is_trivial_cell s i j = true ->
  place_number s i j (forced_number s i j) = Ok s' -> P s'.

Lemma snapshots_refl (s s' : Solver) : emitted s' = emitted s -> snapshots P s s'.
Proof. intros E. exists []. split; [exact E|constructor]. Qed.

Lemma snapshots_trans (s1 s2 s3 : Solver) :
  snapshots P s1 s2 -> snapshots P s2 s3 -> snapshots P s1 s3.
Proof.
  intros (n1 & E1 & F1) (n2 & E2 & F2). exists (n2 ++ n1). split.
  - rewrite E2, E1. now rewrite app_assoc.
  - apply Forall_app. split; assumption.
Qed.

Lemma snapshots_emit (s t : Solver) (st : status) (cell : option (nat * nat))
    (number : option Z) :
  P t -> snapshots P s (emit s (sudoku t) st cell number).
Proof.
  intros Ht. destruct (emit_emitted s (sudoku t) st cell number) as [E|(e & Eg & E)].
  - now apply snapshots_refl.
  - exists [e]. split; [exact E|]. constructor; [|constructor]. exists t. auto.
Qed.

Lemma try_numbers_visualize_total (fuel : nat) (i j : nat) :
  (forall s, P s -> wf s -> filled_closed s -> count_empty (sudoku s) < fuel ->
     exists r s', advanced_backtrack_visualize fuel s = Ok (r, s') /\
                  visualize_post P true s r s') ->
  i < 9 -> j < 9 ->
  forall numbers s,
    (forall number, In number numbers -> (1 <= number <= 9)%Z) ->
    P s -> wf s -> filled_closed s -> count_empty (sudoku s) <= fuel ->
    exists r s', try_numbers_visualize (advanced_backtrack_visualize fuel) i j numbers s
                 = Ok (r, s') /\ visualize_post P false s r s'.
Proof.
  intros Hrec Hi Hj. induction numbers as [|number rest IH];
    intros s Hdig HP Hwf Hcl Hcnt; cbn [try_numbers_visualize].
  - exists None, s. split; [reflexivity|]. unfold visualize_post.
    splits; auto; try lia. now apply snapshots_refl.
  - assert (Hn : (1 <= number <= 9)%Z) by (apply Hdig; left; reflexivity).
    assert (Hdig' : forall n, In n rest -> (1 <= n <= 9)%Z)
      by (intros; apply Hdig; right; assumption).
    rewrite (can_place_digit s i j Hn). cbn [bind].
    destruct (get_bit (bitmap s) i j (Z.to_nat (number - 1))) eqn:Hbit;
      [|apply IH; assumption].
    set (sa := emit s (sudoku s) trying (Some (i, j)) (Some number)).
    destruct (emit_arrays s (sudoku s) trying (Some (i, j)) (Some number))
      as (Ea1 & Ea2 & Ea3 & Ea4 & Ea5). fold sa in Ea1, Ea2, Ea3, Ea4, Ea5.
    assert (HPa : P sa) by (apply P_fields with s; assumption).
    assert (Hwfa : wf sa) by (apply (wf_arrays (s:=s)); assumption).
    assert (Hcla : filled_closed sa) by (apply (filled_closed_arrays (s:=s)); assumption).
    assert (Hbita : get_bit (bitmap sa) i j (Z.to_nat (number - 1)) = true)
      by (rewrite Ea2; exact Hbit).
    pose proof (@candidate_cell_empty sa i j _ Hcla Hi Hj Hbita) as Hz.
    destruct (place_fills Hwfa Hi Hj Hn Hz) as (s1 & Hp & Hwf1 & Hc1).
    assert (HP1 : P s1).
    { apply (P_guess HPa Hwfa Hi Hj Hn); [|exact Hp].
      rewrite (can_place_digit sa i j Hn), Hbita. reflexivity. }
    pose proof (place_keeps_closed Hwfa Hi Hj Hn Hp Hcla) as Hcl1.
    pose proof (place_number_fields _ _ _ _ Hp) as Hf1.
    destruct (trivial_moves_total Hwf1) as (s2 & Ht & Hst).
    pose proof (forced_steps_wf Hst Hwf1) as Hwf2.
    pose proof (forced_steps_closed Hst Hwf1 Hcl1) as Hcl2.
    pose proof (forced_steps_count Hst Hwf1) as Hc2.
    pose proof (forced_steps_fields Hst) as Hf2.
    assert (HP2 : P s2).
    { clear - Hst Hwf1 HP1 P_forced.
      induction Hst as [|s i j s1 s' Hi Hj Ht Hp Hs IH]; auto.
      apply IH; [eapply wf_place_number; eassumption|].
      exact (P_forced HP1 Hwf1 Hi Hj Ht Hp). }
    rewrite Hp. cbn [bind]. rewrite Ht. cbn [bind].
    set (sb := emit s2 (sudoku s2) placed None None).
    destruct (emit_arrays s2 (sudoku s2) placed None None)
      as (Eb1 & Eb2 & Eb3 & Eb4 & Eb5). fold sb in Eb1, Eb2, Eb3, Eb4, Eb5.
    assert (HPb : P sb) by (apply P_fields with s2; assumption).
    assert (Hwfb : wf sb) by (apply (wf_arrays (s:=s2)); assumption).
    assert (Hclb : filled_closed sb) by (apply (filled_closed_arrays (s:=s2)); assumption).
    assert (Hsnap_b : snapshots P s sb).
    { apply snapshots_trans with sa; [apply snapshots_emit; exact HP|].
      apply snapshots_trans with s2; [|apply snapshots_emit; exact HP2].
      apply snapshots_refl. unfold same_fields in Hf1, Hf2. intuition congruence. }
    destruct (Hrec sb HPb Hwfb Hclb ltac:(rewrite Eb1, Ea1 in *; lia))
      as (r & s3 & Hr & Hpost).
    rewrite Hr. cbn [bind].
    destruct Hpost as (HP3 & Hwf3 & Hcl3 & Ha3 & Hcalls3 & Hsn3 & Hres).
    unfold same_fields in Hf1, Hf2.
    destruct Hf1 as (_ & _ & Ha1 & _ & _ & Hx), Hf2 as (_ & _ & Ha2 & _ & _ & Hy).
    destruct r as [g|].
    + exists (Some g), s3. split; [reflexivity|]. unfold visualize_post.
      splits; auto; try tauto; try lia.
      apply snapshots_trans with sb; assumption.
    + set (s4 := with_counters s3 (attempts s3) (backtrack_count s3 + 1)).
      set (s5 := emit s4 (sudoku s) backtracking (Some (i, j)) None).
      destruct (emit_arrays s4 (sudoku s) backtracking (Some (i, j)) None)
        as (Ec1 & Ec2 & Ec3 & Ec4 & Ec5). fold s5 in Ec1, Ec2, Ec3, Ec4, Ec5.
      set (s6 := with_arrays s5 (sudoku s) (bitmap s)).
      destruct (IH s6 Hdig') as (r & s' & Hr' & Hpost').
      * apply P_fields with s; [exact HP|reflexivity|reflexivity].
      * apply (wf_arrays (s:=s)); auto.
      * apply (filled_closed_arrays (s:=s)); auto.
      * exact Hcnt.
      * exists r, s'. split; [exact Hr'|].
        destruct Hpost' as (HP' & Hwf' & Hcl' & Ha' & Hcalls' & Hsn' & Hres').
        simpl in Ha', Hcalls', Hres'. simpl in Ec3, Ec5.
        unfold visualize_post. splits; auto; try lia.
        apply snapshots_trans with sb; [assumption|].
        apply snapshots_trans with s3; [assumption|].
        apply snapshots_trans with s5.
        -- apply snapshots_trans with s4; [apply snapshots_refl; reflexivity|].
           apply snapshots_emit. exact HP.
        -- apply snapshots_trans with s6; [apply snapshots_refl; reflexivity|assumption].
Qed.

Lemma advanced_backtrack_visualize_total (fuel : nat) :
  forall s, P s -> wf s -> filled_closed s -> count_empty (sudoku s) < fuel ->
  exists r s', advanced_backtrack_visualize fuel s = Ok (r, s') /\
               visualize_post P true s r s'.
Proof.
  induction fuel as [|fuel IH]; intros s HP Hwf Hcl Hcnt; [lia|].
  cbn [advanced_backtrack_visualize].
  set (s1 := with_counters (enter s) (attempts (enter s) + 1) (backtrack_count (enter s))).
  assert (HP1 : P s1) by (apply P_fields with s; [exact HP|reflexivity|reflexivity]).
  assert (Hwf1 : wf s1) by (apply (wf_arrays (s:=s)); auto).
  assert (Hcl1 : filled_closed s1) by (apply (filled_closed_arrays (s:=s)); auto).
  destruct (is_solved s1) eqn:Hsol.
  - exists (Some (sudoku s1)), s1. split; [reflexivity|].
    unfold visualize_post. splits; auto; simpl; try lia.
    + apply snapshots_refl. reflexivity.
    + unfold is_solved in Hsol. simpl in Hsol. b2p. exact Hsol.
  - set (s2 := emit s1 (sudoku s1) searching None None).
    destruct (emit_arrays s1 (sudoku s1) searching None None)
      as (E1 & E2 & E3 & E4 & E5). fold s2 in E1, E2, E3, E4, E5.
    assert (HP2 : P s2) by (apply P_fields with s1; assumption).
    assert (Hwf2 : wf s2) by (apply (wf_arrays (s:=s1)); assumption).
    assert (Hcl2 : filled_closed s2) by (apply (filled_closed_arrays (s:=s1)); assumption).
    assert (Hsn2 : snapshots P s s2).
    { apply snapshots_trans with s1; [apply snapshots_refl; reflexivity|].
      apply snapshots_emit. exact HP1. }
    simpl in E1, E2, E3, E5.
    destruct (least_options_cell_cases s2) as [(i & j & Hc)|Hc]; rewrite Hc.
    + destruct (least_options_cell_range _ Hc) as [Hi Hj].
      destruct (@try_numbers_visualize_total fuel i j IH Hi Hj
                  (smart_number_ordering s2 i j) s2) as (r & s' & Hr & Hpost);
        auto.
      * intros n. apply smart_numbers_digits.
      * rewrite E1. lia.
      * exists r, s'. split; [exact Hr|].
        destruct Hpost as (HP' & Hwf' & Hcl' & Ha' & Hcalls' & Hsn' & Hres').
        unfold visualize_post. splits; auto; try lia.
        -- apply snapshots_trans with s2; assumption.
        -- destruct r; [assumption|]. rewrite E1, E2 in Hres'. exact Hres'.
    + exists None, s2. split; [reflexivity|].
      unfold visualize_post. splits; auto; try lia.
Qed.
End VisualizeInvariant.

(** ** The states of the engine *)

Lemma sound_arrays (s s' : Solver) :
  sudoku s' = sudoku s -> bitmap s' = bitmap s -> sound s -> sound s'.
Proof.
  intros Hs Hb [H1 H2 H3 H4]. split.
  - now apply (wf_arrays (s:=s)).
  - now apply (filled_closed_arrays (s:=s)).
  - now apply (excluded_arrays (s:=s)).
  - now rewrite Hs.
Qed.

Lemma sound_place (s s' : Solver) (i j : nat) (number : Z) :
  sound s -> i < 9 -> j < 9 -> (1 <= number <= 9)%Z ->
  get_bit (bitmap s) i j (Z.to_nat (number - 1)) = true ->
  place_number s i j number = Ok s' -> sound s'.
Proof.
  intros [H1 H2 H3 H4] Hi Hj Hn Hbit Hp. split.
  - eapply wf_place_number; eassumption.
  - exact (place_keeps_closed H1 Hi Hj Hn Hp H2).
  - exact (place_keeps_excluded H1 Hi Hj Hn Hp H3).
  - exact (place_keeps_unique H1 Hi Hj Hn Hp Hbit H3 H4).
Qed.

Lemma engine_state_sound (input : Grid) (s : Solver) :
  wf_grid input -> digits_grid input -> unique_grid input ->
  engine_state input s -> sound s.
Proof.
  intros Hin Hdig Hun.
  induction 1 as [cb done rest s Hcells Hf
                 |s i j number s' Hs IH Hi Hj Hn Hcan Hp
                 |s i j s' Hs IH Hi Hj Ht Hp
                 |s snapshot Hs IH Hsnap IHsnap
                 |s s' Hs IH Eg Eb].
  - assert (Hrange : forall i j, In (i, j) done -> i < 9 /\ j < 9).
    { intros i j Hd. apply In_cells. rewrite Hcells. apply in_or_app. now left. }
    destruct (@built_init_cells input done Hin Hdig Hrange (init_state cb)
                (built_init_state input cb)) as (s1 & Hs1 & [B1 B2 B3 B4] & _).
    rewrite Hf in Hs1. injection Hs1 as <-.
    split; auto. eapply sub_grid_unique; eassumption.
  - rewrite (can_place_digit s i j Hn) in Hcan. injection Hcan as Hbit.
    exact (sound_place IH Hi Hj Hn Hbit Hp).
  - destruct (forced_number_spec (sound_wf IH) Hi Hj Ht) as (_ & Hn & Hbit).
    exact (sound_place IH Hi Hj Hn Hbit Hp).
  - apply (sound_arrays (s:=snapshot)); auto.
  - apply (sound_arrays (s:=s)); auto.
Qed.

Lemma unique_check_sound (g : Grid) : unique_check g = true -> unique_grid g.
Proof.
  unfold unique_check. rewrite forallb_forall. intros H r c r' c' Hr Hc Hr' Hc' Hne Hp Hnz.
  specialize (H (r, c) (proj2 (In_cells r c) (conj Hr Hc))). cbv beta iota in H.
  rewrite forallb_forall in H.
  specialize (H (r', c') (proj2 (In_cells r' c') (conj Hr' Hc'))). cbv beta iota in H.
  unfold peerb, peer in *. b2p.
  destruct H as [[[H|H]|H]|H]; try congruence.
  - destruct H; congruence.
  - exfalso. lia.
Qed.

Lemma digits_check_sound (g : Grid) : digits_check g = true -> digits_grid g.
Proof.
  unfold digits_check. rewrite forallb_forall. intros H r c Hr Hc.
  specialize (H (r, c) (proj2 (In_cells r c) (conj Hr Hc))). cbv beta iota in H.
  b2p. exact H.
Qed.





(** C4.  For an input grid that satisfies the precondition (9x9, digits
    0..9, no digit twice in a row, a column or a box), every state of the
    engine has a grid with row, column and box uniqueness; the constructor
    builds such a state, [solve_with_visualization] returns from it in both
    modes in such a state, the grid it returns is the final grid, and every
    snapshot it handed to the callback has the uniqueness property too. *)
Theorem uniqueness_invariant (input : Grid) (cb : bool) :
  wf_grid input -> digits_grid input -> unique_grid input ->
  (forall s, engine_state input s -> unique_grid (sudoku s)) /\
  exists s0, SudokuSolver input cb = Ok s0 /\ engine_state input s0 /\
    forall vis, exists r s',
      solve_with_visualization s0 vis = Ok (r, s') /\
      engine_state input s' /\
      (forall g, r = Some g -> g = sudoku s' /\ count_empty g = 0) /\
      Forall (fun e => unique_grid (ev_grid e)) (emitted s').
Proof.
  intros Hin Hdig Hun.
  assert (Hsound : forall s, engine_state input s -> sound s)
    by (intros; now apply engine_state_sound with input).
  split; [intros s Hs; apply (Hsound s Hs)|].
  destruct (SudokuSolver_spec cb Hin Hdig) as (s0 & Hs0 & _ & _ & Hf0).
  assert (He0 : engine_state input s0).
  { apply es_clues with cb cells []; [now rewrite app_nil_r|exact Hs0]. }
  exists s0. split; [exact Hs0|]. split; [exact He0|].
  assert (Cf : forall s s', engine_state input s -> sudoku s' = sudoku s ->
                 bitmap s' = bitmap s -> engine_state input s')
    by (intros; eapply es_fields; eassumption).
  assert (Cg : forall s i j number s', engine_state input s -> wf s -> i < 9 -> j < 9 ->
                 (1 <= number <= 9)%Z -> can_place_number s i j number = Ok true ->
                 place_number s i j number = Ok s' -> engine_state input s')
    by (intros s i j number s' H _ Hi Hj Hn Hc Hp; exact (es_guess H Hi Hj Hn Hc Hp)).
  assert (Co : forall s i j s', engine_state input s -> wf s -> i < 9 -> j < 9 ->
                 is_trivial_cell s i j = true ->
                 place_number s i j (forced_number s i j) = Ok s' -> engine_state input s')
    by (intros s i j s' H _ Hi Hj Ht Hp; exact (es_forced H Hi Hj Ht Hp)).
  assert (Ce : forall s, engine_state input s -> engine_state input (enter s))
    by (intros s H; apply Cf with s; [exact H|reflexivity|reflexivity]).
  assert (Cr : forall s s3, engine_state input s -> engine_state input s3 ->
                 engine_state input
                   (with_arrays (with_counters s3 (attempts s3) (backtrack_count s3 + 1))
                                (sudoku s) (bitmap s))).
  { intros s s3 H H3. apply es_restore; [|exact H].
    apply Cf with s3; [exact H3|reflexivity|reflexivity]. }
  intros vis. unfold solve_with_visualization, solve_fuel.
  set (s1 := with_counters (with_visualize s0 vis) 0 0).
  assert (He1 : engine_state input s1)
    by (apply Cf with s0; [exact He0|reflexivity|reflexivity]).
  assert (Hem : emitted s1 = []) by (simpl; apply Hf0).
  assert (Hfuel : count_empty (sudoku s1) < S (count_empty (sudoku s0)))
    by (simpl; lia).
  destruct vis.
  - destruct (@advanced_backtrack_visualize_total (engine_state input) Cf Cg Co
                (S (count_empty (sudoku s0))) s1 He1
                (sound_wf (Hsound _ He1)) (sound_closed (Hsound _ He1)) Hfuel)
      as (r & s' & Hr & Hpost).
    exists r, s'. split; [exact Hr|].
    destruct Hpost as (HP & _ & _ & _ & _ & (new & Enew & Fnew) & Hres).
    split; [exact HP|]. split.
    + intros g ->. exact Hres.
    + rewrite Enew, Hem, app_nil_r. eapply Forall_impl; [|exact Fnew].
      intros e (t & Ht & ->). apply (Hsound t Ht).
  - destruct (@advanced_backtrack_total (engine_state input) Ce Cg Co Cr
                (S (count_empty (sudoku s0))) s1 He1
                (sound_wf (Hsound _ He1)) (sound_closed (Hsound _ He1)) Hfuel)
      as (r & s' & Hr & Hpost).
    exists r, s'. split; [exact Hr|].
    destruct Hpost as (HP & _ & _ & _ & Hemit & _ & Hres).
    split; [exact HP|]. split.
    + intros g ->. exact Hres.
    + rewrite Hemit, Hem. constructor.
Qed.

Lemma uniqueness_invariant_witness :
  (forall s, engine_state example_puzzle s -> unique_grid (sudoku s)) /\
  exists s0, SudokuSolver example_puzzle true = Ok s0 /\ engine_state example_puzzle s0 /\
    forall vis, exists r s',
      solve_with_visualization s0 vis = Ok (r, s') /\
      engine_state example_puzzle s' /\
      (forall g, r = Some g -> g = sudoku s' /\ count_empty g = 0) /\
      Forall (fun e => unique_grid (ev_grid e)) (emitted s').
Proof.
  apply (@uniqueness_invariant example_puzzle true).
  - apply shape_grid_wf. vm_compute. reflexivity.
  - apply digits_check_sound. vm_compute. reflexivity.
  - apply unique_check_sound. vm_compute. reflexivity.
Defined.

(** ** The generator *)

Unset Implicit Arguments.

Lemma remove_cells_count (cs : list (nat * nat)) :
  forall g, wf_grid g -> NoDup cs ->
  (forall i j, In (i, j) cs -> i < 9 /\ j < 9 /\ get_cell g i j <> 0%Z) ->
  wf_grid (remove_cells g cs) /\
  count_empty (remove_cells g cs) = count_empty g + length cs /\
  (forall r c, r < 9 -> c < 9 ->
     get_cell (remove_cells g cs) r c = if existsb (fun '(i, j) => (r =? i) && (c =? j)) cs
                                        then 0%Z else get_cell g r c).
Proof.
  induction cs as [|[i j] cs IH]; intros g Hwf Hnd Hcs.
  - simpl. splits; auto.
  - inversion Hnd as [|x l Hnotin Hnd']; subst.
    destruct (Hcs i j (or_introl eq_refl)) as (Hi & Hj & Hnz).
    assert (Hwf' : wf_grid (set_cell g i j 0)) by now apply wf_set_cell.
    destruct (IH (set_cell g i j 0%Z) Hwf' Hnd') as (H1 & H2 & H3).
    { intros r c Hin. destruct (Hcs r c (or_intror Hin)) as (Hr & Hc & Hnz').
      splits; auto. rewrite get_cell_place by assumption.
      destruct ((r =? i) && (c =? j)) eqn:E; [|assumption].
      b2p. destruct E as [-> ->]. contradiction. }
    change (remove_cells g ((i, j) :: cs)) with (remove_cells (set_cell g i j 0%Z) cs).
    splits; auto.
    + rewrite H2. pose proof (@count_empty_set_cell g i j 0%Z Hwf Hi Hj) as Hc.
      replace (get_cell g i j =? 0)%Z with false in Hc by (symmetry; b2p; assumption).
      simpl in Hc. simpl. lia.
    + intros r c Hr Hc. rewrite H3 by assumption. cbn [existsb].
      rewrite get_cell_place by assumption.
      destruct ((r =? i) && (c =? j)); simpl; [|reflexivity].
      destruct (existsb _ cs); reflexivity.
Qed.

Lemma NoDup_cells : NoDup cells.
Proof.
  assert (H : nodup cell_eq_dec cells = cells)
    by (vm_compute; reflexivity).
  rewrite <- H. apply NoDup_nodup.
Qed.

Lemma empty_solution_full (i j : nat) :
  i < 9 -> j < 9 -> get_cell empty_solution i j <> 0%Z.
Proof.
  intros Hi Hj.
  assert (H : forallb (fun '(r, c) => negb (get_cell empty_solution r c =? 0)%Z) cells
              = true) by (vm_compute; reflexivity).
  rewrite forallb_forall in H.
  specialize (H (i, j) (proj2 (In_cells i j) (conj Hi Hj))). cbv beta iota in H.
  b2p. exact H.
Qed.

(** The removal counts [int(81 * diff_param)] of the catalog. *)
Lemma remove_count_catalog :
  map (fun d => remove_count (fst (difficulty_settings d)))
      ["easy"; "medium"; "hard"; "expert"]%string
  = [Ok 24; Ok 40; Ok 56; Ok 64]%Z.
Proof. vm_compute. reflexivity. Qed.

Lemma remove_count_cases (difficulty : String.string) :
  exists n, remove_count (fst (difficulty_settings difficulty)) = Ok (Z.of_nat n) /\
            n <= 81 /\ In n [24; 40; 56; 64].
Proof.
  unfold difficulty_settings.
  destruct (String.eqb difficulty "easy");
    [exists 24; splits; [vm_compute; reflexivity|lia|simpl; tauto]|].
  destruct (String.eqb difficulty "medium");
    [exists 40; splits; [vm_compute; reflexivity|lia|simpl; tauto]|].
  destruct (String.eqb difficulty "hard");
    [exists 56; splits; [vm_compute; reflexivity|lia|simpl; tauto]|].
  destruct (String.eqb difficulty "expert");
    [exists 64; splits; [vm_compute; reflexivity|lia|simpl; tauto]|].
  exists 40; splits; [vm_compute; reflexivity|lia|simpl; tauto].
Qed.

Lemma bind_Ok {A B : Type} (m : res A) (k : A -> res B) (b : B) :
  bind m k = Ok b -> exists a, m = Ok a /\ k a = Ok b.
Proof.
  destruct m as [a| |]; simpl; try discriminate. intros H. exists a. auto.
Qed.

Lemma generation_attempt_eq (shuffled : list (nat * nat)) (diff_param : float) :
  generation_attempt shuffled diff_param =
  (solver <- SudokuSolver zeros99 false ;;
   ' (_, solver) <- solve_with_visualization solver false ;;
   n <- remove_count diff_param ;;
   test_solver <- SudokuSolver (remove_cells (sudoku solver) (take_py n shuffled)) false ;;
   ' (result, _) <- solve_with_visualization test_solver false ;;
   Ok (remove_cells (sudoku solver) (take_py n shuffled), result)).
Proof. reflexivity. Qed.

(** An attempt of the generator blanks the first cells of the shuffled list
    in the solution of the empty grid. *)
Lemma generation_attempt_puzzle (shuffled : list (nat * nat)) (diff_param : float)
    (p : Grid) (r : option Grid) :
  generation_attempt shuffled diff_param = Ok (p, r) ->
  exists n, remove_count diff_param = Ok n /\
            p = remove_cells empty_solution (take_py n shuffled).
Proof.
  rewrite generation_attempt_eq. intros H.
  apply bind_Ok in H. destruct H as (s0 & E0 & H).
  apply bind_Ok in H. destruct H as ([r0 s1] & E1 & H).
  apply bind_Ok in H. destruct H as (n & En & H).
  apply bind_Ok in H. destruct H as (ts & Et & H).
  apply bind_Ok in H. destruct H as ([r' s'] & Er & H).
  injection H as <- _. exists n. split; [exact En|].
  rewrite empty_solver_built in E0. injection E0 as <-.
  rewrite empty_solver_solved in E1.
  assert (Es : s1 = empty_solved) by congruence.
  now rewrite Es, empty_solved_grid.
Qed.

Lemma generate_from_spec (shuffle : nat -> list (nat * nat) -> list (nat * nat))
    (diff_param : float) (remaining : nat) :
  forall attempts out bodies,
    generate_from shuffle diff_param remaining attempts = (out, bodies) ->
    attempts <= bodies <= attempts + remaining /\
    (forall k, attempts <= k -> S k < bodies ->
       exists p, generation_attempt (shuffle k cells) diff_param = Ok (p, None)) /\
    (forall p, out = Ok p ->
       attempts < bodies /\
       exists g, generation_attempt (shuffle (bodies - 1) cells) diff_param
                 = Ok (p, Some g)).
Proof.
  induction remaining as [|remaining IH]; intros attempts out bodies; cbn [generate_from].
  - intros [= <- <-]. splits; try lia. intros p [=].
  - destruct (generation_attempt (shuffle attempts cells) diff_param)
      as [[p [g|]]| |] eqn:Ha.
    + intros [= <- <-]. splits; try lia.
      intros p' [= <-]. split; [lia|]. exists g.
      replace (S attempts - 1) with attempts by lia. exact Ha.
    + intros H. destruct (IH _ _ _ H) as (H1 & H2 & H3). splits; try lia.
      * intros k Hk Hlt. destruct (Nat.eq_dec k attempts) as [->|Hne].
        -- exists p. exact Ha.
        -- apply H2; lia.
      * intros p' Hp'. destruct (H3 p' Hp') as [H4 H5]. split; [lia|exact H5].
    + intros [= <- <-]. splits; try lia. intros p [=].
    + intros [= <- <-]. splits; try lia. intros p [=].
Qed.

Lemma generate_from_exhausted (shuffle : nat -> list (nat * nat) -> list (nat * nat))
    (diff_param : float) (remaining : nat) :
  forall attempts,
    (forall k, attempts <= k < attempts + remaining ->
       exists p, generation_attempt (shuffle k cells) diff_param = Ok (p, None)) ->
    generate_from shuffle diff_param remaining attempts
    = (Raise GenerationFailed, attempts + remaining).
Proof.
  induction remaining as [|remaining IH]; intros attempts H; cbn [generate_from].
  - f_equal. lia.
  - destruct (H attempts ltac:(lia)) as (p & Hp). rewrite Hp.
    rewrite IH; [f_equal; lia|]. intros k Hk. apply H. lia.
Qed.

(** *** The loop over any outcome of the re-solve *)

Lemma generation_attempt_verify (shuffled : list (nat * nat)) (diff_param : float) :
  generation_attempt shuffled diff_param
  = generation_attempt_with verify shuffled diff_param.
Proof.
  rewrite generation_attempt_eq. unfold generation_attempt_with, verify. cbv zeta.
  rewrite empty_solver_built. cbn [bind]. rewrite empty_solver_solved. cbn [bind].
  destruct (remove_count diff_param) as [n| |]; cbn [bind]; try reflexivity.
  destruct (SudokuSolver _ false) as [ts| |]; cbn [bind]; try reflexivity.
  destruct (solve_with_visualization ts false) as [[r s']| |]; reflexivity.
Qed.

Lemma generate_from_verify (shuffle : nat -> list (nat * nat) -> list (nat * nat))
    (diff_param : float) (remaining : nat) :
  forall attempts,
    generate_from shuffle diff_param remaining attempts
    = generate_from_with verify shuffle diff_param remaining attempts.
Proof.
  induction remaining as [|remaining IH]; intros attempts;
    cbn [generate_from generate_from_with]; [reflexivity|].
  rewrite generation_attempt_verify.
  destruct (generation_attempt_with verify (shuffle attempts cells) diff_param)
    as [[p [g|]]| |]; try reflexivity.
  apply IH.
Qed.

Lemma generate_from_with_spec (v : Grid -> res (option Grid))
    (shuffle : nat -> list (nat * nat) -> list (nat * nat))
    (diff_param : float) (remaining : nat) :
  forall attempts out bodies,
    generate_from_with v shuffle diff_param remaining attempts = (out, bodies) ->
    attempts <= bodies <= attempts + remaining /\
    (forall k, attempts <= k -> S k < bodies ->
       exists p, generation_attempt_with v (shuffle k cells) diff_param = Ok (p, None)) /\
    (forall p, out = Ok p ->
       attempts < bodies /\
       exists g, generation_attempt_with v (shuffle (bodies - 1) cells) diff_param
                 = Ok (p, Some g)).
Proof.
  induction remaining as [|remaining IH]; intros attempts out bodies;
    cbn [generate_from_with].
  - intros [= <- <-]. splits; try lia. intros p [=].
  - destruct (generation_attempt_with v (shuffle attempts cells) diff_param)
      as [[p [g|]]| |] eqn:Ha.
    + intros [= <- <-]. splits; try lia.
      intros p' [= <-]. split; [lia|]. exists g.
      replace (S attempts - 1) with attempts by lia. exact Ha.
    + intros H. destruct (IH _ _ _ H) as (H1 & H2 & H3). splits; try lia.
      * intros k Hk Hlt. destruct (Nat.eq_dec k attempts) as [->|Hne].
        -- exists p. exact Ha.
        -- apply H2; lia.
      * intros p' Hp'. destruct (H3 p' Hp') as [H4 H5]. split; [lia|exact H5].
    + intros [= <- <-]. splits; try lia. intros p [=].
    + intros [= <- <-]. splits; try lia. intros p [=].
Qed.

Lemma generate_from_with_exhausted (v : Grid -> res (option Grid))
    (shuffle : nat -> list (nat * nat) -> list (nat * nat))
    (diff_param : float) (remaining : nat) :
  forall attempts,
    (forall k, attempts <= k < attempts + remaining ->
       exists p, generation_attempt_with v (shuffle k cells) diff_param = Ok (p, None)) ->
    generate_from_with v shuffle diff_param remaining attempts
    = (Raise GenerationFailed, attempts + remaining).
Proof.
  induction remaining as [|remaining IH]; intros attempts H; cbn [generate_from_with].
  - f_equal. lia.
  - destruct (H attempts ltac:(lia)) as (p & Hp). rewrite Hp.
    rewrite IH; [f_equal; lia|]. intros k Hk. apply H. lia.
Qed.

(** Rejected attempts are followed by the next one, and the first accepted
    one ends the loop. *)
Lemma generate_from_with_retry (v : Grid -> res (option Grid))
    (shuffle : nat -> list (nat * nat) -> list (nat * nat))
    (diff_param : float) (remaining : nat) :
  forall attempts k p g,
    attempts <= k < attempts + remaining ->
    (forall k', attempts <= k' < k ->
       exists p', generation_attempt_with v (shuffle k' cells) diff_param
                  = Ok (p', None)) ->
    generation_attempt_with v (shuffle k cells) diff_param = Ok (p, Some g) ->
    generate_from_with v shuffle diff_param remaining attempts = (Ok p, S k).
Proof.
  induction remaining as [|remaining IH]; intros attempts k p g Hk Hrej Hacc;
    [lia|]. cbn [generate_from_with].
  destruct (Nat.eq_dec k attempts) as [->|Hne].
  - rewrite Hacc. reflexivity.
  - destruct (Hrej attempts ltac:(lia)) as (p' & Hp'). rewrite Hp'.
    apply (IH (S attempts) k p g); [lia| |exact Hacc].
    intros k' Hk'. apply Hrej. lia.
Qed.

(** When the re-solve finds nothing, an attempt still runs to its end: the
    empty grid is solved and the number of cells to blank is computed. *)
Lemma generation_attempt_rejected (v : Grid -> res (option Grid))
    (shuffled : list (nat * nat)) (difficulty : String.string) :
  (forall p, v p = Ok None) ->
  exists p, generation_attempt_with v shuffled (fst (difficulty_settings difficulty))
            = Ok (p, None).
Proof.
  intros Hv. destruct (remove_count_cases difficulty) as (n & Hn & _).
  unfold generation_attempt_with. cbv zeta.
  rewrite empty_solver_built. cbn [bind]. rewrite empty_solver_solved. cbn [bind].
  rewrite Hn. cbn [bind]. rewrite Hv. cbn [bind]. eauto.
Qed.

(** C6.  Whatever the re-solve [v] answers, [generate_puzzle] enters the
    body of its loop at most max_attempts times; every attempt before the
    last one it makes was rejected by the re-solve, and an attempt the
    re-solve rejects (it returned [None]) is followed by the next attempt:
    when the attempts before attempt [k] are rejected and attempt [k] is
    accepted, the puzzle of attempt [k] is returned after [k + 1] bodies;
    a grid that is returned was accepted in the last attempt; when the
    re-solve rejects every puzzle, the outcome after max_attempts bodies is
    the raised exception [Exception("Could not generate a valid Sudoku
    puzzle")], not a grid.  The program is the loop with [verify], the
    solver run on the reduced puzzle, as its re-solve. *)
Theorem generate_puzzle_attempts (v : Grid -> res (option Grid))
    (shuffle : nat -> list (nat * nat) -> list (nat * nat))
    (difficulty : String.string) :
  snd (generate_puzzle_with v shuffle difficulty) <= snd (difficulty_settings difficulty) /\
  (forall k, S k < snd (generate_puzzle_with v shuffle difficulty) ->
     exists p, generation_attempt_with v (shuffle k cells)
                 (fst (difficulty_settings difficulty)) = Ok (p, None)) /\
  (forall p, fst (generate_puzzle_with v shuffle difficulty) = Ok p ->
     exists g, generation_attempt_with v
                 (shuffle (snd (generate_puzzle_with v shuffle difficulty) - 1) cells)
                 (fst (difficulty_settings difficulty)) = Ok (p, Some g)) /\
  (forall k p g, k < snd (difficulty_settings difficulty) ->
     (forall k', k' < k ->
        exists p', generation_attempt_with v (shuffle k' cells)
                     (fst (difficulty_settings difficulty)) = Ok (p', None)) ->
     generation_attempt_with v (shuffle k cells)
       (fst (difficulty_settings difficulty)) = Ok (p, Some g) ->
     generate_puzzle_with v shuffle difficulty = (Ok p, S k)) /\
  ((forall p, v p = Ok None) ->
   generate_puzzle_with v shuffle difficulty
   = (Raise GenerationFailed, snd (difficulty_settings difficulty))) /\
  generate_puzzle shuffle difficulty = generate_puzzle_with verify shuffle difficulty.
Proof.
  pose proof (fun shuffled => generation_attempt_rejected v shuffled difficulty) as Hnone.
  unfold generate_puzzle, generate_puzzle_with.
  destruct (difficulty_settings difficulty) as [dp max_attempts].
  cbn [fst snd] in *.
  destruct (generate_from_with v shuffle dp max_attempts 0) as [out bodies] eqn:Hg.
  destruct (generate_from_with_spec _ _ _ _ _ _ _ Hg) as (H1 & H2 & H3). cbn [fst snd].
  splits.
  - lia.
  - intros k Hk. apply H2; lia.
  - intros p Hp. apply (H3 p Hp).
  - intros k p g Hk Hrej Hacc. rewrite <- Hg.
    apply (generate_from_with_retry v shuffle dp max_attempts 0 k p g);
      [lia| |exact Hacc].
    intros k' Hk'. apply Hrej. lia.
  - intros Hall. rewrite <- Hg. apply (generate_from_with_exhausted v shuffle dp max_attempts 0).
    intros k Hk. apply Hnone. exact Hall.
  - apply generate_from_verify.
Qed.

Lemma generate_puzzle_attempts_witness :
  generate_puzzle_with reject_all no_shuffle "easy"%string = (Raise GenerationFailed, 30) /\
  generate_puzzle_with accept_first_cell late_shuffle "easy"%string
  = (Ok (remove_cells empty_solution (take_py 24 (rev cells))), 3).
Proof.
  split.
  - apply (proj1 (proj2 (proj2 (proj2 (proj2
             (generate_puzzle_attempts reject_all no_shuffle "easy"%string)))))).
    intros p. reflexivity.
  - apply (proj1 (proj2 (proj2 (proj2
             (generate_puzzle_attempts accept_first_cell late_shuffle "easy"%string))))
             2 (remove_cells empty_solution (take_py 24 (rev cells)))
             (remove_cells empty_solution (take_py 24 (rev cells)))).
    + simpl. lia.
    + intros k' Hk'. exists (remove_cells empty_solution (take_py 24 cells)).
      destruct k' as [|[|k']]; [vm_compute; reflexivity|vm_compute; reflexivity|lia].
    + vm_compute. reflexivity.
Defined.

Lemma NoDup_firstn_of {A : Type} (n : nat) (l : list A) : NoDup l -> NoDup (firstn n l).
Proof.
  intros H. rewrite <- (firstn_skipn n l) in H.
  apply NoDup_app_remove_r in H. exact H.
Qed.

Lemma In_firstn_of {A : Type} (n : nat) (l : list A) (x : A) :
  In x (firstn n l) -> In x l.
Proof.
  intros H. rewrite <- (firstn_skipn n l). apply in_or_app. now left.
Qed.

Lemma blanked_count (n : nat) (shuffled : list (nat * nat)) :
  Permutation shuffled cells -> n <= 81 ->
  count_empty (remove_cells empty_solution (take_py (Z.of_nat n) shuffled)) = n /\
  forall r c, r < 9 -> c < 9 ->
    get_cell (remove_cells empty_solution (take_py (Z.of_nat n) shuffled)) r c = 0%Z \/
    get_cell (remove_cells empty_solution (take_py (Z.of_nat n) shuffled)) r c
    = get_cell empty_solution r c.
Proof.
  intros Hperm Hn. unfold take_py.
  replace (Z.of_nat n <? 0)%Z with false by (symmetry; b2p; lia).
  rewrite Nat2Z.id.
  assert (Hnd : NoDup (firstn n shuffled)).
  { apply NoDup_firstn_of. apply (Permutation_NoDup (Permutation_sym Hperm)).
    exact NoDup_cells. }
  assert (Hin : forall i j, In (i, j) (firstn n shuffled) ->
                  i < 9 /\ j < 9 /\ get_cell empty_solution i j <> 0%Z).
  { intros i j H. apply In_firstn_of in H. apply (Permutation_in _ Hperm) in H.
    apply In_cells in H. destruct H as [Hi Hj]. splits; auto.
    now apply empty_solution_full. }
  assert (Hwf : wf_grid empty_solution) by (apply shape_grid_wf; vm_compute; reflexivity).
  destruct (remove_cells_count (firstn n shuffled) empty_solution Hwf Hnd Hin)
    as (_ & Hc & Hg).
  split.
  - rewrite Hc. replace (count_empty empty_solution) with 0 by (vm_compute; reflexivity).
    rewrite length_firstn, (Permutation_length Hperm), length_cells. lia.
  - intros r c Hr Hc'. rewrite Hg by assumption.
    destruct (existsb _ _); [left|right]; reflexivity.
Qed.

Lemma generate_expert_puzzle :
  generate_puzzle no_shuffle "expert"%string = (Ok expert_puzzle, 1).
Proof. vm_compute. reflexivity. Qed.

(** C2, as stated, fails: the puzzle returned for "expert" has 64 empty
    cells, not round(81 * 0.8) = 65. *)
Lemma expert_puzzle_has_64_empty_cells :
  fst (generate_puzzle no_shuffle "expert"%string) = Ok expert_puzzle /\
  count_empty expert_puzzle = 64 /\ count_empty expert_puzzle <> 65.
Proof.
  rewrite generate_expert_puzzle. split; [reflexivity|].
  split; [vm_compute; reflexivity|vm_compute; discriminate].
Qed.

(** C2, amended.  Whatever the shuffles, a puzzle returned by
    [generate_puzzle] is the solution of the empty grid with exactly
    int(81 * removalFraction) cells set to 0, the product truncated: 24, 40,
    56 or 64 cells for easy, medium (and unknown names), hard and expert;
    the puzzle returned for "expert" has 64 empty cells. *)
Theorem generate_puzzle_removal
    (shuffle : nat -> list (nat * nat) -> list (nat * nat))
    (difficulty : String.string) (p : Grid) :
  (forall k, Permutation (shuffle k cells) cells) ->
  fst (generate_puzzle shuffle difficulty) = Ok p ->
  exists n,
    remove_count (fst (difficulty_settings difficulty)) = Ok (Z.of_nat n) /\
    In n [24; 40; 56; 64] /\
    count_empty p = n /\
    (forall r c, r < 9 -> c < 9 ->
       get_cell p r c = 0%Z \/ get_cell p r c = get_cell empty_solution r c) /\
    (difficulty = "expert"%string -> n = 64).
Proof.
  intros Hperm Hp.
  assert (Hacc : exists k g,
            generation_attempt (shuffle k cells) (fst (difficulty_settings difficulty))
            = Ok (p, Some g)).
  { unfold generate_puzzle in Hp.
    destruct (difficulty_settings difficulty) as [dp max_attempts]. cbn [fst snd] in *.
    destruct (generate_from shuffle dp max_attempts 0) as [out bodies] eqn:Hg.
    destruct (generate_from_spec _ _ _ _ _ _ Hg) as (_ & _ & H3). cbn [fst] in Hp.
    destruct (H3 p Hp) as (_ & g & Hg'). eauto. }
  destruct Hacc as (k & g & Hg).
  destruct (generation_attempt_puzzle _ _ _ _ Hg) as (n' & Hn' & ->).
  destruct (remove_count_cases difficulty) as (n & Hn & Hle & Hin).
  rewrite Hn in Hn'. injection Hn' as <-.
  destruct (blanked_count n _ (Hperm k) Hle) as [Hc Hcells].
  exists n. splits; auto.
  intros ->.
  assert (He : remove_count (fst (difficulty_settings "expert"%string)) = Ok 64%Z)
    by (vm_compute; reflexivity).
  rewrite He in Hn. injection Hn as Hn. lia.
Qed.

Lemma generate_puzzle_removal_witness :
  exists n,
    remove_count (fst (difficulty_settings "expert"%string)) = Ok (Z.of_nat n) /\
    In n [24; 40; 56; 64] /\
    count_empty expert_puzzle = n /\
    (forall r c, r < 9 -> c < 9 ->
       get_cell expert_puzzle r c = 0%Z \/
       get_cell expert_puzzle r c = get_cell empty_solution r c) /\
    ("expert"%string = "expert"%string -> n = 64).
Proof.
  apply (generate_puzzle_removal no_shuffle "expert"%string expert_puzzle).
  - intros k. apply Permutation_refl.
  - vm_compute. reflexivity.
Defined.

(** ** Frame properties over the store *)

Lemma frame_refl (n : nat) (A : ref -> Prop) (st : store) : frame n A st st.
Proof. split; auto. Qed.

Lemma frame_trans (n : nat) (A : ref -> Prop) (st1 st2 st3 : store) :
  frame n A st1 st2 -> frame n A st2 st3 -> frame n A st1 st3.
Proof.
  intros [L1 H1] [L2 H2]. split; [lia|]. intros k Hk. rewrite H2, H1; auto.
Qed.

Lemma nth_error_upd {A : Type} (n m : nat) (f : A -> A) (l : list A) :
  m <> n -> nth_error (upd n f l) m = nth_error l m.
Proof.
  revert n m; induction l as [|x t IH]; intros [|n] [|m] H; simpl; auto; try congruence.
Qed.

Lemma nth_error_upd_same {A : Type} (n : nat) (f : A -> A) (l : list A) :
  nth_error (upd n f l) n = option_map f (nth_error l n).
Proof.
  revert n; induction l as [|x t IH]; intros [|n]; simpl; auto.
Qed.

Lemma frame_write (n : nat) (A : ref -> Prop) (r : ref) (a : ndarray) (st : store) :
  writable n A r -> frame n A st (write r a st).
Proof.
  intros Hr. unfold write. split; [now rewrite length_upd|].
  intros k Hk. apply nth_error_upd. intros ->. contradiction.
Qed.

Lemma frame_alloc (n : nat) (A : ref -> Prop) (a : ndarray) (st : store) :
  n <= length st ->
  frame n A st (snd (alloc a st)) /\ writable n A (fst (alloc a st)) /\
  length st < length (snd (alloc a st)).
Proof.
  intros Hn. unfold alloc. simpl. rewrite length_app. simpl. splits; try lia.
  - split; [rewrite length_app; lia|].
    intros k Hk. apply nth_error_app1. unfold writable in Hk. lia.
  - left. exact Hn.
Qed.

Lemma frame_copy (n : nat) (A : ref -> Prop) (r c : ref) (st st' : store) :
  n <= length st -> copy r st = Ok (c, st') ->
  frame n A st st' /\ writable n A c /\ length st < length st'.
Proof.
  intros Hn. unfold copy. destruct (nth_error st r) as [a|]; [|discriminate].
  intros [= <- <-]. apply (frame_alloc n A a st Hn).
Qed.

Lemma frame_commit (n : nat) (A : ref -> Prop) (o : object) (s : Solver) (st : store) :
  owned n A o ->
  frame n A st (snd (commit o s st)) /\ owned n A (fst (commit o s st)).
Proof.
  intros [H1 H2]. unfold commit. simpl. split; [|split; assumption].
  eapply frame_trans; apply frame_write; assumption.
Qed.

Lemma frame_in_place (n : nat) (A : ref -> Prop) (f : Solver -> res Solver)
    (o o' : object) (st st' : store) :
  owned n A o -> in_place f o st = Ok (o', st') ->
  frame n A st st' /\ owned n A o'.
Proof.
  intros Ho. unfold in_place.
  destruct (view o st) as [s| |]; cbn [bind]; try discriminate.
  destruct (f s) as [s'| |]; cbn [bind]; try discriminate.
  intros H. pose proof (frame_commit n A o s' st Ho) as Hc.
  rewrite (f_equal Ok (surjective_pairing (commit o s' st))) in H.
  injection H as <- <-. exact Hc.
Qed.

Lemma frame_emit (n : nat) (A : ref -> Prop) (o o' : object) (a : ref) (sts : status)
    (cell : option (nat * nat)) (number : option Z) (st st' : store) :
  owned n A o -> n <= length st -> emit_in o a sts cell number st = Ok (o', st') ->
  frame n A st st' /\ owned n A o'.
Proof.
  intros Ho Hn. unfold emit_in. destruct (o_callback o && o_visualize o).
  - destruct (copy a st) as [[c st1]| |] eqn:Hc; cbn [bind]; try discriminate.
    destruct (read_int c st1); cbn [bind]; try discriminate.
    intros [= <- <-]. destruct (frame_copy n A a c st st1 Hn Hc) as (Hf & _). auto.
  - intros [= <- <-]. split; [apply frame_refl|assumption].
Qed.

Lemma frame_try_numbers (n : nat) (A : ref -> Prop)
    (rec : object -> store -> res search_result_in) (i j : nat) :
  (forall o st x, owned n A o -> n <= length st -> rec o st = Ok x -> framed n A st x) ->
  forall numbers o st x,
    owned n A o -> n <= length st ->
    try_numbers_in rec i j numbers o st = Ok x -> framed n A st x.
Proof.
  intros Hrec. induction numbers as [|number rest IH]; intros o st x Ho Hn;
    cbn [try_numbers_in].
  - intros [= <-]. split; [apply frame_refl|assumption].
  - destruct (bind (view o st) _) as [[|]| |]; cbn [bind]; try discriminate;
      [|apply IH; assumption].
    destruct (copy (bitmap_at o) st) as [[cb st1]| |] eqn:H1; cbn [bind];
      try discriminate.
    destruct (frame_copy n A _ _ st _ Hn H1) as (F1 & Hcb & L1).
    destruct (copy (sudoku_at o) st1) as [[cs st2]| |] eqn:H2; cbn [bind];
      try discriminate.
    destruct (frame_copy n A _ _ st1 _ ltac:(lia) H2) as (F2 & Hcs & L2).
    destruct (place_number_in o i j number st2) as [[o3 st3]| |] eqn:H3; cbn [bind];
      try discriminate.
    destruct (frame_in_place n A _ o _ st2 _ Ho H3) as (F3 & Ho3).
    destruct (trivial_moves_in o3 st3) as [[o4 st4]| |] eqn:H4; cbn [bind];
      try discriminate.
    destruct (frame_in_place n A _ o3 _ st3 _ Ho3 H4) as (F4 & Ho4).
    destruct (rec o4 st4) as [[[r o5] st5]| |] eqn:H5; cbn [bind]; try discriminate.
    assert (L4 : n <= length st4) by (destruct F3, F4; lia).
    destruct (Hrec o4 st4 _ Ho4 L4 H5) as (F5 & Ho5).
    assert (F : frame n A st st5).
    { repeat (eapply frame_trans; [eassumption|]). apply frame_refl. }
    destruct r as [g|].
    + intros [= <-]. split; assumption.
    + intros H. apply IH in H.
      * destruct x as [[r' o'] st']. destruct H as (F6 & Ho').
        split; [eapply frame_trans; eassumption|assumption].
      * split; assumption.
      * destruct F. lia.
Qed.

Lemma frame_advanced_backtrack (n : nat) (A : ref -> Prop) (fuel : nat) :
  forall o st x, owned n A o -> n <= length st ->
    advanced_backtrack_in fuel o st = Ok x -> framed n A st x.
Proof.
  induction fuel as [|fuel IH]; intros o st x Ho Hn; [discriminate|].
  cbn [advanced_backtrack_in].
  assert (Hoe : owned n A (enter_in o)) by exact Ho.
  destruct (reading is_solved (enter_in o) st) as [[|]| |]; cbn [bind]; try discriminate.
  - intros [= <-]. split; [apply frame_refl|assumption].
  - destruct (reading advanced_least_options_cell (enter_in o) st) as [c| |];
      cbn [bind]; try discriminate.
    destruct c as [[i j]|e|]; try discriminate.
    + destruct (reading _ (enter_in o) st) as [numbers| |]; cbn [bind];
        try discriminate.
      apply frame_try_numbers; assumption.
    + destruct e; try discriminate.
      intros [= <-]. split; [apply frame_refl|assumption].
Qed.

Lemma frame_try_numbers_visualize (n : nat) (A : ref -> Prop)
    (rec : object -> store -> res search_result_in) (i j : nat) :
  (forall o st x, owned n A o -> n <= length st -> rec o st = Ok x -> framed n A st x) ->
  forall numbers o st x,
    owned n A o -> n <= length st ->
    try_numbers_visualize_in rec i j numbers o st = Ok x -> framed n A st x.
Proof.
  intros Hrec. induction numbers as [|number rest IH]; intros o st x Ho Hn;
    cbn [try_numbers_visualize_in].
  - intros [= <-]. split; [apply frame_refl|assumption].
  - destruct (bind (view o st) _) as [[|]| |]; cbn [bind]; try discriminate;
      [|apply IH; assumption].
    destruct (copy (bitmap_at o) st) as [[cb st1]| |] eqn:H1; cbn [bind];
      try discriminate.
    destruct (frame_copy n A _ _ st _ Hn H1) as (F1 & Hcb & L1).
    destruct (copy (sudoku_at o) st1) as [[cs st2]| |] eqn:H2; cbn [bind];
      try discriminate.
    destruct (frame_copy n A _ _ st1 _ ltac:(lia) H2) as (F2 & Hcs & L2).
    destruct (emit_in o (sudoku_at o) trying _ _ st2) as [[oa sta]| |] eqn:Ha;
      cbn [bind]; try discriminate.
    destruct (frame_emit n A o _ _ _ _ _ st2 _ Ho ltac:(lia) Ha) as (Fa & Hoa).
    destruct (place_number_in oa i j number sta) as [[o3 st3]| |] eqn:H3; cbn [bind];
      try discriminate.
    destruct (frame_in_place n A _ oa _ sta _ Hoa H3) as (F3 & Ho3).
    destruct (trivial_moves_in o3 st3) as [[o4 st4]| |] eqn:H4; cbn [bind];
      try discriminate.
    destruct (frame_in_place n A _ o3 _ st3 _ Ho3 H4) as (F4 & Ho4).
    assert (L4 : n <= length st4) by (destruct Fa, F3, F4; lia).
    destruct (emit_in o4 (sudoku_at o4) placed None None st4) as [[ob stb]| |] eqn:Hb;
      cbn [bind]; try discriminate.
    destruct (frame_emit n A o4 _ _ _ _ _ st4 _ Ho4 L4 Hb) as (Fb & Hob).
    assert (Lb : n <= length stb) by (destruct Fb; lia).
    destruct (rec ob stb) as [[[r o5] st5]| |] eqn:H5; cbn [bind]; try discriminate.
    destruct (Hrec ob stb _ Hob Lb H5) as (F5 & Ho5).
    assert (F : frame n A st st5).
    { repeat (eapply frame_trans; [eassumption|]). apply frame_refl. }
    destruct r as [g|].
    + intros [= <-]. split; assumption.
    + set (o6 := set_counters o5 _ _).
      assert (Ho6 : owned n A o6) by exact Ho5.
      destruct (emit_in o6 cs backtracking _ None st5) as [[oc stc]| |] eqn:Hc;
        cbn [bind]; try discriminate.
      destruct (frame_emit n A o6 _ _ _ _ _ st5 _ Ho6 ltac:(destruct F; lia) Hc)
        as (Fc & Hoc).
      intros H. apply IH in H.
      * destruct x as [[r' o'] st']. destruct H as (F6 & Ho').
        split; [|assumption].
        eapply frame_trans; [exact F|]. eapply frame_trans; eassumption.
      * split; assumption.
      * destruct F, Fc. lia.
Qed.

Lemma frame_advanced_backtrack_visualize (n : nat) (A : ref -> Prop) (fuel : nat) :
  forall o st x, owned n A o -> n <= length st ->
    advanced_backtrack_visualize_in fuel o st = Ok x -> framed n A st x.
Proof.
  induction fuel as [|fuel IH]; intros o st x Ho Hn; [discriminate|].
  cbn [advanced_backtrack_visualize_in].
  set (o1 := set_counters (enter_in o) _ _).
  assert (Ho1 : owned n A o1) by exact Ho.
  destruct (reading is_solved o1 st) as [[|]| |]; cbn [bind]; try discriminate.
  - intros [= <-]. split; [apply frame_refl|assumption].
  - destruct (emit_in o1 (sudoku_at o1) searching None None st) as [[o2 st2]| |] eqn:He;
      cbn [bind]; try discriminate.
    destruct (frame_emit n A o1 _ _ _ _ _ st _ Ho1 Hn He) as (Fe & Ho2).
    assert (L2 : n <= length st2) by (destruct Fe; lia).
    destruct (reading advanced_least_options_cell o2 st2) as [c| |];
      cbn [bind]; try discriminate.
    destruct c as [[i j]|e|]; try discriminate.
    + destruct (reading _ o2 st2) as [numbers| |]; cbn [bind]; try discriminate.
      intros H. apply (frame_try_numbers_visualize n A _ i j IH) in H; auto.
      destruct x as [[r' o'] st']. destruct H as (F & Ho').
      split; [eapply frame_trans; eassumption|assumption].
    + destruct e; try discriminate.
      intros [= <-]. split; assumption.
Qed.

Lemma frame_solve (n : nat) (A : ref -> Prop) (o : object) (vis : bool) (st : store)
    (x : search_result_in) :
  owned n A o -> n <= length st ->
  solve_with_visualization_in o vis st = Ok x -> framed n A st x.
Proof.
  intros Ho Hn. unfold solve_with_visualization_in, solve_fuel_in.
  destruct (reading _ o st) as [empty| |]; cbn [bind]; try discriminate.
  destruct vis.
  - apply frame_advanced_backtrack_visualize; assumption.
  - apply frame_advanced_backtrack; assumption.
Qed.

Lemma frame_init_cells (n : nat) (A : ref -> Prop) (input : ref)
    (l : list (nat * nat)) :
  forall o st o' st', owned n A o -> n <= length st ->
    foldM (init_cell_in input) l (o, st) = Ok (o', st') ->
    frame n A st st' /\ owned n A o'.
Proof.
  induction l as [|[i j] l IH]; intros o st o' st' Ho Hn; cbn [foldM].
  - intros [= <- <-]. split; [apply frame_refl|assumption].
  - unfold init_cell_in at 1.
    destruct (read_int input st) as [g| |]; cbn [bind]; try discriminate.
    destruct (read_cell g i j) as [v| |]; cbn [bind]; try discriminate.
    destruct (negb (v =? 0)%Z).
    + destruct (place_number_in o i j v st) as [[o1 st1]| |] eqn:Hp; cbn [bind];
        try discriminate.
      destruct (frame_in_place n A _ o _ st _ Ho Hp) as (F1 & Ho1).
      intros H. apply IH in H; [|assumption|destruct F1; lia].
      destruct H as (F & Ho'). split; [eapply frame_trans; eassumption|assumption].
    + cbn [bind]. apply IH; assumption.
Qed.

Lemma frame_SudokuSolver (input : ref) (cb : bool) (st : store) (o : object)
    (st1 : store) :
  SudokuSolver_in input cb st = Ok (o, st1) ->
  frame (length st) nothing st st1 /\ owned (length st) nothing o.
Proof.
  unfold SudokuSolver_in, alloc. intros H.
  apply frame_init_cells with (n := length st) (A := nothing) in H.
  - destruct H as (F & Ho). split; [|assumption].
    eapply frame_trans; [|exact F]. split.
    + rewrite !length_app. lia.
    + intros k Hk. rewrite <- app_assoc. apply nth_error_app1.
      unfold writable in Hk. lia.
  - split; left; simpl; rewrite ?length_app; simpl; lia.
  - rewrite !length_app. lia.
Qed.

Lemma frame_below (n : nat) (st st' : store) (k : ref) :
  frame n nothing st st' -> k < n -> nth_error st' k = nth_error st k.
Proof.
  intros [_ F] Hk. apply F. unfold writable, nothing. lia.
Qed.

(** C10.  The constructor and the solve write into the two arrays the
    constructor made, or into copies made later, and into nothing else: every
    array that exists when [SudokuSolver] is called, the caller's input grid
    among them, is the same after construction and after the solve, in both
    modes.  In particular the reduced puzzle of the generator is the same
    before and after its verification re-solve. *)
Theorem solver_leaves_input_alone (st : store) (input : ref) (cb vis : bool)
    (o o' : object) (st1 st2 : store) (r : option ref) :
  input < length st ->
  SudokuSolver_in input cb st = Ok (o, st1) ->
  solve_with_visualization_in o vis st1 = Ok (r, o', st2) ->
  (nth_error st1 input = nth_error st input /\
   nth_error st2 input = nth_error st input) /\
  (forall k, k < length st ->
     nth_error st1 k = nth_error st k /\ nth_error st2 k = nth_error st k) /\
  (input <> sudoku_at o /\ input <> sudoku_at o') /\
  (forall puzzle stp result stq,
     puzzle < length stp -> verify_in puzzle stp = Ok (result, stq) ->
     nth_error stq puzzle = nth_error stp puzzle).
Proof.
  intros Hin Hc Hs.
  destruct (frame_SudokuSolver input cb st o st1 Hc) as (F1 & Ho).
  pose proof (frame_solve (length st) nothing o vis st1 (r, o', st2) Ho
                ltac:(destruct F1; lia) Hs) as (F2 & Ho').
  assert (Hall : forall k, k < length st ->
            nth_error st1 k = nth_error st k /\ nth_error st2 k = nth_error st k).
  { intros k Hk. split; [now apply (frame_below (length st))|].
    rewrite (frame_below (length st) st1 st2 k F2 Hk).
    now apply (frame_below (length st)). }
  splits; auto; try apply Hall; auto.
  - destruct Ho as [[H|[]] _]. lia.
  - destruct Ho' as [[H|[]] _]. lia.
  - clear. intros puzzle stp result stq Hp. unfold verify_in.
    destruct (SudokuSolver_in puzzle false stp) as [[ts st1]| |] eqn:Hc; cbn [bind];
      try discriminate.
    destruct (solve_with_visualization_in ts false st1) as [[[r o'] st2]| |] eqn:Hs;
      cbn [bind]; try discriminate.
    intros [= _ <-].
    destruct (frame_SudokuSolver puzzle false stp ts st1 Hc) as (F1 & Ho).
    pose proof (frame_solve (length stp) nothing ts false st1 (r, o', st2) Ho
                  ltac:(destruct F1; lia) Hs) as (F2 & _).
    rewrite (frame_below (length stp) st1 st2 puzzle F2 Hp).
    now apply (frame_below (length stp)).
Qed.

(** ** The store model and the state-passing model agree *)

Lemma holds_spec (o : object) (st : store) (s : Solver) :
  holds o st s <->
  nth_error st (sudoku_at o) = Some (IntArray (sudoku s)) /\
  nth_error st (bitmap_at o) = Some (BoolArray (bitmap s)) /\
  s = mkSolver (sudoku s) (bitmap s) (o_callback o) (o_visualize o) (o_attempts o)
               (o_backtrack_count o) (o_emitted o) (o_calls o).
Proof.
  unfold holds, view, read_int, read_bool. split.
  - destruct (nth_error st (sudoku_at o)) as [[g|b]|]; cbn [bind]; try discriminate.
    destruct (nth_error st (bitmap_at o)) as [[g'|b]|]; cbn [bind]; try discriminate.
    intros [= <-]. simpl. auto.
  - intros (-> & -> & E). cbn [bind]. now rewrite E at 3.
Qed.

Lemma holds_bounds (o : object) (st : store) (s : Solver) :
  holds o st s ->
  sudoku_at o < length st /\ bitmap_at o < length st /\ sudoku_at o <> bitmap_at o.
Proof.
  intros H. apply holds_spec in H. destruct H as (H1 & H2 & _).
  splits.
  - apply nth_error_Some. congruence.
  - apply nth_error_Some. congruence.
  - intros E. rewrite E in H1. congruence.
Qed.

(** A frame that leaves the arrays of [o] alone leaves its state alone. *)
Lemma holds_frame (n : nat) (A : ref -> Prop) (o : object) (st st' : store)
    (s : Solver) :
  holds o st s -> frame n A st st' ->
  ~ writable n A (sudoku_at o) -> ~ writable n A (bitmap_at o) ->
  holds o st' s.
Proof.
  intros H [_ F] H1 H2. apply holds_spec in H. apply holds_spec.
  rewrite (F _ H1), (F _ H2). exact H.
Qed.

Lemma holds_alloc (o : object) (st : store) (s : Solver) (a : ndarray) :
  holds o st s -> holds o (st ++ [a]) s.
Proof.
  intros H. destruct (holds_bounds o st s H) as (B1 & B2 & _).
  apply holds_spec in H. apply holds_spec.
  now rewrite !nth_error_app1 by assumption.
Qed.

Lemma holds_commit (o : object) (st : store) (s s' : Solver) :
  holds o st s -> holds (fst (commit o s' st)) (snd (commit o s' st)) s'.
Proof.
  intros H. destruct (holds_bounds o st s H) as (B1 & B2 & Hne).
  apply holds_spec in H. destruct H as (H1 & H2 & _).
  apply holds_spec. unfold commit, write. cbn [fst snd sudoku_at bitmap_at].
  splits.
  - rewrite nth_error_upd by assumption. rewrite nth_error_upd_same, H1. reflexivity.
  - rewrite nth_error_upd_same, nth_error_upd by congruence. rewrite H2. reflexivity.
  - destruct s'; reflexivity.
Qed.

Lemma sim_in_place (f : Solver -> res Solver) (o : object) (st : store) (s : Solver) :
  holds o st s ->
  sim (fun s' '(o', st') =>
         holds o' st' s' /\ sudoku_at o' = sudoku_at o /\ bitmap_at o' = bitmap_at o /\
         length st' = length st /\
         forall k, ~ refs_of o k -> nth_error st' k = nth_error st k)
      (f s) (in_place f o st).
Proof.
  intros H. unfold in_place. rewrite H. cbn [bind].
  destruct (f s) as [s'| |]; cbn [bind sim]; auto.
  pose proof (holds_commit o st s s' H) as Hc.
  destruct (commit o s' st) as [o' st'] eqn:E. cbn [fst snd] in Hc.
  unfold commit in E. injection E as <- <-. splits; auto.
  - unfold write. now rewrite !length_upd.
  - intros k Hk. unfold write, refs_of in *.
    rewrite !nth_error_upd by tauto. reflexivity.
Qed.

Lemma frame_weaken (n n' : nat) (A A' : ref -> Prop) (st st' : store) :
  frame n' A' st st' ->
  (forall k, writable n' A' k -> k < length st' -> writable n A k) ->
  frame n A st st'.
Proof.
  intros [L F] H. split; [assumption|]. intros k Hk.
  destruct (Nat.lt_ge_cases k (length st')) as [Hlt|Hge].
  - apply F. intros Hw. apply Hk. now apply H.
  - rewrite (proj2 (nth_error_None st' k) Hge).
    symmetry. apply nth_error_None. lia.
Qed.

Lemma holds_scalars (o o' : object) (st : store) (s s' : Solver) :
  holds o st s ->
  sudoku_at o' = sudoku_at o -> bitmap_at o' = bitmap_at o ->
  sudoku s' = sudoku s -> bitmap s' = bitmap s ->
  callback s' = o_callback o' -> visualize s' = o_visualize o' ->
  attempts s' = o_attempts o' -> backtrack_count s' = o_backtrack_count o' ->
  emitted s' = o_emitted o' -> calls s' = o_calls o' ->
  holds o' st s'.
Proof.
  intros H E1 E2 E3 E4 F1 F2 F3 F4 F5 F6. apply holds_spec in H.
  destruct H as (H1 & H2 & _). apply holds_spec.
  rewrite E1, E2, E3, E4. splits; auto.
  destruct s'; simpl in *. congruence.
Qed.

Lemma sim_try_numbers (n : nat) (A : ref -> Prop)
    (rec : Solver -> res search_result)
    (rec_in : object -> store -> res search_result_in) (i j : nat) :
  (forall o st s, holds o st s ->
     sim (search_sim (length st) (refs_of o) st) (rec s) (rec_in o st)) ->
  forall numbers o st s,
    holds o st s -> owned n A o -> n <= length st ->
    sim (search_sim n A st) (try_numbers rec i j numbers s)
        (try_numbers_in rec_in i j numbers o st).
Proof.
  intros Hrec. induction numbers as [|number rest IH]; intros o st s Hh Ho Hn;
    cbn [try_numbers try_numbers_in].
  - cbn [sim search_sim]. splits; auto. apply frame_refl.
  - pose proof Hh as Hv. unfold holds in Hv. rewrite Hv. cbn [bind].
    destruct (can_place_number s i j number) as [[|]| |]; cbn [bind sim]; auto.
    destruct (holds_bounds o st s Hh) as (B1 & B2 & Hne).
    pose proof (proj1 (holds_spec o st s) Hh) as (G1 & G2 & _).
    unfold copy at 1. rewrite G2. unfold alloc. cbn [bind].
    set (st1 := st ++ [BoolArray (bitmap s)]).
    assert (Hh1 : holds o st1 s) by (apply holds_alloc; exact Hh).
    pose proof (proj1 (holds_spec o st1 s) Hh1) as (G1' & _).
    unfold copy at 1. rewrite G1'. unfold alloc. cbn [bind].
    set (st2 := st1 ++ [IntArray (sudoku s)]).
    assert (Hh2 : holds o st2 s) by (apply holds_alloc; exact Hh1).
    assert (L1 : length st1 = S (length st)) by (unfold st1; rewrite length_app; simpl; lia).
    assert (L2 : length st2 = S (S (length st)))
      by (unfold st2; rewrite length_app; simpl; lia).
    assert (Cb : nth_error st2 (length st) = Some (BoolArray (bitmap s))).
    { unfold st2, st1. rewrite nth_error_app1 by (rewrite length_app; simpl; lia).
      rewrite nth_error_app2 by lia. now rewrite Nat.sub_diag. }
    assert (Cs : nth_error st2 (length st1) = Some (IntArray (sudoku s))).
    { unfold st2. rewrite nth_error_app2 by lia. now rewrite Nat.sub_diag. }
    assert (F02 : frame n A st st2).
    { split; [lia|]. intros k Hk. unfold st2, st1.
      assert (k < length st) by (unfold writable in Hk; lia).
      rewrite !nth_error_app1; auto. rewrite length_app. simpl. lia. }
    unfold place_number_in.
    pose proof (sim_in_place (fun s => place_number s i j number) o st2 s Hh2) as S3.
    destruct (place_number s i j number) as [s1| |];
      destruct (in_place _ o st2) as [[o3 st3]| |]; cbn [sim] in S3; try contradiction;
      cbn [bind sim]; auto.
    destruct S3 as (Hh3 & E3s & E3b & L3 & K3).
    unfold trivial_moves_in.
    pose proof (sim_in_place trivial_moves o3 st3 s1 Hh3) as S4.
    destruct (trivial_moves s1) as [s2| |];
      destruct (in_place _ o3 st3) as [[o4 st4]| |]; cbn [sim] in S4; try contradiction;
      cbn [bind sim]; auto.
    destruct S4 as (Hh4 & E4s & E4b & L4 & K4).
    assert (R4 : forall k, refs_of o4 k <-> refs_of o k).
    { intros k. unfold refs_of. rewrite E4s, E4b, E3s, E3b. tauto. }
    assert (K24 : forall k, ~ refs_of o k -> nth_error st4 k = nth_error st2 k).
    { intros k Hk. rewrite K4, K3; auto. unfold refs_of in *. rewrite E3s, E3b. exact Hk. }
    assert (F24 : frame n A st2 st4).
    { split; [lia|]. intros k Hk. apply K24. intros [->| ->]; apply Hk; apply Ho. }
    pose proof (Hrec o4 st4 s2 Hh4) as S5.
    destruct (rec s2) as [[r s3]| |];
      destruct (rec_in o4 st4) as [[[rr o5] st5]| |]; cbn [sim] in S5; try contradiction;
      cbn [bind sim]; auto.
    destruct S5 as (Hh5 & F5 & Ho5 & Hr).
    assert (W5 : forall k, writable (length st4) (refs_of o4) k -> writable n A k).
    { intros k [Hk|Hk]; [left; lia|]. apply R4 in Hk.
      destruct Hk as [->| ->]; apply Ho. }
    assert (F45 : frame n A st4 st5).
    { apply (frame_weaken n (length st4) A (refs_of o4)); auto. }
    assert (F05 : frame n A st st5).
    { eapply frame_trans; [exact F02|]. eapply frame_trans; eassumption. }
    assert (Ho5' : owned n A o5) by (split; apply W5; apply Ho5).
    destruct r as [g|], rr as [k|]; try contradiction.
    + cbn [sim search_sim]. splits; auto; apply Hr.
    + assert (Keep : forall k, k < length st2 -> ~ refs_of o k ->
                       nth_error st5 k = nth_error st2 k).
      { intros k Hk Hnk. destruct F5 as [_ F5]. rewrite F5, K24; auto.
        intros [Hw|Hw]; [lia|]. apply R4 in Hw. contradiction. }
      set (o6 := rebind (set_counters o5 (o_attempts o5) (o_backtrack_count o5 + 1))
                        (length st1) (length st)).
      set (s4 := with_arrays (with_counters s3 (attempts s3) (backtrack_count s3 + 1))
                             (sudoku s) (bitmap s)).
      assert (Hh6 : holds o6 st5 s4).
      { apply holds_spec. cbn [o6 s4 rebind sudoku_at bitmap_at with_arrays sudoku bitmap].
        rewrite !Keep; try lia; unfold refs_of; try lia.
        apply holds_spec in Hh5. destruct Hh5 as (_ & _ & E5).
        splits; auto. unfold s4, o6. rewrite E5. reflexivity. }
      assert (Ho6 : owned n A o6) by (split; left; simpl; lia).
      assert (L5 : n <= length st5) by (destruct F05; lia).
      pose proof (IH o6 st5 s4 Hh6 Ho6 L5) as S6.
      destruct (try_numbers rec i j rest s4) as [[r' s']| |];
        destruct (try_numbers_in rec_in i j rest o6 st5) as [[[rr' o'] st']| |];
        cbn [sim] in S6 |- *; auto.
      destruct S6 as (Hh' & F' & Ho' & Hr'). cbn [search_sim]. splits; auto.
      eapply frame_trans; eassumption.
Qed.

Lemma sim_impl {X Y : Type} (R R' : X -> Y -> Prop) (a : res X) (b : res Y) :
  sim R a b -> (forall x y, R x y -> R' x y) -> sim R' a b.
Proof.
  destruct a, b; cbn [sim]; auto.
Qed.

Lemma holds_fields (o : object) (st : store) (s : Solver) :
  holds o st s ->
  callback s = o_callback o /\ visualize s = o_visualize o /\
  attempts s = o_attempts o /\ backtrack_count s = o_backtrack_count o /\
  emitted s = o_emitted o /\ calls s = o_calls o.
Proof.
  intros H. apply holds_spec in H. destruct H as (_ & _ & E).
  rewrite E. simpl. tauto.
Qed.

Lemma reading_holds {X : Type} (f : Solver -> X) (o : object) (st : store) (s : Solver) :
  holds o st s -> reading f o st = Ok (f s).
Proof. intros H. unfold reading. now rewrite H. Qed.

Lemma owned_self (n : nat) (o o' : object) :
  sudoku_at o' = sudoku_at o -> bitmap_at o' = bitmap_at o ->
  owned n (refs_of o) o'.
Proof. intros E1 E2. split; right; unfold refs_of; auto. Qed.

Lemma sim_advanced_backtrack (fuel : nat) :
  forall o st s, holds o st s ->
    sim (search_sim (length st) (refs_of o) st)
        (advanced_backtrack fuel s) (advanced_backtrack_in fuel o st).
Proof.
  induction fuel as [|fuel IH]; intros o st s Hh; [exact I|].
  cbn [advanced_backtrack advanced_backtrack_in].
  assert (Hhe : holds (enter_in o) st (enter s)).
  { destruct (holds_fields o st s Hh) as (E1 & E2 & E3 & E4 & E5 & E6).
    apply (holds_scalars o _ st s); simpl; auto. congruence. }
  rewrite (reading_holds is_solved _ st _ Hhe). cbn [bind].
  destruct (is_solved (enter s)).
  - cbn [sim search_sim]. splits; auto.
    + apply frame_refl.
    + now apply owned_self.
  - rewrite (reading_holds advanced_least_options_cell _ st _ Hhe). cbn [bind].
    destruct (advanced_least_options_cell (enter s)) as [[i j]|e|]; cbn [sim]; auto.
    + rewrite (reading_holds (fun s => smart_number_ordering s i j) _ st _ Hhe).
      cbn [bind].
      apply (sim_try_numbers (length st) (refs_of o) _ _ i j IH); auto.
      now apply owned_self.
    + destruct e; cbn [sim]; auto.
      cbn [search_sim]. splits; auto.
      * apply frame_refl.
      * now apply owned_self.
Qed.

(** The non-streaming solve of the two models. *)
Lemma sim_solve (o : object) (st : store) (s : Solver) :
  holds o st s ->
  sim (search_sim (length st) (refs_of o) st)
      (solve_with_visualization s false) (solve_with_visualization_in o false st).
Proof.
  intros Hh. unfold solve_with_visualization, solve_with_visualization_in.
  rewrite (reading_holds (fun s => count_empty (sudoku s)) o st s Hh). cbn [bind].
  unfold solve_fuel, solve_fuel_in.
  set (o1 := set_counters (set_visualize o false) 0 0).
  set (s1 := with_counters (with_visualize s false) 0 0).
  assert (Hh1 : holds o1 st s1).
  { destruct (holds_fields o st s Hh) as (E1 & E2 & E3 & E4 & E5 & E6).
    apply (holds_scalars o _ st s); simpl; auto. }
  pose proof (sim_advanced_backtrack (S (count_empty (sudoku s))) o1 st s1 Hh1) as Hsim.
  destruct (advanced_backtrack _ s1) as [[r s']| |];
    destruct (advanced_backtrack_in _ o1 st) as [[[rr o'] st']| |]; exact Hsim.
Qed.

Lemma sim_init_cells (n : nat) (input : ref) (g : Grid) (l : list (nat * nat)) :
  forall o st s,
    holds o st s -> owned n nothing o -> n <= length st ->
    input < n -> nth_error st input = Some (IntArray g) ->
    sim (fun s' '(o', st') =>
           holds o' st' s' /\ frame n nothing st st' /\ owned n nothing o')
        (foldM (init_cell g) l s) (foldM (init_cell_in input) l (o, st)).
Proof.
  induction l as [|[i j] l IH]; intros o st s Hh Ho Hn Hin Hg; cbn [foldM].
  - cbn [sim]. splits; auto. apply frame_refl.
  - unfold init_cell at 1, init_cell_in at 1. unfold read_int. rewrite Hg. cbn [bind].
    destruct (read_cell g i j) as [v| |]; cbn [bind sim]; auto.
    assert (Hstep : forall o1 st1 s1,
              holds o1 st1 s1 -> frame n nothing st st1 -> owned n nothing o1 ->
              sim (fun s' '(o', st') =>
                     holds o' st' s' /\ frame n nothing st st' /\ owned n nothing o')
                  (foldM (init_cell g) l s1) (foldM (init_cell_in input) l (o1, st1))).
    { intros o1 st1 s1 Hh1 F1 Ho1.
      assert (L1 : n <= length st1) by (destruct F1; lia).
      assert (Hg1 : nth_error st1 input = Some (IntArray g))
        by (rewrite (frame_below n st st1 input F1 Hin); exact Hg).
      pose proof (IH o1 st1 s1 Hh1 Ho1 L1 Hin Hg1) as Hsim.
      destruct (foldM (init_cell g) l s1) as [s'| |];
        destruct (foldM (init_cell_in input) l (o1, st1)) as [[o' st']| |];
        cbn [sim] in Hsim |- *; auto.
      destruct Hsim as (H1 & H2 & H3). splits; auto. eapply frame_trans; eassumption. }
    destruct (negb (v =? 0)%Z).
    + unfold place_number_in.
      pose proof (sim_in_place (fun s => place_number s i j v) o st s Hh) as S1.
      destruct (place_number s i j v) as [s1| |];
        destruct (in_place _ o st) as [[o1 st1]| |] eqn:Hp; cbn [sim] in S1;
        try contradiction; cbn [bind sim]; auto.
      destruct S1 as (Hh1 & _).
      destruct (frame_in_place n nothing _ o o1 st st1 Ho Hp) as (F1 & Ho1).
      apply Hstep; assumption.
    + cbn [bind]. apply Hstep; auto. apply frame_refl.
Qed.

(** The constructor of the two models, on a caller's array that holds [g]. *)
Lemma sim_SudokuSolver (input : ref) (g : Grid) (cb : bool) (st : store) :
  nth_error st input = Some (IntArray g) ->
  sim (fun s '(o, st') =>
         holds o st' s /\ frame (length st) nothing st st' /\ owned (length st) nothing o)
      (SudokuSolver g cb) (SudokuSolver_in input cb st).
Proof.
  intros Hg. unfold SudokuSolver, SudokuSolver_in, alloc. cbv beta iota zeta.
  assert (Hin : input < length st) by (apply nth_error_Some; congruence).
  set (st2 := (st ++ [BoolArray ones999]) ++ [IntArray zeros99]).
  set (o := mkObject (length (st ++ [BoolArray ones999])) (length st) cb false 0 0 [] 0).
  assert (L2 : length st2 = S (S (length st)))
    by (unfold st2; rewrite !length_app; simpl; lia).
  assert (Hh : holds o st2 (init_state cb)).
  { apply holds_spec. unfold o, st2, init_state. cbn [sudoku_at bitmap_at sudoku bitmap].
    splits; auto.
    - rewrite nth_error_app2 by lia. now rewrite Nat.sub_diag.
    - rewrite nth_error_app1 by (rewrite length_app; simpl; lia).
      rewrite nth_error_app2 by lia. now rewrite Nat.sub_diag. }
  assert (Ho : owned (length st) nothing o)
    by (split; left; unfold o; simpl; rewrite ?length_app; simpl; lia).
  assert (F02 : frame (length st) nothing st st2).
  { split; [lia|]. intros k Hk. unfold st2. rewrite <- app_assoc.
    apply nth_error_app1. unfold writable, nothing in Hk. lia. }
  assert (Hg2 : nth_error st2 input = Some (IntArray g))
    by (rewrite (frame_below (length st) st st2 input F02 Hin); exact Hg).
  eapply sim_impl;
    [exact (sim_init_cells (length st) input g cells o st2 (init_state cb)
              Hh Ho ltac:(lia) Hin Hg2)|].
  intros s' [o' st'] (H1 & H2 & H3). splits; auto. eapply frame_trans; eassumption.
Qed.

Lemma sim_bind {X Y X' Y' : Type} (R : X -> Y -> Prop) (R' : X' -> Y' -> Prop)
    (a : res X) (b : res Y) (k : X -> res X') (k' : Y -> res Y') :
  sim R a b -> (forall x y, R x y -> sim R' (k x) (k' y)) ->
  sim R' (bind a k) (bind b k').
Proof.
  destruct a, b; cbn [sim bind]; auto; try contradiction.
Qed.

(** An attempt of the generator in the two models: the store model binds
    [puzzle] to an array that holds the puzzle of the state-passing model,
    and the results of the two re-solves agree. *)
Lemma sim_generation_attempt (shuffled : list (nat * nat)) (diff_param : float)
    (st : store) :
  sim (fun '(p, r) '(puzzle, rr, st') =>
         nth_error st' puzzle = Some (IntArray p) /\
         match r, rr with
         | Some g, Some k => nth_error st' k = Some (IntArray g)
         | None, None => True
         | _, _ => False
         end)
      (generation_attempt shuffled diff_param)
      (generation_attempt_in shuffled diff_param st).
Proof.
  unfold generation_attempt, generation_attempt_in, alloc. cbv zeta.
  set (st0 := st ++ [IntArray zeros99]).
  assert (G0 : nth_error st0 (length st) = Some (IntArray zeros99)).
  { unfold st0. rewrite nth_error_app2 by lia. now rewrite Nat.sub_diag. }
  eapply sim_bind; [apply (sim_SudokuSolver (length st) zeros99 false st0 G0)|].
  intros s0 [o0 st1] (Hh0 & _ & _).
  eapply sim_bind; [apply (sim_solve o0 st1 s0 Hh0)|].
  intros [r1 s1] [[rr1 o1] st2] (Hh1 & _ & _ & _).
  pose proof (proj1 (holds_spec o1 st2 s1) Hh1) as (G1 & _).
  unfold copy. rewrite G1. unfold alloc. cbn [bind].
  destruct (remove_count diff_param) as [n| |]; cbn [bind sim]; auto.
  set (st3 := st2 ++ [IntArray (sudoku s1)]).
  assert (G3 : nth_error st3 (length st2) = Some (IntArray (sudoku s1))).
  { unfold st3. rewrite nth_error_app2 by lia. now rewrite Nat.sub_diag. }
  unfold remove_cells_in, read_int. rewrite G3. cbn [bind].
  set (p := remove_cells (sudoku s1) (take_py n shuffled)).
  set (st4 := write (length st2) (IntArray p) st3).
  assert (L3 : length st2 < length st3) by (unfold st3; rewrite length_app; simpl; lia).
  assert (G4 : nth_error st4 (length st2) = Some (IntArray p)).
  { unfold st4, write. rewrite nth_error_upd_same, G3. reflexivity. }
  assert (L4 : length st2 < length st4) by (unfold st4, write; now rewrite length_upd).
  unfold verify_in.
  pose proof (sim_SudokuSolver (length st2) p false st4 G4) as S5.
  destruct (SudokuSolver p false) as [ts| |];
    destruct (SudokuSolver_in (length st2) false st4) as [[to st5]| |];
    cbn [sim] in S5; try contradiction; cbn [bind sim]; auto.
  destruct S5 as (Hh5 & F5 & Ho5).
  pose proof (sim_solve to st5 ts Hh5) as S6.
  pose proof (frame_solve (length st4) nothing to false st5) as F6.
  destruct (solve_with_visualization ts false) as [[r s']| |];
    destruct (solve_with_visualization_in to false st5) as [[[rr o'] st6]| |];
    cbn [sim] in S6; try contradiction; cbn [bind sim]; auto.
  destruct S6 as (Hh6 & _ & _ & Hr).
  destruct (F6 _ Ho5 ltac:(destruct F5; lia) eq_refl) as (F6' & _).
  split.
  - rewrite (frame_below (length st4) st5 st6 _ F6' L4).
    rewrite (frame_below (length st4) st4 st5 _ F5 L4). exact G4.
  - destruct r as [g|], rr as [k|]; auto.
    destruct Hr as [-> ->]. apply holds_spec in Hh6. apply Hh6.
Qed.

Lemma solver_leaves_input_alone_witness :
  (nth_error example_store_built 0 = nth_error example_store 0 /\
   nth_error (snd example_solved) 0 = nth_error example_store 0) /\
  (forall k, k < length example_store ->
     nth_error example_store_built k = nth_error example_store k /\
     nth_error (snd example_solved) k = nth_error example_store k) /\
  (0 <> sudoku_at example_object /\ 0 <> sudoku_at (snd (fst example_solved))) /\
  (forall puzzle stp result stq,
     puzzle < length stp -> verify_in puzzle stp = Ok (result, stq) ->
     nth_error stq puzzle = nth_error stp puzzle).
Proof.
  apply (solver_leaves_input_alone example_store 0 true true example_object
           (snd (fst example_solved)) example_store_built (snd example_solved)
           (fst (fst example_solved))).
  - vm_compute. lia.
  - vm_compute. reflexivity.
  - vm_compute. reflexivity.
Defined.

(** ** The attempts counter in the two modes *)

(** On every puzzle the solve returns; with visualisation [attempts] is then
    the number of calls of the search, without it [attempts] is 0 however
    often the search was called. *)
Lemma attempts_by_mode (input : Grid) (cb vis : bool) :
  wf_grid input -> digits_grid input ->
  exists s0 r s',
    SudokuSolver input cb = Ok s0 /\
    solve_with_visualization s0 vis = Ok (r, s') /\
    (calls s0 < calls s')%Z /\
    attempts s' = (if vis then calls s' - calls s0 else 0)%Z.
Proof.
  intros Hin Hdig.
  destruct (SudokuSolver_spec cb Hin Hdig) as (s0 & Hs0 & [Hwf Hcl _ _] & _ & _).
  exists s0. unfold solve_with_visualization, solve_fuel.
  set (s1 := with_counters (with_visualize s0 vis) 0 0).
  assert (Hwf1 : wf s1) by (apply (wf_arrays (s:=s0)); auto).
  assert (Hcl1 : filled_closed s1) by (apply (filled_closed_arrays (s:=s0)); auto).
  assert (Hfuel : count_empty (sudoku s1) < S (count_empty (sudoku s0)))
    by (simpl; lia).
  destruct vis.
  - destruct (@advanced_backtrack_visualize_total (fun _ => True)
                (fun _ _ _ _ _ => I) (fun _ _ _ _ _ _ _ _ _ _ _ _ => I)
                (fun _ _ _ _ _ _ _ _ _ _ => I)
                (S (count_empty (sudoku s0))) s1 I Hwf1 Hcl1 Hfuel)
      as (r & s' & Hr & Hpost).
    exists r, s'. destruct Hpost as (_ & _ & _ & Ha & Hc & _).
    simpl in Ha, Hc. splits; auto; lia.
  - destruct (@advanced_backtrack_total (fun _ => True)
                (fun _ _ => I) (fun _ _ _ _ _ _ _ _ _ _ _ _ => I)
                (fun _ _ _ _ _ _ _ _ _ _ => I) (fun _ _ _ _ => I)
                (S (count_empty (sudoku s0))) s1 I Hwf1 Hcl1 Hfuel)
      as (r & s' & Hr & Hpost).
    exists r, s'. destruct Hpost as (_ & _ & _ & Ha & _ & Hc & _).
    simpl in Ha, Hc. splits; auto.
Qed.

(** * More of the solver and of the generator *)

(** ** Completions and candidates *)

Lemma carries_arrays (g : Grid) (s s' : Solver) :
  sudoku s' = sudoku s -> bitmap s' = bitmap s -> carries g s -> carries g s'.
Proof. unfold carries, sub_grid. intros -> ->. auto. Qed.

Lemma carries_place (g : Grid) (s s' : Solver) (i j : nat) :
  solution g -> wf s -> carries g s -> i < 9 -> j < 9 ->
  place_number s i j (get_cell g i j) = Ok s' -> carries g s'.
Proof.
  intros (Hwg & Hdig & Hun) Hwf [Hsub Hopen] Hi Hj Hp.
  destruct (@place_number_spec s i j (get_cell g i j) Hwf Hi Hj (Hdig i j Hi Hj))
    as (s1 & Hp1 & _ & Hg & Hb).
  rewrite Hp in Hp1. injection Hp1 as <-.
  split.
  - intros r c Hr Hc. rewrite (Hg r c Hr Hc).
    destruct ((r =? i) && (c =? j)) eqn:E.
    + right. b2p. destruct E; subst; reflexivity.
    + apply Hsub; assumption.
  - intros r c Hr Hc. rewrite (Hg r c Hr Hc), Hb.
    destruct ((r =? i) && (c =? j)) eqn:E.
    + intros Hz. specialize (Hdig i j Hi Hj). lia.
    + intros Hz.
      destruct (cleared i j (Z.to_nat (get_cell g i j - 1)) r c
                  (Z.to_nat (get_cell g r c - 1))) eqn:Hcl; [|apply Hopen; assumption].
      apply cleared_true in Hcl; auto.
      destruct Hcl as [[-> ->]|[Hk Hpeer]].
      * rewrite !Nat.eqb_refl in E. discriminate.
      * exfalso.
        pose proof (Hdig i j Hi Hj). pose proof (Hdig r c Hr Hc).
        apply (Hun i j r c Hi Hj Hr Hc); [|exact Hpeer|lia|lia].
        intros [= -> ->]. rewrite !Nat.eqb_refl in E. discriminate.
Qed.

Lemma argmax_bool_only (l : list bool) (k : nat) :
  sum_bool l = 1%Z -> nth k l false = true -> argmax_bool l = k.
Proof.
  unfold sum_bool, count. revert k.
  induction l as [|b t IH]; intros k Hs Hk.
  - destruct k; discriminate.
  - destruct b; cbn [filter length argmax_bool] in *.
    + destruct k as [|k]; [reflexivity|]. exfalso. cbn [nth] in Hk.
      assert (Hin : In true (filter (fun b => b) t)).
      { apply filter_In. split; [|reflexivity].
        rewrite <- Hk. apply nth_In.
        destruct (Nat.lt_ge_cases k (length t)) as [|Hge]; [assumption|].
        rewrite nth_overflow in Hk by assumption. discriminate. }
      destruct (filter (fun b => b) t); [destruct Hin|simpl in Hs; lia].
    + destruct k as [|k]; [discriminate|]. cbn [nth] in Hk.
      rewrite (IH k Hs Hk).
      replace (existsb (fun b => b) t) with true; [reflexivity|].
      symmetry. apply existsb_exists. exists true. split; [|reflexivity].
      rewrite <- Hk. apply nth_In.
      destruct (Nat.lt_ge_cases k (length t)) as [|Hge]; [assumption|].
      rewrite nth_overflow in Hk by assumption. discriminate.
Qed.

Lemma carries_forced (g : Grid) (s : Solver) (i j : nat) :
  solution g -> carries g s -> i < 9 -> j < 9 -> is_trivial_cell s i j = true ->
  forced_number s i j = get_cell g i j.
Proof.
  intros (_ & Hdig & _) [Hsub Hopen] Hi Hj Ht.
  unfold is_trivial_cell in Ht. b2p. destruct Ht as [Hz Hs].
  pose proof (Hopen i j Hi Hj Hz) as Hbit. unfold get_bit in Hbit.
  unfold forced_number. rewrite (argmax_bool_only _ _ Hs Hbit).
  specialize (Hdig i j Hi Hj). lia.
Qed.

Lemma carries_forced_steps (g : Grid) (s s' : Solver) :
  solution g -> forced_steps s s' -> wf s -> carries g s -> carries g s'.
Proof.
  intros Hsol. induction 1 as [|s i j s1 s' Hi Hj Ht Hp Hs IH]; auto.
  intros Hwf Hc. apply IH; [eapply wf_place_number; eassumption|].
  rewrite (carries_forced g s i j Hsol Hc Hi Hj Ht) in Hp.
  exact (carries_place g s s1 i j Hsol Hwf Hc Hi Hj Hp).
Qed.

(** ** The first maximum of a list of floats *)

Lemma impact_values_order : order_check impact_values = true.
Proof. vm_compute. reflexivity. Qed.

Lemma order_check_spec (U : list float) :
  order_check U = true ->
  forall x y z, In x U -> In y U -> In z U ->
    (x <? x)%float = false /\
    ((x <? y)%float = true -> (y <? z)%float = true -> (x <? z)%float = true) /\
    ((x <? y)%float = false -> (x <? z)%float = true -> (y <? z)%float = true).
Proof.
  unfold order_check. rewrite forallb_forall. intros H x y z Hx Hy Hz.
  specialize (H x Hx). apply andb_true_iff in H. destruct H as [H1 H2].
  rewrite forallb_forall in H2. specialize (H2 y Hy).
  rewrite forallb_forall in H2. specialize (H2 z Hz).
  apply andb_true_iff in H2. destruct H2 as [H2 H3].
  destruct (x <? x)%float, (x <? y)%float, (y <? z)%float, (x <? z)%float;
    simpl in *; try discriminate; auto.
Qed.

Lemma argmax_from_spec (U : list float) (d : float) :
  order_check U = true ->
  forall t pre best_idx,
    (forall x, In x (pre ++ t) -> In x U) ->
    best_idx < length pre ->
    (forall k, k < length pre -> (nth best_idx pre d <? nth k pre d)%float = false) ->
    (forall k, k < best_idx -> (nth k pre d <? nth best_idx pre d)%float = true) ->
    argmax_from t (length pre) best_idx (nth best_idx pre d) < length (pre ++ t) /\
    (forall k, k < length (pre ++ t) ->
       (nth (argmax_from t (length pre) best_idx (nth best_idx pre d)) (pre ++ t) d
        <? nth k (pre ++ t) d)%float = false) /\
    (forall k, k < argmax_from t (length pre) best_idx (nth best_idx pre d) ->
       (nth k (pre ++ t) d
        <? nth (argmax_from t (length pre) best_idx (nth best_idx pre d)) (pre ++ t) d)%float
       = true).
Proof.
  intros Hord. induction t as [|x t IH]; intros pre bi HU Hbi Hmax Hfirst.
  - cbn [argmax_from]. rewrite app_nil_r. auto.
  - cbn [argmax_from].
    assert (Epre : pre ++ x :: t = (pre ++ [x]) ++ t) by (rewrite <- app_assoc; reflexivity).
    assert (Elen : length (pre ++ [x]) = S (length pre)) by (rewrite length_app; simpl; lia).
    assert (Ex : nth (length pre) (pre ++ [x]) d = x).
    { rewrite app_nth2 by lia. rewrite Nat.sub_diag. reflexivity. }
    assert (Eold : forall k, k < length pre -> nth k (pre ++ [x]) d = nth k pre d)
      by (intros k Hk; apply app_nth1; exact Hk).
    assert (Uin : forall k, k < length pre -> In (nth k pre d) U).
    { intros k Hk. apply HU. apply in_or_app. left. apply nth_In. exact Hk. }
    assert (Ux : In x U) by (apply HU; apply in_or_app; right; left; reflexivity).
    rewrite Epre in *.
    destruct (nth bi pre d <? x)%float eqn:Hlt.
    + specialize (IH (pre ++ [x]) (length pre)). rewrite Elen, Ex in IH.
      apply IH; clear IH.
      * exact HU.
      * lia.
      * intros k Hk. destruct (Nat.eq_dec k (length pre)) as [->|Hne].
        -- rewrite Ex. apply (order_check_spec U Hord x x x Ux Ux Ux).
        -- rewrite Eold by lia.
           destruct (x <? nth k pre d)%float eqn:Hxk; [|reflexivity].
           pose proof (order_check_spec U Hord (nth bi pre d) x (nth k pre d)
                         (Uin bi Hbi) Ux (Uin k ltac:(lia))) as (_ & Htr & _).
           pose proof (Htr Hlt Hxk) as C. rewrite (Hmax k ltac:(lia)) in C.
           discriminate.
      * intros k Hk. rewrite Eold by lia.
        pose proof (order_check_spec U Hord (nth bi pre d) (nth k pre d) x
                      (Uin bi Hbi) (Uin k Hk) Ux) as (_ & _ & Hnt).
        apply Hnt; [apply Hmax; exact Hk|exact Hlt].
    + specialize (IH (pre ++ [x]) bi). rewrite Elen, (Eold bi Hbi) in IH.
      apply IH; clear IH.
      * exact HU.
      * lia.
      * intros k Hk. destruct (Nat.eq_dec k (length pre)) as [->|Hne].
        -- rewrite Ex. exact Hlt.
        -- rewrite Eold by lia. apply Hmax. lia.
      * intros k Hk. rewrite Eold by lia. apply Hfirst. exact Hk.
Qed.

Lemma argmax_float_spec (U : list float) (d : float) (l : list float) :
  order_check U = true -> (forall x, In x l -> In x U) -> l <> [] ->
  argmax_float l < length l /\
  (forall k, k < length l -> (nth (argmax_float l) l d <? nth k l d)%float = false) /\
  (forall k, k < argmax_float l -> (nth k l d <? nth (argmax_float l) l d)%float = true).
Proof.
  intros Hord HU Hne. destruct l as [|x t]; [congruence|]. cbn [argmax_float].
  pose proof (argmax_from_spec U d Hord t [x] 0) as H. cbn [length nth app] in H.
  apply H; clear H.
  - exact HU.
  - lia.
  - intros k Hk. replace k with 0 by lia.
    apply (order_check_spec U Hord x x x); apply HU; left; reflexivity.
  - intros k Hk. lia.
Qed.

(** ** The cell heuristic *)

Lemma impact_quotients_above :
  forallb (fun v => (float_of_Z (-1) <? v)%float) impact_quotients = true.
Proof. vm_compute. reflexivity. Qed.

Lemma map_combine_map {A B C D : Type} (f : B * C -> D) (g : A -> B) (h : A -> C)
    (l : list A) :
  map f (combine (map g l) (map h l)) = map (fun x => f (g x, h x)) l.
Proof. induction l as [|x t IH]; simpl; [reflexivity|]. now rewrite IH. Qed.

Lemma masked_impact_map (s : Solver) : masked_impact s = map (masked_score s) cells.
Proof.
  unfold masked_impact, impact_matrix, empty_cells_mask.
  rewrite map_combine_map. apply map_ext. intros [i j]. unfold masked_score.
  destruct (get_cell (sudoku s) i j =? 0)%Z; reflexivity.
Qed.

Lemma length_concat_le {A B : Type} (f : A -> list B) (n : nat) (l : list A) :
  (forall x, length (f x) <= n) -> length (concat (map f l)) <= n * length l.
Proof.
  intros H. induction l as [|x t IH]; simpl; [lia|].
  rewrite length_app. specialize (H x). lia.
Qed.

Lemma length_slice {A : Type} (a n : nat) (l : list A) : length (slice a n l) <= n.
Proof. unfold slice. rewrite length_firstn. lia. Qed.

Lemma count_nonzero_bound (l : list Z) (n : nat) :
  length l <= n -> (0 <= count_nonzero l <= Z.of_nat n)%Z.
Proof.
  intros H. unfold count_nonzero, count.
  pose proof (filter_length_le (fun v => negb (v =? 0)%Z) l). lia.
Qed.

Lemma impact_score_value (s : Solver) (i j : nat) :
  wf s -> i < 9 -> j < 9 -> In (impact_score s i j) impact_quotients.
Proof.
  intros [[Hg1 Hg2] (Hb1 & Hb2 & Hb3)] Hi Hj. unfold impact_score. cbv zeta.
  assert (Hrow : (0 <= count_nonzero (row_of (sudoku s) i) <= 9)%Z).
  { apply (count_nonzero_bound _ 9). unfold row_of. rewrite Hg2 by assumption. lia. }
  assert (Hcol : (0 <= count_nonzero (col_of (sudoku s) j) <= 9)%Z).
  { apply (count_nonzero_bound _ 9). unfold col_of. rewrite length_map. lia. }
  assert (Hbox : (0 <= count_nonzero (box_of (sudoku s) (i / 3 * 3) (j / 3 * 3)) <= 9)%Z).
  { apply (count_nonzero_bound _ 9). unfold box_of.
    pose proof (length_concat_le (slice (j / 3 * 3) 3) 3
                  (slice (i / 3 * 3) 3 (sudoku s)) (length_slice _ 3)).
    pose proof (length_slice (i / 3 * 3) 3 (sudoku s)). lia. }
  assert (Hopt : (0 <= sum_bool (get_cand (bitmap s) i j) <= 9)%Z).
  { unfold sum_bool, count.
    pose proof (filter_length_le (fun b => b) (get_cand (bitmap s) i j)).
    rewrite (Hb3 i j Hi Hj) in H. lia. }
  set (a := (9 - count_nonzero (row_of (sudoku s) i) + (9 - count_nonzero (col_of (sudoku s) j))
             + (9 - count_nonzero (box_of (sudoku s) (i / 3 * 3) (j / 3 * 3))))%Z).
  set (b := sum_bool (get_cand (bitmap s) i j)).
  unfold impact_quotients. apply in_flat_map.
  exists (Z.to_nat a). split.
  - unfold range. apply in_seq. unfold a. lia.
  - apply in_map_iff. exists (Z.to_nat b). split.
    + rewrite !Z2Nat.id by (unfold a, b; lia). reflexivity.
    + unfold range. apply in_seq. unfold b. lia.
Qed.

Lemma masked_score_value (s : Solver) (i j : nat) :
  wf s -> i < 9 -> j < 9 -> In (masked_score s (i, j)) impact_values.
Proof.
  intros Hwf Hi Hj. unfold masked_score, impact_values.
  destruct (get_cell (sudoku s) i j =? 0)%Z; [right|left; reflexivity].
  apply impact_score_value; assumption.
Qed.

Lemma nth_cells (k : nat) : k < 81 -> nth k cells (0, 0) = (k / 9, k mod 9).
Proof.
  intros Hk.
  assert (H : forallb (fun k => let '(i, j) := nth k cells (0, 0) in
                                 (i =? k / 9) && (j =? k mod 9)) (range 81) = true)
    by (vm_compute; reflexivity).
  rewrite forallb_forall in H. specialize (H k).
  destruct (nth k cells (0, 0)) as [i j].
  assert (Hin : In k (range 81)) by (unfold range; apply in_seq; lia).
  specialize (H Hin). b2p. destruct H; congruence.
Qed.

Lemma cell_index (i j : nat) : i < 9 -> j < 9 -> nth (i * 9 + j) cells (0, 0) = (i, j).
Proof.
  intros Hi Hj. rewrite nth_cells by lia. f_equal; lia.
Qed.

Lemma mask_exists (s : Solver) :
  existsb (fun m => m) (empty_cells_mask s) = true <->
  exists i j, i < 9 /\ j < 9 /\ get_cell (sudoku s) i j = 0%Z.
Proof.
  unfold empty_cells_mask. rewrite existsb_exists. split.
  - intros (m & Hin & ->). apply in_map_iff in Hin. destruct Hin as ([i j] & E & Hc).
    apply In_cells in Hc. exists i, j. b2p. tauto.
  - intros (i & j & Hi & Hj & Hz). exists true. split; [|reflexivity].
    apply in_map_iff. exists (i, j). split; [|apply In_cells; auto].
    b2p. exact Hz.
Qed.

Lemma In_concat_grid (g : Grid) (v : Z) :
  wf_grid g -> (In v (concat g) <-> exists i j, i < 9 /\ j < 9 /\ get_cell g i j = v).
Proof.
  intros [Hl Hr]. rewrite in_concat. split.
  - intros (row & Hrow & Hv).
    destruct (In_nth g row [] Hrow) as (i & Hi & Ei).
    rewrite <- Ei in Hv.
    destruct (In_nth _ v 0%Z Hv) as (j & Hj & Ej).
    rewrite Hr in Hj by lia. exists i, j. unfold get_cell. splits; auto; lia.
  - intros (i & j & Hi & Hj & E). exists (nth i g []). split.
    + apply nth_In. lia.
    + rewrite <- E. unfold get_cell. apply nth_In. rewrite Hr; assumption.
Qed.

Lemma count_empty_zero (g : Grid) :
  wf_grid g ->
  (count_empty g = 0 <-> forall i j, i < 9 -> j < 9 -> get_cell g i j <> 0%Z).
Proof.
  intros Hwf. unfold count_empty, count. split.
  - intros H i j Hi Hj Hz.
    assert (Hin : In 0%Z (filter (fun v => (v =? 0)%Z) (concat g))).
    { apply filter_In. split; [|reflexivity]. apply In_concat_grid; eauto. }
    destruct (filter (fun v => (v =? 0)%Z) (concat g)); [destruct Hin|discriminate].
  - intros H.
    destruct (filter (fun v => (v =? 0)%Z) (concat g)) as [|v t] eqn:E; [reflexivity|].
    exfalso. assert (Hin : In v (filter (fun v => (v =? 0)%Z) (concat g)))
      by (rewrite E; left; reflexivity).
    apply filter_In in Hin. destruct Hin as [Hin Hz]. b2p. subst v.
    apply In_concat_grid in Hin; [|exact Hwf].
    destruct Hin as (i & j & Hi & Hj & Hz). exact (H i j Hi Hj Hz).
Qed.

Lemma full_mask (s : Solver) :
  wf s ->
  (existsb (fun m => m) (empty_cells_mask s) = false <-> count_empty (sudoku s) = 0).
Proof.
  intros Hwf. rewrite (count_empty_zero (sudoku s) (proj1 Hwf)).
  pose proof (mask_exists s) as Hme. split.
  - intros Hf i j Hi Hj Hz.
    assert (existsb (fun m => m) (empty_cells_mask s) = true)
      by (apply Hme; eauto). congruence.
  - intros Hall. destruct (existsb (fun m => m) (empty_cells_mask s)) eqn:E; auto.
    destruct (proj1 Hme eq_refl) as (i & j & Hi & Hj & Hz).
    destruct (Hall i j Hi Hj Hz).
Qed.

(** On a grid with an empty cell the heuristic returns an empty cell that
    no empty cell beats, the first such in row-major order. *)
Lemma least_options_cell_max (s : Solver) :
  wf s -> count_empty (sudoku s) <> 0 ->
  exists i j, advanced_least_options_cell s = Ok (i, j) /\ i < 9 /\ j < 9 /\
    get_cell (sudoku s) i j = 0%Z /\
    forall r c, r < 9 -> c < 9 -> get_cell (sudoku s) r c = 0%Z ->
      (impact_score s i j <? impact_score s r c)%float = false /\
      (before r c i j -> (impact_score s r c <? impact_score s i j)%float = true).
Proof.
  intros Hwf Hne. pose proof (mask_exists s) as Hme.
  unfold advanced_least_options_cell.
  destruct (existsb (fun m => m) (empty_cells_mask s)) eqn:E;
    [|destruct Hne; now apply full_mask].
  cbn [negb]. destruct (proj1 Hme eq_refl) as (r0 & c0 & Hr0 & Hc0 & Hz0).
  rewrite masked_impact_map.
  set (k := argmax_float (map (masked_score s) cells)).
  assert (HU : forall x, In x (map (masked_score s) cells) -> In x impact_values).
  { intros x Hx. apply in_map_iff in Hx. destruct Hx as ([i j] & <- & Hc).
    apply In_cells in Hc. apply masked_score_value; tauto. }
  destruct (argmax_float_spec impact_values (masked_score s (0, 0))
              (map (masked_score s) cells) impact_values_order HU)
    as (Hk & Hmax & Hfirst); [discriminate|]. fold k in Hk, Hmax, Hfirst.
  rewrite length_map, length_cells in Hk, Hmax.
  assert (Hnth : forall n, nth n (map (masked_score s) cells) (masked_score s (0, 0))
                           = masked_score s (nth n cells (0, 0)))
    by (intros n; apply map_nth).
  rewrite Hnth, (nth_cells k Hk) in Hmax, Hfirst.
  exists (k / 9), (k mod 9). split; [reflexivity|].
  assert (Hi : k / 9 < 9) by lia. assert (Hj : k mod 9 < 9) by lia.
  split; [exact Hi|]. split; [exact Hj|].
  assert (Hempty : forall r c, r < 9 -> c < 9 -> get_cell (sudoku s) r c = 0%Z ->
                     masked_score s (r, c) = impact_score s r c).
  { intros r c _ _ Hz. unfold masked_score. rewrite Hz. reflexivity. }
  assert (Hz : get_cell (sudoku s) (k / 9) (k mod 9) = 0%Z).
  { destruct (get_cell (sudoku s) (k / 9) (k mod 9) =? 0)%Z eqn:Ez; [b2p; exact Ez|].
    exfalso. specialize (Hmax (r0 * 9 + c0) ltac:(lia)).
    rewrite Hnth, (cell_index r0 c0 Hr0 Hc0), (Hempty r0 c0 Hr0 Hc0 Hz0) in Hmax.
    unfold masked_score in Hmax. rewrite Ez in Hmax.
    pose proof impact_quotients_above as Ha. rewrite forallb_forall in Ha.
    rewrite (Ha _ (impact_score_value s r0 c0 Hwf Hr0 Hc0)) in Hmax. discriminate. }
  split; [exact Hz|].
  rewrite (Hempty _ _ Hi Hj Hz) in Hmax, Hfirst.
  intros r c Hr Hc Hzr. split.
  - specialize (Hmax (r * 9 + c) ltac:(lia)).
    rewrite Hnth, (cell_index r c Hr Hc), (Hempty r c Hr Hc Hzr) in Hmax. exact Hmax.
  - unfold before. intros Hb.
    specialize (Hfirst (r * 9 + c) ltac:(lia)).
    rewrite Hnth, (cell_index r c Hr Hc), (Hempty r c Hr Hc Hzr) in Hfirst. exact Hfirst.
Qed.

(** ** The search finds a completion when there is one *)

Lemma is_solved_count (s : Solver) :
  is_solved s = false -> count_empty (sudoku s) <> 0.
Proof. unfold is_solved. intros H. b2p. exact H. Qed.

Lemma trivial_moves_steps (s s' : Solver) : trivial_moves s = Ok s' -> forced_steps s s'.
Proof. unfold trivial_moves. apply trivial_loop_steps. Qed.

Lemma try_numbers_complete (g : Grid) (rec : Solver -> res search_result) (i j : nat) :
  solution g -> i < 9 -> j < 9 ->
  (forall s s', wf s -> filled_closed s -> carries g s -> rec s = Ok (None, s') -> False) ->
  forall numbers s s',
    wf s -> filled_closed s -> carries g s ->
    get_cell (sudoku s) i j = 0%Z ->
    In (get_cell g i j) numbers ->
    try_numbers rec i j numbers s = Ok (None, s') -> False.
Proof.
  intros Hsol Hi Hj Hrec. induction numbers as [|number rest IH];
    intros s s' Hwf Hcl Hc Hz Hin; [destruct Hin|].
  assert (Hd : (1 <= get_cell g i j <= 9)%Z) by (apply Hsol; assumption).
  cbn [try_numbers].
  destruct (Z.eq_dec number (get_cell g i j)) as [->|Hne].
  - rewrite (can_place_digit s i j Hd), (proj2 Hc i j Hi Hj Hz). cbn [bind].
    destruct (place_number s i j (get_cell g i j)) as [s1| |] eqn:Hp;
      cbn [bind]; try discriminate.
    pose proof (@wf_place_number s s1 i j _ Hwf Hp) as Hwf1.
    pose proof (@place_keeps_closed s s1 i j _ Hwf Hi Hj Hd Hp Hcl) as Hcl1.
    pose proof (carries_place g s s1 i j Hsol Hwf Hc Hi Hj Hp) as Hc1.
    destruct (trivial_moves s1) as [s2| |] eqn:Ht; cbn [bind]; try discriminate.
    pose proof (trivial_moves_steps s1 s2 Ht) as Hst.
    destruct (rec s2) as [[[r|] s3]| |] eqn:Hr; cbn [bind]; try discriminate.
    intros _. apply (Hrec s2 s3); auto.
    + exact (@forced_steps_wf s1 s2 Hst Hwf1).
    + exact (@forced_steps_closed s1 s2 Hst Hwf1 Hcl1).
    + exact (carries_forced_steps g s1 s2 Hsol Hst Hwf1 Hc1).
  - assert (Hin' : In (get_cell g i j) rest) by (destruct Hin; [congruence|assumption]).
    destruct (can_place_number s i j number) as [[|]| |]; cbn [bind]; try discriminate.
    + destruct (place_number s i j number) as [s1| |]; cbn [bind]; try discriminate.
      destruct (trivial_moves s1) as [s2| |]; cbn [bind]; try discriminate.
      destruct (rec s2) as [[[r|] s3]| |]; cbn [bind]; try discriminate.
      apply IH; auto.
    + apply IH; auto.
Qed.

Lemma advanced_backtrack_complete (g : Grid) :
  solution g ->
  forall fuel s s', wf s -> filled_closed s -> carries g s ->
    advanced_backtrack fuel s = Ok (None, s') -> False.
Proof.
  intros Hsol. induction fuel as [|fuel IH]; intros s s' Hwf Hcl Hc; [discriminate|].
  cbn [advanced_backtrack].
  assert (Hwfe : wf (enter s)) by (apply (wf_arrays (s:=s)); auto).
  assert (Hcle : filled_closed (enter s)) by (apply (filled_closed_arrays (s:=s)); auto).
  assert (Hce : carries g (enter s)) by (apply (carries_arrays g s); auto).
  destruct (is_solved (enter s)) eqn:Hsolved; [discriminate|].
  destruct (least_options_cell_max (enter s) Hwfe (is_solved_count _ Hsolved))
    as (i & j & -> & Hi & Hj & Hz & _).
  apply (try_numbers_complete g (advanced_backtrack fuel) i j Hsol Hi Hj IH); auto.
  unfold smart_number_ordering. apply In_sorted. apply In_possible_numbers.
  split; [apply Hsol; assumption|]. apply (proj2 Hce); assumption.
Qed.

(** ** The two variants of the search *)

Lemma agree_emit (s t : Solver) (g : Grid) (st : status) (cell : option (nat * nat))
    (number : option Z) :
  agree s t -> agree (emit s g st cell number) t.
Proof. unfold agree, emit. destruct (callback s && visualize s); auto. Qed.

Lemma place_number_agree (s t : Solver) (i j : nat) (number : Z) :
  agree s t -> sim agree (place_number s i j number) (place_number t i j number).
Proof.
  intros (Hs & Hb & Hc). unfold place_number. rewrite Hs, Hb.
  destruct (py_index 9 (number - 1)); cbn [bind sim]; auto.
  unfold agree. simpl. auto.
Qed.

Lemma sim_foldM {A X Y : Type} (R : X -> Y -> Prop) (f : X -> A -> res X)
    (f' : Y -> A -> res Y) :
  (forall x y a, R x y -> sim R (f x a) (f' y a)) ->
  forall l x y, R x y -> sim R (foldM f l x) (foldM f' l y).
Proof.
  intros H. induction l as [|a l IH]; intros x y Hxy; cbn [foldM sim]; auto.
  eapply sim_bind; [apply H; exact Hxy|]. intros x' y' H'. apply IH. exact H'.
Qed.

Lemma is_trivial_cell_agree (s t : Solver) (i j : nat) :
  agree s t -> is_trivial_cell s i j = is_trivial_cell t i j.
Proof. intros (Hs & Hb & _). unfold is_trivial_cell. now rewrite Hs, Hb. Qed.

Lemma trivial_pass_agree (s t : Solver) :
  agree s t ->
  sim (fun x y => fst x = fst y /\ agree (snd x) (snd y)) (trivial_pass s) (trivial_pass t).
Proof.
  intros H. unfold trivial_pass. apply sim_foldM; [|split; [reflexivity|exact H]].
  intros [c s1] [c' t1] [i j] [Ec H1]. simpl in Ec, H1. subst c'.
  unfold trivial_step. rewrite (is_trivial_cell_agree s1 t1 i j H1).
  destruct (is_trivial_cell t1 i j); [|cbn [sim]; auto].
  replace (get_cand (bitmap s1) i j) with (get_cand (bitmap t1) i j)
    by (destruct H1 as (_ & -> & _); reflexivity).
  eapply sim_bind; [apply place_number_agree; exact H1|].
  intros s2 t2 H2. cbn [sim]. auto.
Qed.

Lemma trivial_loop_agree (fuel : nat) :
  forall s t, agree s t -> sim agree (trivial_loop fuel s) (trivial_loop fuel t).
Proof.
  induction fuel as [|fuel IH]; intros s t H; cbn [trivial_loop sim]; auto.
  eapply sim_bind; [apply trivial_pass_agree; exact H|].
  intros [c s1] [c' t1] [Ec H1]. simpl in Ec, H1. subst c'.
  destruct c; [apply IH; exact H1|cbn [sim]; exact H1].
Qed.

Lemma trivial_moves_agree (s t : Solver) :
  agree s t -> sim agree (trivial_moves s) (trivial_moves t).
Proof.
  intros H. unfold trivial_moves. destruct H as (Hs & Hb & Hc). rewrite Hs.
  apply trivial_loop_agree. unfold agree. auto.
Qed.

Lemma arrays_only (s t : Solver) :
  agree s t ->
  is_solved s = is_solved t /\
  advanced_least_options_cell s = advanced_least_options_cell t /\
  (forall i j, smart_number_ordering s i j = smart_number_ordering t i j) /\
  (forall i j number, can_place_number s i j number = can_place_number t i j number).
Proof.
  intros (Hs & Hb & _). splits.
  - unfold is_solved. now rewrite Hs.
  - unfold advanced_least_options_cell, masked_impact, impact_matrix, empty_cells_mask,
      impact_score. now rewrite Hs, Hb.
  - intros i j. unfold smart_number_ordering, possible_numbers, number_frequency_score.
    now rewrite Hs, Hb.
  - intros i j number. unfold can_place_number. now rewrite Hb.
Qed.

Lemma try_numbers_agree (recv rec : Solver -> res search_result) (i j : nat) :
  (forall s t, agree s t -> sim same_search (recv s) (rec t)) ->
  forall numbers s t, agree s t ->
    sim same_search (try_numbers_visualize recv i j numbers s)
                    (try_numbers rec i j numbers t).
Proof.
  intros Hrec. induction numbers as [|number rest IH]; intros s t H;
    cbn [try_numbers_visualize try_numbers].
  - cbn [sim]. split; [reflexivity|exact H].
  - destruct (arrays_only s t H) as (_ & _ & _ & Hcan). rewrite Hcan.
    destruct (can_place_number t i j number) as [[|]| |]; cbn [bind sim]; auto.
    eapply sim_bind; [apply place_number_agree; apply agree_emit; exact H|].
    intros s1 t1 H1.
    eapply sim_bind; [apply trivial_moves_agree; exact H1|].
    intros s2 t2 H2.
    eapply sim_bind; [apply Hrec; apply agree_emit; exact H2|].
    intros [r s3] [r' t3] [Er H3]. simpl in Er, H3. subst r'.
    destruct r as [g|]; [cbn [sim]; split; [reflexivity|exact H3]|].
    apply IH. destruct H as (Hs & Hb & Hc), H3 as (_ & _ & Hc3).
    unfold agree. rewrite Hs, Hb.
    destruct (callback (with_counters s3 (attempts s3) (backtrack_count s3 + 1))
              && visualize (with_counters s3 (attempts s3) (backtrack_count s3 + 1)))
      eqn:E; unfold emit; rewrite E; simpl; repeat split; congruence.
Qed.

Lemma advanced_backtrack_agree (fuel : nat) :
  forall s t, agree s t ->
    sim same_search (advanced_backtrack_visualize fuel s) (advanced_backtrack fuel t).
Proof.
  induction fuel as [|fuel IH]; intros s t H;
    cbn [advanced_backtrack_visualize advanced_backtrack sim]; auto.
  set (sv := with_counters (enter s) (attempts (enter s) + 1) (backtrack_count (enter s))).
  assert (Hv : agree sv (enter t)) by (destruct H as (? & ? & ?); unfold agree; simpl; auto).
  destruct (arrays_only sv (enter t) Hv) as (-> & _).
  destruct (is_solved (enter t)).
  - cbn [sim]. split; [simpl; f_equal; apply Hv|exact Hv].
  - set (se := emit sv (sudoku sv) searching None None).
    assert (He : agree se (enter t)) by (apply agree_emit; exact Hv).
    destruct (arrays_only se (enter t) He) as (_ & -> & Hnum & _).
    destruct (advanced_least_options_cell (enter t)) as [[i j]|e|]; cbn [sim]; auto.
    + rewrite Hnum. apply try_numbers_agree; [exact IH|exact He].
    + destruct e; cbn [sim]; auto. split; [reflexivity|exact He].
Qed.

Lemma solve_fuel_agree (fuel : nat) (s : Solver) :
  sim same_search (solve_fuel fuel s true) (solve_fuel fuel s false).
Proof.
  unfold solve_fuel. apply advanced_backtrack_agree. unfold agree. simpl. auto.
Qed.

(** ** What the solver answers *)

Lemma keeps_arrays (input : Grid) (s s' : Solver) :
  sudoku s' = sudoku s -> bitmap s' = bitmap s -> keeps input s -> keeps input s'.
Proof.
  intros Hs Hb (H1 & H2 & H3). unfold keeps. rewrite Hs.
  split; [|auto]. apply (@sound_arrays s s' Hs Hb H1).
Qed.

Lemma keeps_place (input : Grid) (s s' : Solver) (i j : nat) (number : Z) :
  keeps input s -> i < 9 -> j < 9 -> (1 <= number <= 9)%Z ->
  get_bit (bitmap s) i j (Z.to_nat (number - 1)) = true ->
  place_number s i j number = Ok s' -> keeps input s'.
Proof.
  intros (Hsound & Hdig & Hext) Hi Hj Hn Hbit Hp.
  pose proof (@sound_place s s' i j number Hsound Hi Hj Hn Hbit Hp) as Hsound'.
  pose proof (@candidate_cell_empty s i j _ (sound_closed Hsound) Hi Hj Hbit) as Hz.
  destruct (@place_number_spec s i j number (sound_wf Hsound) Hi Hj Hn)
    as (s1 & Hp1 & _ & Hg & _).
  rewrite Hp in Hp1. injection Hp1 as <-.
  split; [exact Hsound'|]. split.
  - intros r c Hr Hc. rewrite (Hg r c Hr Hc).
    destruct ((r =? i) && (c =? j)); [lia|apply Hdig; assumption].
  - intros r c Hr Hc Hnz. rewrite (Hg r c Hr Hc).
    destruct ((r =? i) && (c =? j)) eqn:E; [|apply Hext; assumption].
    b2p. destruct E as [-> ->]. specialize (Hext i j Hi Hj Hnz). congruence.
Qed.

Lemma keeps_guess (input : Grid) (s : Solver) (i j : nat) (number : Z) (s' : Solver) :
  keeps input s -> wf s -> i < 9 -> j < 9 -> (1 <= number <= 9)%Z ->
  can_place_number s i j number = Ok true ->
  place_number s i j number = Ok s' -> keeps input s'.
Proof.
  intros Hk _ Hi Hj Hn Hcan Hp.
  rewrite (@can_place_digit s i j number Hn) in Hcan. injection Hcan as Hbit.
  exact (keeps_place input s s' i j number Hk Hi Hj Hn Hbit Hp).
Qed.

Lemma keeps_forced (input : Grid) (s : Solver) (i j : nat) (s' : Solver) :
  keeps input s -> wf s -> i < 9 -> j < 9 -> is_trivial_cell s i j = true ->
  place_number s i j (forced_number s i j) = Ok s' -> keeps input s'.
Proof.
  intros Hk Hwf Hi Hj Ht Hp.
  destruct (@forced_number_spec s i j Hwf Hi Hj Ht) as (_ & Hn & Hbit).
  exact (keeps_place input s s' i j _ Hk Hi Hj Hn Hbit Hp).
Qed.

Lemma full_digits (g : Grid) :
  wf_grid g -> digits_grid g -> count_empty g = 0 ->
  forall r c, r < 9 -> c < 9 -> (1 <= get_cell g r c <= 9)%Z.
Proof.
  intros Hwf Hdig Hz r c Hr Hc.
  pose proof (proj1 (count_empty_zero g Hwf) Hz r c Hr Hc).
  specialize (Hdig r c Hr Hc). lia.
Qed.

Lemma keeps_built (input : Grid) (cb : bool) (s : Solver) :
  wf_grid input -> digits_grid input -> unique_grid input ->
  SudokuSolver input cb = Ok s -> keeps input s /\ sudoku s = input.
Proof.
  intros Hin Hdig Hun Hs.
  destruct (@SudokuSolver_spec input cb Hin Hdig) as (s0 & Hs0 & [B1 B2 B3 B4] & Eg & _).
  rewrite Hs in Hs0. injection Hs0 as <-. split; [|exact Eg].
  unfold keeps. rewrite Eg. split; [|split; [exact Hdig|intros r c _ _ _; reflexivity]].
  split; auto. rewrite Eg. exact Hun.
Qed.

(** The non-streaming search from a state of the engine: it returns, and a
    grid it returns is a completion. *)
Lemma search_sound (input : Grid) (s : Solver) :
  keeps input s ->
  exists r s', solve_with_visualization s false = Ok (r, s') /\
    match r with
    | Some g => completes g input /\ g = sudoku s'
    | None => sudoku s' = sudoku s /\ bitmap s' = bitmap s
    end.
Proof.
  intros Hk. unfold solve_with_visualization, solve_fuel.
  set (s1 := with_counters (with_visualize s false) 0 0).
  assert (Hk1 : keeps input s1) by (apply (keeps_arrays input s); auto).
  destruct (@advanced_backtrack_total (keeps input)
              (fun s H => keeps_arrays input s (enter s) eq_refl eq_refl H)
              (keeps_guess input) (keeps_forced input)
              (fun s s3 H _ =>
                 keeps_arrays input s
                   (with_arrays (with_counters s3 (attempts s3) (backtrack_count s3 + 1))
                                (sudoku s) (bitmap s)) eq_refl eq_refl H)
              (S (count_empty (sudoku s))) s1 Hk1
              (sound_wf (proj1 Hk1)) (sound_closed (proj1 Hk1)) ltac:(simpl; lia))
    as (r & s' & Hr & Hpost).
  exists r, s'. split; [exact Hr|].
  destruct Hpost as ((Hsound & Hdig & Hext) & _ & _ & _ & _ & _ & Hres).
  destruct r as [g|]; [|exact Hres].
  destruct Hres as [-> Hfull]. split; [|reflexivity].
  split; [|exact Hext].
  split; [apply Hsound|]. split; [|apply Hsound].
  apply full_digits; auto. apply Hsound.
Qed.

Lemma get_bit_ones999 (r c k : nat) : r < 9 -> c < 9 -> k < 9 -> get_bit ones999 r c k = true.
Proof.
  intros Hr Hc Hk.
  assert (H : forallb (fun '(r, c) => forallb (fun k => get_bit ones999 r c k) (range 9))
                      cells = true) by (vm_compute; reflexivity).
  rewrite forallb_forall in H. specialize (H (r, c) (proj2 (In_cells r c) (conj Hr Hc))).
  cbv beta iota in H. rewrite forallb_forall in H. apply H.
  unfold range. apply in_seq. lia.
Qed.

Lemma carries_init_state (g : Grid) (cb : bool) : solution g -> carries g (init_state cb).
Proof.
  intros (_ & Hdig & _). split.
  - intros r c Hr Hc. left. simpl. apply get_cell_zeros99; assumption.
  - intros r c Hr Hc _. simpl. specialize (Hdig r c Hr Hc).
    apply get_bit_ones999; auto. lia.
Qed.

Lemma carries_init_cells (g input : Grid) :
  solution g -> extends input g -> wf_grid input ->
  forall l, (forall i j, In (i, j) l -> i < 9 /\ j < 9) ->
  forall s s', wf s -> carries g s -> foldM (init_cell input) l s = Ok s' ->
    wf s' /\ carries g s'.
Proof.
  intros Hsol Hext Hin. induction l as [|[i j] l IH]; intros Hl s s' Hwf Hc; cbn [foldM].
  - intros [= <-]. auto.
  - destruct (Hl i j (or_introl eq_refl)) as [Hi Hj].
    unfold init_cell at 1. rewrite (@read_cell_wf input i j Hin Hi Hj). cbn [bind].
    assert (Hl' : forall i j, In (i, j) l -> i < 9 /\ j < 9)
      by (intros; apply Hl; right; assumption).
    destruct (get_cell input i j =? 0)%Z eqn:E; cbn [negb bind].
    + apply IH; assumption.
    + b2p. rewrite <- (Hext i j Hi Hj E).
      destruct (place_number s i j (get_cell g i j)) as [s1| |] eqn:Hp;
        cbn [bind]; try discriminate.
      apply IH; auto.
      * exact (@wf_place_number s s1 i j _ Hwf Hp).
      * exact (carries_place g s s1 i j Hsol Hwf Hc Hi Hj Hp).
Qed.

Lemma carries_built (g input : Grid) (cb : bool) (s : Solver) :
  wf_grid input -> completes g input -> SudokuSolver input cb = Ok s -> carries g s.
Proof.
  intros Hin [Hsol Hext] Hs.
  apply (carries_init_cells g input Hsol Hext Hin cells
           (fun i j H => proj1 (In_cells i j) H) (init_state cb) s).
  - split; [apply wf_zeros99|apply wf_ones999].
  - apply carries_init_state. exact Hsol.
  - exact Hs.
Qed.

(** A puzzle that has a completion is a grid of digits with consistent clues. *)
Lemma completes_consistent (g input : Grid) :
  completes g input -> digits_grid input /\ unique_grid input.
Proof.
  intros [(_ & Hdig & Hun) Hext]. split.
  - intros r c Hr Hc. destruct (Z.eq_dec (get_cell input r c) 0) as [->|Hnz]; [lia|].
    rewrite <- (Hext r c Hr Hc Hnz). specialize (Hdig r c Hr Hc). lia.
  - intros r c r' c' Hr Hc Hr' Hc' Hne Hp Hnz.
    destruct (Z.eq_dec (get_cell input r' c') 0) as [E|Hnz']; [congruence|].
    rewrite <- (Hext r c Hr Hc Hnz), <- (Hext r' c' Hr' Hc' Hnz').
    apply Hun; auto. specialize (Hdig r c Hr Hc). lia.
Qed.

Lemma sim_Ok_r {X Y : Type} (R : X -> Y -> Prop) (a : res X) (y : Y) :
  sim R a (Ok y) -> exists x, a = Ok x /\ R x y.
Proof. destruct a; cbn [sim]; try contradiction. eauto. Qed.

(** In both modes the solve returns from the state the constructor builds. *)
Lemma solve_either_mode (s : Solver) (vis : bool) (r : option Grid) (s' : Solver) :
  solve_with_visualization s false = Ok (r, s') ->
  exists sv, solve_with_visualization s vis = Ok (r, sv) /\ sudoku sv = sudoku s' /\
             bitmap sv = bitmap s'.
Proof.
  intros H. destruct vis; [|exists s'; auto].
  pose proof (solve_fuel_agree (S (count_empty (sudoku s))) s) as Hsim.
  fold (solve_with_visualization s true) in Hsim.
  fold (solve_with_visualization s false) in Hsim. rewrite H in Hsim.
  destruct (sim_Ok_r _ _ _ Hsim) as ([rv sv] & Ev & Hr & Hs & Hb & _).
  simpl in Hr, Hs, Hb. subst rv. exists sv. auto.
Qed.

Lemma solve_search_complete (input g0 : Grid) (cb vis : bool) :
  wf_grid input -> completes g0 input ->
  exists s0 g s', SudokuSolver input cb = Ok s0 /\
    solve_with_visualization s0 vis = Ok (Some g, s') /\ completes g input.
Proof.
  intros Hin Hc0. destruct (completes_consistent g0 input Hc0) as [Hdig Hun].
  destruct (@SudokuSolver_spec input cb Hin Hdig) as (s0 & Hs0 & _).
  destruct (keeps_built input cb s0 Hin Hdig Hun Hs0) as [Hk Eg].
  destruct (search_sound input s0 Hk) as (r & s' & Hr & Hres).
  destruct (solve_either_mode s0 vis r s' Hr) as (sv & Hv & _).
  destruct r as [g|].
  - exists s0, g, sv. destruct Hres as [Hc _]. auto.
  - exfalso. unfold solve_with_visualization, solve_fuel in Hr.
    apply (advanced_backtrack_complete g0 (proj1 Hc0) _ _ s') in Hr; auto.
    + apply (@wf_arrays s0); auto. apply Hk.
    + apply (@filled_closed_arrays s0); auto. apply Hk.
    + apply (carries_arrays g0 s0); auto.
      exact (carries_built g0 input cb s0 Hin Hc0 Hs0).
Qed.

(** ** The generator never fails *)

Lemma wf_remove_cells (cs : list (nat * nat)) (g : Grid) :
  wf_grid g -> wf_grid (remove_cells g cs).
Proof.
  unfold remove_cells. revert g. induction cs as [|[i j] cs IH]; intros g Hwf; simpl; auto.
  apply IH. apply wf_set_cell. exact Hwf.
Qed.

Lemma empty_solution_solution : solution empty_solution.
Proof.
  split; [apply shape_grid_wf; vm_compute; reflexivity|]. split.
  - intros r c Hr Hc. pose proof (empty_solution_full r c Hr Hc).
    assert (Hd : digits_grid empty_solution)
      by (apply digits_check_sound; vm_compute; reflexivity).
    specialize (Hd r c Hr Hc). lia.
  - apply unique_check_sound. vm_compute. reflexivity.
Qed.

Lemma difficulty_attempts_pos (difficulty : String.string) :
  0 < snd (difficulty_settings difficulty).
Proof.
  unfold difficulty_settings.
  repeat match goal with |- context [if ?b then _ else _] => destruct b end; simpl; lia.
Qed.

(** An attempt of the generator yields a puzzle that the solution of the
    empty grid completes, and the re-solve of it returns a grid. *)
Lemma generation_attempt_succeeds (shuffled : list (nat * nat))
    (difficulty : String.string) :
  Permutation shuffled cells ->
  exists p g,
    generation_attempt shuffled (fst (difficulty_settings difficulty)) = Ok (p, Some g) /\
    wf_grid p /\ completes empty_solution p /\ completes g p.
Proof.
  intros Hperm.
  destruct (remove_count_cases difficulty) as (n & Hn & Hle & _).
  destruct (blanked_count n shuffled Hperm Hle) as [_ Hcells].
  set (p := remove_cells empty_solution (take_py (Z.of_nat n) shuffled)) in *.
  assert (Hwp : wf_grid p)
    by (apply wf_remove_cells; apply empty_solution_solution).
  assert (Hcp : completes empty_solution p).
  { split; [exact empty_solution_solution|]. intros r c Hr Hc Hnz.
    destruct (Hcells r c Hr Hc) as [E|E]; [congruence|]. symmetry. exact E. }
  destruct (solve_search_complete p empty_solution false false Hwp Hcp)
    as (s0 & g & s' & Hs0 & Hsolve & Hg).
  exists p, g. split; [|auto].
  rewrite generation_attempt_eq, empty_solver_built. cbn [bind].
  rewrite empty_solver_solved. cbn [bind]. rewrite Hn. cbn [bind].
  rewrite empty_solved_grid. fold p. rewrite Hs0. cbn [bind].
  rewrite Hsolve. reflexivity.
Qed.

(** ** [place_number] and the constructor at the edges *)

(** The index [number - 1] on an axis of length 9. *)
Lemma py_index_cases (number : Z) :
  py_index 9 (number - 1) =
  if ((1 <=? number) && (number <=? 9))%Z then Ok (Z.to_nat (number - 1))
  else if ((-8 <=? number) && (number <=? 0))%Z then Ok (Z.to_nat (number + 8))
  else Raise IndexError.
Proof.
  unfold py_index.
  destruct ((1 <=? number) && (number <=? 9))%Z eqn:E1.
  - replace ((0 <=? number - 1) && (number - 1 <? Z.of_nat 9))%Z with true; [reflexivity|].
    symmetry. b2p. lia.
  - replace ((0 <=? number - 1) && (number - 1 <? Z.of_nat 9))%Z with false
      by (symmetry; b2p; lia).
    destruct ((-8 <=? number) && (number <=? 0))%Z eqn:E2.
    + replace ((- Z.of_nat 9 <=? number - 1) && (number - 1 <? 0))%Z with true
        by (symmetry; b2p; lia).
      f_equal. f_equal. lia.
    + replace ((- Z.of_nat 9 <=? number - 1) && (number - 1 <? 0))%Z with false;
        [reflexivity|]. symmetry. b2p. lia.
Qed.

Lemma place_number_eliminate (s : Solver) (i j d : nat) (number : Z) :
  py_index 9 (number - 1) = Ok d ->
  place_number s i j number =
  Ok (with_arrays s (set_cell (sudoku s) i j number) (eliminate (bitmap s) i j d)).
Proof. intros H. unfold place_number. rewrite H. reflexivity. Qed.

(** ** The constructor *)

Lemma sub_grid_place (input : Grid) (s s' : Solver) (i j : nat) :
  wf s -> i < 9 -> j < 9 -> sub_grid input s ->
  place_number s i j (get_cell input i j) = Ok s' ->
  wf s' /\ sub_grid input s' /\
  forall r c, r < 9 -> c < 9 ->
    get_cell (sudoku s') r c =
    if (r =? i) && (c =? j) then get_cell input i j else get_cell (sudoku s) r c.
Proof.
  intros Hwf Hi Hj Hsub Hp.
  pose proof (@wf_place_number s s' i j _ Hwf Hp) as Hwf'.
  assert (Hg : sudoku s' = set_cell (sudoku s) i j (get_cell input i j)).
  { unfold place_number in Hp.
    destruct (py_index 9 (get_cell input i j - 1)); cbn [bind] in Hp; try discriminate.
    injection Hp as <-. reflexivity. }
  assert (Hcell : forall r c, r < 9 -> c < 9 ->
            get_cell (sudoku s') r c =
            if (r =? i) && (c =? j) then get_cell input i j else get_cell (sudoku s) r c).
  { intros r c Hr Hc. rewrite Hg.
    apply (@get_cell_place (sudoku s) i j r c _ (proj1 Hwf) Hi Hj Hr Hc). }
  split; [exact Hwf'|]. split; [|exact Hcell].
  intros r c Hr Hc. rewrite (Hcell r c Hr Hc).
  destruct ((r =? i) && (c =? j)) eqn:E; [|apply Hsub; assumption].
  right. b2p. destruct E; subst; reflexivity.
Qed.

(** The loop of the constructor over clues between -8 and 9. *)
Lemma init_cells_accepted (input : Grid) (l : list (nat * nat)) :
  wf_grid input ->
  (forall i j, In (i, j) l -> i < 9 /\ j < 9 /\ (-8 <= get_cell input i j <= 9)%Z) ->
  forall s, wf s -> sub_grid input s ->
  exists s', foldM (init_cell input) l s = Ok s' /\ wf s' /\ sub_grid input s' /\
    same_fields s s' /\
    (forall r c, r < 9 -> c < 9 ->
       In (r, c) l \/ get_cell (sudoku s) r c = get_cell input r c ->
       get_cell (sudoku s') r c = get_cell input r c).
Proof.
  intros Hin. induction l as [|[i j] l IH]; intros Hl s Hwf Hsub; cbn [foldM].
  - exists s. splits; auto; [apply same_fields_refl|]. intros r c _ _ [[]|E]. exact E.
  - destruct (Hl i j (or_introl eq_refl)) as (Hi & Hj & Hv).
    assert (Hl' : forall i j, In (i, j) l ->
                   i < 9 /\ j < 9 /\ (-8 <= get_cell input i j <= 9)%Z)
      by (intros; apply Hl; right; assumption).
    unfold init_cell at 1. rewrite (@read_cell_wf input i j Hin Hi Hj). cbn [bind].
    destruct (get_cell input i j =? 0)%Z eqn:E; cbn [negb bind].
    + destruct (IH Hl' s Hwf Hsub) as (s' & Hf & Hwf' & Hsub' & Hsame & Hcells).
      exists s'. splits; auto. intros r c Hr Hc [[[= <- <-]|Hin']|Eq]; auto.
      apply Hcells; auto. right. b2p. destruct (Hsub i j Hi Hj); congruence.
    + assert (Hp : exists s1, place_number s i j (get_cell input i j) = Ok s1).
      { unfold place_number. rewrite py_index_cases.
        destruct ((1 <=? get_cell input i j) && (get_cell input i j <=? 9))%Z eqn:E1;
          [cbn [bind]; eauto|].
        destruct ((-8 <=? get_cell input i j) && (get_cell input i j <=? 0))%Z eqn:E2;
          [cbn [bind]; eauto|]. b2p. lia. }
      destruct Hp as (s1 & Hp). rewrite Hp. cbn [bind].
      destruct (sub_grid_place input s s1 i j Hwf Hi Hj Hsub Hp) as (Hwf1 & Hsub1 & Hc1).
      destruct (IH Hl' s1 Hwf1 Hsub1) as (s' & Hf & Hwf' & Hsub' & Hsame & Hcells).
      exists s'. splits; auto.
      { exact (@same_fields_trans s s1 s' (@place_number_fields s s1 i j _ Hp) Hsame). }
      intros r c Hr Hc Hcase. apply Hcells; auto.
      rewrite (Hc1 r c Hr Hc).
      destruct ((r =? i) && (c =? j)) eqn:Erc.
      * right. b2p. destruct Erc; subst; reflexivity.
      * destruct Hcase as [[[= <- <-]|Hin']|Eq]; auto.
        rewrite !Nat.eqb_refl in Erc. discriminate.
Qed.

(** The loop of the constructor raises at the first clue out of range. *)
Lemma init_cells_rejected (input : Grid) (l : list (nat * nat)) :
  wf_grid input -> (forall i j, In (i, j) l -> i < 9 /\ j < 9) ->
  (exists i j, In (i, j) l /\ (get_cell input i j < -8 \/ 9 < get_cell input i j)%Z) ->
  forall s, wf s -> foldM (init_cell input) l s = Raise IndexError.
Proof.
  intros Hin. induction l as [|[i j] l IH]; intros Hl (i0 & j0 & Hin0 & Hbad) s Hwf;
    [destruct Hin0|]. cbn [foldM].
  destruct (Hl i j (or_introl eq_refl)) as (Hi & Hj).
  assert (Hl' : forall i j, In (i, j) l -> i < 9 /\ j < 9)
    by (intros; apply Hl; right; assumption).
  unfold init_cell at 1. rewrite (@read_cell_wf input i j Hin Hi Hj). cbn [bind].
  assert (Htail : (-8 <= get_cell input i j <= 9)%Z ->
            exists i j, In (i, j) l /\ (get_cell input i j < -8 \/ 9 < get_cell input i j)%Z).
  { intros Hok. exists i0, j0. split; [|exact Hbad].
    destruct Hin0 as [[= <- <-]|H]; [lia|exact H]. }
  destruct (get_cell input i j =? 0)%Z eqn:E; cbn [negb bind].
  - b2p. apply IH; auto. apply Htail. lia.
  - unfold place_number. rewrite py_index_cases.
    destruct ((1 <=? get_cell input i j) && (get_cell input i j <=? 9))%Z eqn:E1; cbn [bind].
    + b2p. apply IH; auto; [apply Htail; lia|].
      apply (@wf_place_number s _ i j (get_cell input i j) Hwf).
      apply place_number_eliminate. apply py_index_digit. lia.
    + destruct ((-8 <=? get_cell input i j) && (get_cell input i j <=? 0))%Z eqn:E2;
        cbn [bind]; [|reflexivity].
      b2p. apply IH; auto; [apply Htail; lia|].
      apply (@wf_place_number s _ i j (get_cell input i j) Hwf).
      apply place_number_eliminate. rewrite py_index_cases.
      replace ((1 <=? get_cell input i j) && (get_cell input i j <=? 9))%Z with false
        by (symmetry; b2p; lia).
      replace ((-8 <=? get_cell input i j) && (get_cell input i j <=? 0))%Z with true
        by (symmetry; b2p; lia).
      reflexivity.
Qed.

Lemma wf_init_state (cb : bool) : wf (init_state cb).
Proof. split; [apply wf_zeros99|apply wf_ones999]. Qed.

Lemma sub_grid_init_state (input : Grid) (cb : bool) : sub_grid input (init_state cb).
Proof. intros r c Hr Hc. left. simpl. apply get_cell_zeros99; assumption. Qed.

(** The candidates after the clues of [l0]: those no clue has cleared. *)
Lemma init_cells_candidates (input : Grid) :
  wf_grid input -> digits_grid input ->
  forall l, (forall i j, In (i, j) l -> i < 9 /\ j < 9) ->
  forall l0 s s', wf s ->
    (forall r c k, get_bit (bitmap s) r c k = true <->
       get_bit ones999 r c k = true /\
       forall i j, In (i, j) l0 -> get_cell input i j <> 0%Z ->
         cleared i j (Z.to_nat (get_cell input i j - 1)) r c k = false) ->
    foldM (init_cell input) l s = Ok s' ->
    forall r c k, get_bit (bitmap s') r c k = true <->
       get_bit ones999 r c k = true /\
       forall i j, In (i, j) (l0 ++ l) -> get_cell input i j <> 0%Z ->
         cleared i j (Z.to_nat (get_cell input i j - 1)) r c k = false.
Proof.
  intros Hin Hdig. induction l as [|[i j] l IH]; intros Hl l0 s s' Hwf Hinv; cbn [foldM].
  - intros [= <-]. rewrite app_nil_r. exact Hinv.
  - destruct (Hl i j (or_introl eq_refl)) as (Hi & Hj).
    assert (Hl' : forall i j, In (i, j) l -> i < 9 /\ j < 9)
      by (intros; apply Hl; right; assumption).
    unfold init_cell at 1. rewrite (@read_cell_wf input i j Hin Hi Hj). cbn [bind].
    replace (l0 ++ (i, j) :: l) with ((l0 ++ [(i, j)]) ++ l)
      by (rewrite <- app_assoc; reflexivity).
    destruct (get_cell input i j =? 0)%Z eqn:E; cbn [negb bind].
    + apply IH; auto. intros r c k. rewrite (Hinv r c k). b2p.
      split; intros [H1 H2]; (split; [exact H1|]); intros i' j' Hin' Hnz.
      * apply in_app_or in Hin'. destruct Hin' as [Hin'|[[= <- <-]|[]]]; [auto|congruence].
      * apply H2; auto. apply in_or_app. left. exact Hin'.
    + b2p. assert (Hn : (1 <= get_cell input i j <= 9)%Z)
        by (specialize (Hdig i j Hi Hj); lia).
      destruct (@place_number_spec s i j _ Hwf Hi Hj Hn) as (s1 & Hp & Hwf1 & _ & Hb).
      rewrite Hp. cbn [bind]. apply IH; auto.
      intros r c k. rewrite Hb.
      destruct (cleared i j (Z.to_nat (get_cell input i j - 1)) r c k) eqn:Hcl.
      * split; [discriminate|]. intros [_ H2].
        rewrite (H2 i j) in Hcl; [discriminate| |exact E].
        apply in_or_app. right. left. reflexivity.
      * rewrite (Hinv r c k).
        split; intros [H1 H2]; (split; [exact H1|]); intros i' j' Hin' Hnz.
        -- apply in_app_or in Hin'. destruct Hin' as [Hin'|[[= <- <-]|[]]]; auto.
        -- apply H2; auto. apply in_or_app. left. exact Hin'.
Qed.

(** ** More on the propagation *)

Lemma forced_steps_frame (s s' : Solver) :
  forced_steps s s' -> wf s ->
  (forall r c, r < 9 -> c < 9 -> get_cell (sudoku s) r c <> 0%Z ->
     get_cell (sudoku s') r c = get_cell (sudoku s) r c) /\
  (forall r c, r < 9 -> c < 9 -> get_cell (sudoku s) r c = 0%Z ->
     get_cell (sudoku s') r c <> 0%Z ->
     (1 <= get_cell (sudoku s') r c <= 9)%Z /\
     get_bit (bitmap s) r c (Z.to_nat (get_cell (sudoku s') r c - 1)) = true) /\
  (forall r c k, get_bit (bitmap s) r c k = false -> get_bit (bitmap s') r c k = false).
Proof.
  induction 1 as [|s i j s1 s' Hi Hj Ht Hp Hs IH]; intros Hwf.
  - splits; auto. intros r c _ _ Hz Hnz. congruence.
  - destruct (@forced_number_spec s i j Hwf Hi Hj Ht) as (Hz & Hn & Hbit).
    destruct (@place_number_spec s i j _ Hwf Hi Hj Hn) as (s2 & Hp2 & Hwf1 & Hg & Hb).
    rewrite Hp in Hp2. injection Hp2 as <-.
    destruct (IH Hwf1) as (IHa & IHb & IHc).
    assert (Hmono : forall r c k, get_bit (bitmap s) r c k = false ->
                      get_bit (bitmap s1) r c k = false).
    { intros r c k Hf. rewrite Hb, Hf. destruct (cleared _ _ _ _ _ _); reflexivity. }
    splits.
    + intros r c Hr Hc Hnz.
      assert (E : get_cell (sudoku s1) r c = get_cell (sudoku s) r c).
      { rewrite (Hg r c Hr Hc). destruct ((r =? i) && (c =? j)) eqn:E; [|reflexivity].
        b2p. destruct E; subst. congruence. }
      rewrite <- E. apply IHa; auto. congruence.
    + intros r c Hr Hc Hzr Hnz.
      pose proof (Hg r c Hr Hc) as E.
      destruct ((r =? i) && (c =? j)) eqn:Erc.
      * b2p. destruct Erc; subst r c.
        rewrite (IHa i j Hi Hj) by lia. rewrite E. auto.
      * rewrite Hzr in E. destruct (IHb r c Hr Hc E Hnz) as [Hd Hbit1].
        split; [exact Hd|].
        destruct (get_bit (bitmap s) r c (Z.to_nat (get_cell (sudoku s') r c - 1)))
          eqn:Hold; [reflexivity|].
        rewrite (Hmono _ _ _ Hold) in Hbit1. discriminate.
    + intros r c k Hf. apply IHc. apply Hmono. exact Hf.
Qed.

(** ** More on the search *)

Lemma try_numbers_failed (rec : Solver -> res search_result) (i j : nat) :
  forall numbers s s', try_numbers rec i j numbers s = Ok (None, s') ->
    sudoku s' = sudoku s /\ bitmap s' = bitmap s.
Proof.
  induction numbers as [|number rest IH]; intros s s'; cbn [try_numbers].
  - intros [= <-]. auto.
  - destruct (can_place_number s i j number) as [[|]| |]; cbn [bind]; try discriminate;
      [|apply IH].
    destruct (place_number s i j number) as [s1| |]; cbn [bind]; try discriminate.
    destruct (trivial_moves s1) as [s2| |]; cbn [bind]; try discriminate.
    destruct (rec s2) as [[[r|] s3]| |]; cbn [bind]; try discriminate.
    intros H. apply IH in H. exact H.
Qed.

Lemma advanced_backtrack_failed (fuel : nat) (s s' : Solver) :
  advanced_backtrack fuel s = Ok (None, s') ->
  sudoku s' = sudoku s /\ bitmap s' = bitmap s.
Proof.
  destruct fuel as [|fuel]; [discriminate|]. cbn [advanced_backtrack].
  destruct (is_solved (enter s)); [discriminate|].
  destruct (advanced_least_options_cell (enter s)) as [[i j]|e|]; try discriminate.
  - intros H. apply try_numbers_failed in H. exact H.
  - destruct e; try discriminate. intros [= <-]. auto.
Qed.

Lemma sim_Ok_l {X Y : Type} (R : X -> Y -> Prop) (x : X) (b : res Y) :
  sim R (Ok x) b -> exists y, b = Ok y /\ R x y.
Proof. destruct b; cbn [sim]; try contradiction. eauto. Qed.

(** ** The counters of a streaming solve *)

Lemma trivial_moves_fields (s s' : Solver) : trivial_moves s = Ok s' -> same_fields s s'.
Proof. intros H. apply forced_steps_fields. apply trivial_moves_steps. exact H. Qed.

Lemma try_numbers_visualize_counted (rec : Solver -> res search_result) (i j : nat) :
  (forall s r s', rec s = Ok (r, s') -> counted true s r s') ->
  forall numbers s r s',
    try_numbers_visualize rec i j numbers s = Ok (r, s') -> counted false s r s'.
Proof.
  intros Hrec. induction numbers as [|number rest IH]; intros s r s';
    cbn [try_numbers_visualize].
  - intros [= <- <-]. unfold counted. cbv zeta. splits; lia.
  - destruct (can_place_number s i j number) as [[|]| |]; cbn [bind]; try discriminate;
      [|apply IH].
    set (se := emit s (sudoku s) trying (Some (i, j)) (Some number)).
    destruct (place_number se i j number) as [s1| |] eqn:Hp; cbn [bind]; try discriminate.
    destruct (trivial_moves s1) as [s2| |] eqn:Ht; cbn [bind]; try discriminate.
    set (sp := emit s2 (sudoku s2) placed None None).
    destruct (rec sp) as [[r3 s3]| |] eqn:Hr; cbn [bind]; try discriminate.
    pose proof (emit_arrays s (sudoku s) trying (Some (i, j)) (Some number))
      as (_ & _ & Ea & Eb & _). fold se in Ea, Eb.
    pose proof (@place_number_fields se s1 i j number Hp) as (_ & _ & Pa & Pb & _).
    pose proof (trivial_moves_fields s1 s2 Ht) as (_ & _ & Ta & Tb & _).
    pose proof (emit_arrays s2 (sudoku s2) placed None None) as (_ & _ & Fa & Fb & _).
    fold sp in Fa, Fb.
    pose proof (Hrec sp r3 s3 Hr) as (R0 & R1 & R2). cbv zeta in R0, R1, R2.
    destruct r3 as [g|].
    + intros [= <- <-]. unfold counted. cbv zeta. splits; try lia; try discriminate.
    + specialize (R2 eq_refl).
      set (s4 := with_counters s3 (attempts s3) (backtrack_count s3 + 1)).
      set (s5 := emit s4 (sudoku s) backtracking (Some (i, j)) None).
      pose proof (emit_arrays s4 (sudoku s) backtracking (Some (i, j)) None)
        as (_ & _ & Ga & Gb & _). fold s5 in Ga, Gb.
      assert (A4 : attempts s4 = attempts s3) by reflexivity.
      assert (B4 : backtrack_count s4 = (backtrack_count s3 + 1)%Z) by reflexivity.
      clearbody s5. clearbody s4.
      intros H. apply IH in H. destruct H as (I0 & I1 & I2). cbv zeta in I0, I1, I2.
      cbn [attempts backtrack_count with_arrays] in I0, I1, I2.
      unfold counted. cbv zeta. splits; lia.
Qed.

Lemma advanced_backtrack_visualize_counted (fuel : nat) :
  forall s r s', advanced_backtrack_visualize fuel s = Ok (r, s') -> counted true s r s'.
Proof.
  induction fuel as [|fuel IH]; intros s r s'; [discriminate|].
  cbn [advanced_backtrack_visualize].
  set (sv := with_counters (enter s) (attempts (enter s) + 1) (backtrack_count (enter s))).
  destruct (is_solved sv).
  - intros [= <- <-]. unfold counted. cbv zeta. simpl. splits; try lia; try discriminate.
  - set (se := emit sv (sudoku sv) searching None None).
    pose proof (emit_arrays sv (sudoku sv) searching None None) as (_ & _ & Ea & Eb & _).
    fold se in Ea, Eb. simpl in Ea, Eb.
    destruct (advanced_least_options_cell se) as [[i j]|e|]; try discriminate.
    + intros H. apply (try_numbers_visualize_counted _ i j IH) in H.
      destruct H as (H0 & H1 & H2). cbv zeta in H0, H1, H2.
      unfold counted. cbv zeta. splits; lia.
    + destruct e; try discriminate. intros [= <- <-].
      unfold counted. cbv zeta. splits; lia.
Qed.

(** ** The array a solve returns *)

Lemma try_numbers_in_own (rec : object -> store -> res search_result_in) (i j : nat) :
  (forall o st k o' st', rec o st = Ok (Some k, o', st') -> k = sudoku_at o') ->
  forall numbers o st k o' st',
    try_numbers_in rec i j numbers o st = Ok (Some k, o', st') -> k = sudoku_at o'.
Proof.
  intros Hrec. induction numbers as [|number rest IH]; intros o st k o' st';
    cbn [try_numbers_in]; [discriminate|].
  intros H. apply bind_Ok in H. destruct H as ([|] & _ & H); [|apply IH in H; exact H].
  apply bind_Ok in H. destruct H as ([cb st1] & _ & H).
  apply bind_Ok in H. destruct H as ([cs st2] & _ & H).
  apply bind_Ok in H. destruct H as ([o1 st3] & _ & H).
  apply bind_Ok in H. destruct H as ([o2 st4] & _ & H).
  apply bind_Ok in H. destruct H as ([[[g|] o3] st5] & Hr & H).
  - injection H as <- <- <-. apply Hrec in Hr. exact Hr.
  - apply IH in H. exact H.
Qed.

Lemma advanced_backtrack_in_own (fuel : nat) :
  forall o st k o' st',
    advanced_backtrack_in fuel o st = Ok (Some k, o', st') -> k = sudoku_at o'.
Proof.
  induction fuel as [|fuel IH]; intros o st k o' st'; [discriminate|].
  cbn [advanced_backtrack_in]. intros H.
  apply bind_Ok in H. destruct H as ([|] & _ & H).
  - injection H as <- <- <-. reflexivity.
  - apply bind_Ok in H. destruct H as ([[i j]|e|] & _ & H); try discriminate.
    + apply bind_Ok in H. destruct H as (numbers & _ & H).
      apply (try_numbers_in_own _ i j IH) in H. exact H.
    + destruct e; discriminate.
Qed.

Lemma try_numbers_visualize_in_own (rec : object -> store -> res search_result_in)
    (i j : nat) :
  (forall o st k o' st', rec o st = Ok (Some k, o', st') -> k = sudoku_at o') ->
  forall numbers o st k o' st',
    try_numbers_visualize_in rec i j numbers o st = Ok (Some k, o', st') ->
    k = sudoku_at o'.
Proof.
  intros Hrec. induction numbers as [|number rest IH]; intros o st k o' st';
    cbn [try_numbers_visualize_in]; [discriminate|].
  intros H. apply bind_Ok in H. destruct H as ([|] & _ & H); [|apply IH in H; exact H].
  apply bind_Ok in H. destruct H as ([cb st1] & _ & H).
  apply bind_Ok in H. destruct H as ([cs st2] & _ & H).
  apply bind_Ok in H. destruct H as ([o0 st2'] & _ & H).
  apply bind_Ok in H. destruct H as ([o1 st3] & _ & H).
  apply bind_Ok in H. destruct H as ([o2 st4] & _ & H).
  apply bind_Ok in H. destruct H as ([o2' st4'] & _ & H).
  apply bind_Ok in H. destruct H as ([[[g|] o3] st5] & Hr & H).
  - injection H as <- <- <-. apply Hrec in Hr. exact Hr.
  - apply bind_Ok in H. destruct H as ([o4 st6] & _ & H). apply IH in H. exact H.
Qed.

Lemma advanced_backtrack_visualize_in_own (fuel : nat) :
  forall o st k o' st',
    advanced_backtrack_visualize_in fuel o st = Ok (Some k, o', st') -> k = sudoku_at o'.
Proof.
  induction fuel as [|fuel IH]; intros o st k o' st'; [discriminate|].
  cbn [advanced_backtrack_visualize_in]. intros H.
  apply bind_Ok in H. destruct H as ([|] & _ & H).
  - injection H as <- <- <-. reflexivity.
  - apply bind_Ok in H. destruct H as ([o1 st1] & _ & H).
    apply bind_Ok in H. destruct H as ([[i j]|e|] & _ & H); try discriminate.
    + apply bind_Ok in H. destruct H as (numbers & _ & H).
      apply (try_numbers_visualize_in_own _ i j IH) in H. exact H.
    + destruct e; discriminate.
Qed.

(** ** The calls of the callback *)

Lemma emit_counts (s : Solver) (g : Grid) (st : status)
    (cell : option (nat * nat)) (number : option Z) :
  callback s = true -> visualize s = true ->
  callback (emit s g st cell number) = true /\
  visualize (emit s g st cell number) = true /\
  attempts (emit s g st cell number) = attempts s /\
  backtrack_count (emit s g st cell number) = backtrack_count s /\
  forall st', calls_with st' (emit s g st cell number)
              = (calls_with st' s + (if status_eqb st st' then 1 else 0))%Z.
Proof.
  intros Hc Hv. unfold emit, calls_with, count. rewrite Hc, Hv. cbn [andb emitted].
  cbn [filter ev_status callback visualize attempts backtrack_count]. splits; auto.
  intros st'. destruct (status_eqb st st'); cbn [length]; lia.
Qed.

Lemma fields_counts (s s' : Solver) :
  same_fields s s' ->
  callback s' = callback s /\ visualize s' = visualize s /\
  attempts s' = attempts s /\ backtrack_count s' = backtrack_count s /\
  forall st, calls_with st s' = calls_with st s.
Proof.
  intros (H1 & H2 & H3 & H4 & H5 & _). splits; auto.
  intros st. unfold calls_with. now rewrite H5.
Qed.

Lemma try_numbers_visualize_traced (rec : Solver -> res search_result) (i j : nat) :
  (forall s r s', callback s = true -> visualize s = true ->
     rec s = Ok (r, s') -> traced s r s') ->
  forall numbers s r s', callback s = true -> visualize s = true ->
    try_numbers_visualize rec i j numbers s = Ok (r, s') -> traced s r s'.
Proof.
  intros Hrec. induction numbers as [|number rest IH]; intros s r s' Hc Hv;
    cbn [try_numbers_visualize].
  - intros [= <- <-]. unfold traced, found. splits; auto; lia.
  - destruct (can_place_number s i j number) as [[|]| |]; cbn [bind]; try discriminate;
      [|apply IH; assumption].
    set (se := emit s (sudoku s) trying (Some (i, j)) (Some number)).
    destruct (emit_counts s (sudoku s) trying (Some (i, j)) (Some number) Hc Hv)
      as (Ec & Ev & Ea & Eb & En). fold se in Ec, Ev, Ea, Eb, En.
    destruct (place_number se i j number) as [s1| |] eqn:Hp; cbn [bind]; try discriminate.
    destruct (fields_counts se s1 (@place_number_fields se s1 i j number Hp))
      as (Pc & Pv & Pa & Pb & Pn).
    destruct (trivial_moves s1) as [s2| |] eqn:Ht; cbn [bind]; try discriminate.
    destruct (fields_counts s1 s2 (trivial_moves_fields s1 s2 Ht))
      as (Tc & Tv & Ta & Tb & Tn).
    set (sp := emit s2 (sudoku s2) placed None None).
    destruct (emit_counts s2 (sudoku s2) placed None None ltac:(congruence) ltac:(congruence))
      as (Fc & Fv & Fa & Fb & Fn). fold sp in Fc, Fv, Fa, Fb, Fn.
    destruct (rec sp) as [[r3 s3]| |] eqn:Hr; cbn [bind]; try discriminate.
    destruct (Hrec sp r3 s3 Fc Fv Hr) as (Rc & Rv & R1 & R2 & R3).
    pose proof (En backtracking) as En1. pose proof (En trying) as En2.
    pose proof (En placed) as En3. pose proof (En searching) as En4.
    pose proof (Fn backtracking) as Fn1. pose proof (Fn trying) as Fn2.
    pose proof (Fn placed) as Fn3. pose proof (Fn searching) as Fn4.
    cbn [status_eqb] in En1, En2, En3, En4, Fn1, Fn2, Fn3, Fn4.
    rewrite !Tn, !Pn in *.
    destruct r3 as [g|].
    + intros [= <- <-]. unfold traced, found in *. splits; auto; lia.
    + set (s4 := with_counters s3 (attempts s3) (backtrack_count s3 + 1)).
      set (s5 := emit s4 (sudoku s) backtracking (Some (i, j)) None).
      destruct (emit_counts s4 (sudoku s) backtracking (Some (i, j)) None Rc Rv)
        as (Gc & Gv & Ga & Gb & Gn). fold s5 in Gc, Gv, Ga, Gb, Gn.
      pose proof (Gn backtracking) as Gn1. pose proof (Gn trying) as Gn2.
      pose proof (Gn placed) as Gn3. pose proof (Gn searching) as Gn4.
      cbn [status_eqb] in Gn1, Gn2, Gn3, Gn4.
      assert (A4 : attempts s4 = attempts s3) by reflexivity.
      assert (B4 : backtrack_count s4 = (backtrack_count s3 + 1)%Z) by reflexivity.
      assert (N4 : forall st, calls_with st s4 = calls_with st s3) by reflexivity.
      rewrite !N4 in *. clearbody s5. clearbody s4.
      intros H. apply IH in H; [|exact Gc|exact Gv].
      destruct H as (Ic & Iv & I1 & I2 & I3).
      assert (N6 : forall st, calls_with st (with_arrays s5 (sudoku s) (bitmap s))
                              = calls_with st s5) by reflexivity.
      rewrite !N6 in *. cbn [attempts backtrack_count with_arrays] in I1, I2, I3.
      unfold traced, found in *. splits; auto; lia.
Qed.

Lemma advanced_backtrack_visualize_traced (fuel : nat) :
  forall s r s', callback s = true -> visualize s = true ->
    advanced_backtrack_visualize fuel s = Ok (r, s') -> traced s r s'.
Proof.
  induction fuel as [|fuel IH]; intros s r s' Hc Hv; [discriminate|].
  cbn [advanced_backtrack_visualize].
  set (sv := with_counters (enter s) (attempts (enter s) + 1) (backtrack_count (enter s))).
  assert (Av : attempts sv = (attempts s + 1)%Z) by reflexivity.
  assert (Bv : backtrack_count sv = backtrack_count s) by reflexivity.
  assert (Nv : forall st, calls_with st sv = calls_with st s) by reflexivity.
  assert (Cv : callback sv = true) by exact Hc.
  assert (Vv : visualize sv = true) by exact Hv.
  clearbody sv.
  destruct (is_solved sv).
  - intros [= <- <-]. unfold traced, found. rewrite !Nv. splits; auto; lia.
  - set (se := emit sv (sudoku sv) searching None None).
    destruct (emit_counts sv (sudoku sv) searching None None Cv Vv)
      as (Ec & Ev & Ea & Eb & En). fold se in Ec, Ev, Ea, Eb, En.
    pose proof (En backtracking) as En1. pose proof (En trying) as En2.
    pose proof (En placed) as En3. pose proof (En searching) as En4.
    cbn [status_eqb] in En1, En2, En3, En4. rewrite !Nv in *. clearbody se.
    destruct (advanced_least_options_cell se) as [[i j]|e|]; try discriminate.
    + intros H. apply (try_numbers_visualize_traced _ i j IH) in H; auto.
      destruct H as (Ic & Iv & I1 & I2 & I3). unfold traced in *. splits; auto; lia.
    + destruct e; try discriminate. intros [= <- <-].
      unfold traced, found. splits; auto; lia.
Qed.

(** ** The order of the calls of the callback *)

Lemma emitted_emit (s : Solver) (g : Grid) (st : status)
    (cell : option (nat * nat)) (number : option Z) :
  callback s = true -> visualize s = true ->
  callback (emit s g st cell number) = true /\
  visualize (emit s g st cell number) = true /\
  emitted (emit s g st cell number)
  = mkEvent g st cell number (attempts s) (backtrack_count s) :: emitted s.
Proof. intros Hc Hv. unfold emit. rewrite Hc, Hv. cbn. auto. Qed.

Lemma ordered_emit (s : Solver) (g : Grid) (st : status)
    (cell : option (nat * nat)) (number : option Z) :
  callback s = true -> visualize s = true -> ordered (emitted s) = true ->
  match last_status s with
  | None => st = searching
  | Some a => follows a st = true
  end ->
  callback (emit s g st cell number) = true /\
  visualize (emit s g st cell number) = true /\
  ordered (emitted (emit s g st cell number)) = true /\
  last_status (emit s g st cell number) = Some st.
Proof.
  intros Hc Hv Ho Hl.
  destruct (emitted_emit s g st cell number Hc Hv) as (Ec & Ev & Ee).
  splits; auto.
  - rewrite Ee. unfold last_status in Hl. cbn [ordered ev_status].
    destruct (emitted s) as [|e t].
    + subst st. reflexivity.
    + rewrite Hl. exact Ho.
  - unfold last_status. rewrite Ee. reflexivity.
Qed.

Lemma fields_trace (s s' : Solver) :
  same_fields s s' ->
  callback s' = callback s /\ visualize s' = visualize s /\ emitted s' = emitted s.
Proof. intros (H1 & H2 & _ & _ & H5 & _). auto. Qed.

Lemma try_numbers_visualize_ordered (rec : Solver -> res search_result) (i j : nat) :
  (forall s r s', callback s = true -> visualize s = true ->
     ordered (emitted s) = true -> at_rest s -> rec s = Ok (r, s') -> in_order r s') ->
  forall numbers s r s', callback s = true -> visualize s = true ->
    ordered (emitted s) = true -> in_loop s ->
    try_numbers_visualize rec i j numbers s = Ok (r, s') -> in_order r s'.
Proof.
  intros Hrec. induction numbers as [|number rest IH]; intros s r s' Hc Hv Ho Hl;
    cbn [try_numbers_visualize].
  - intros [= <- <-]. unfold in_order. auto.
  - destruct (can_place_number s i j number) as [[|]| |]; cbn [bind]; try discriminate;
      [|apply IH; assumption].
    set (se := emit s (sudoku s) trying (Some (i, j)) (Some number)).
    destruct (ordered_emit s (sudoku s) trying (Some (i, j)) (Some number) Hc Hv Ho)
      as (Ec & Ev & Eo & El).
    { destruct Hl as [-> | ->]; reflexivity. }
    fold se in Ec, Ev, Eo, El.
    destruct (place_number se i j number) as [s1| |] eqn:Hp; cbn [bind]; try discriminate.
    destruct (fields_trace se s1 (@place_number_fields se s1 i j number Hp))
      as (Pc & Pv & Pe).
    destruct (trivial_moves s1) as [s2| |] eqn:Ht; cbn [bind]; try discriminate.
    destruct (fields_trace s1 s2 (trivial_moves_fields s1 s2 Ht)) as (Tc & Tv & Te).
    set (sp := emit s2 (sudoku s2) placed None None).
    destruct (ordered_emit s2 (sudoku s2) placed None None) as (Fc & Fv & Fo & Fl);
      try congruence.
    { unfold last_status in *. rewrite Te, Pe. destruct (emitted se); [discriminate|].
      injection El as ->. reflexivity. }
    fold sp in Fc, Fv, Fo, Fl.
    destruct (rec sp) as [[r3 s3]| |] eqn:Hr; cbn [bind]; try discriminate.
    destruct (Hrec sp r3 s3 Fc Fv Fo (or_intror Fl) Hr) as (Rc & Rv & Ro & Rl).
    destruct r3 as [g|].
    + intros [= <- <-]. unfold in_order. auto.
    + set (s4 := with_counters s3 (attempts s3) (backtrack_count s3 + 1)).
      set (s5 := emit s4 (sudoku s) backtracking (Some (i, j)) None).
      destruct (ordered_emit s4 (sudoku s) backtracking (Some (i, j)) None Rc Rv Ro)
        as (Gc & Gv & Go & Gl).
      { change (last_status s4) with (last_status s3).
        destruct Rl as [-> | ->]; reflexivity. }
      fold s5 in Gc, Gv, Go, Gl.
      apply IH; auto. right. exact Gl.
Qed.

Lemma advanced_backtrack_visualize_ordered (fuel : nat) :
  forall s r s', callback s = true -> visualize s = true ->
    ordered (emitted s) = true -> at_rest s ->
    advanced_backtrack_visualize fuel s = Ok (r, s') -> in_order r s'.
Proof.
  induction fuel as [|fuel IH]; intros s r s' Hc Hv Ho Hl; [discriminate|].
  cbn [advanced_backtrack_visualize].
  set (sv := with_counters (enter s) (attempts (enter s) + 1) (backtrack_count (enter s))).
  destruct (is_solved sv).
  - intros [= <- <-]. unfold in_order. auto.
  - set (se := emit sv (sudoku sv) searching None None).
    destruct (ordered_emit sv (sudoku sv) searching None None Hc Hv Ho)
      as (Ec & Ev & Eo & El).
    { change (last_status sv) with (last_status s).
      destruct Hl as [-> | ->]; reflexivity. }
    fold se in Ec, Ev, Eo, El.
    destruct (advanced_least_options_cell se) as [[i j]|e|]; try discriminate.
    + apply (try_numbers_visualize_ordered _ i j IH); auto. left. exact El.
    + destruct e; try discriminate. intros [= <- <-].
      unfold in_order. splits; auto. left. exact El.
Qed.

(** ** The solver on clues that need not be consistent *)

Lemma clues_kept_arrays (input : Grid) (s s' : Solver) :
  sudoku s' = sudoku s -> bitmap s' = bitmap s -> clues_kept input s -> clues_kept input s'.
Proof.
  intros Hs Hb (H1 & H2 & H3). unfold clues_kept. rewrite Hs.
  split; [|auto]. exact (@filled_closed_arrays s s' Hs Hb H1).
Qed.

Lemma clues_kept_place (input : Grid) (s s' : Solver) (i j : nat) (number : Z) :
  clues_kept input s -> wf s -> i < 9 -> j < 9 -> (1 <= number <= 9)%Z ->
  get_bit (bitmap s) i j (Z.to_nat (number - 1)) = true ->
  place_number s i j number = Ok s' -> clues_kept input s'.
Proof.
  intros (Hcl & Hdig & Hext) Hwf Hi Hj Hn Hbit Hp.
  pose proof (@candidate_cell_empty s i j _ Hcl Hi Hj Hbit) as Hz.
  destruct (@place_number_spec s i j number Hwf Hi Hj Hn) as (s1 & Hp1 & _ & Hg & _).
  rewrite Hp in Hp1. injection Hp1 as <-.
  split; [exact (@place_keeps_closed s s' i j number Hwf Hi Hj Hn Hp Hcl)|]. split.
  - intros r c Hr Hc. rewrite (Hg r c Hr Hc).
    destruct ((r =? i) && (c =? j)); [lia|apply Hdig; assumption].
  - intros r c Hr Hc Hnz. rewrite (Hg r c Hr Hc).
    destruct ((r =? i) && (c =? j)) eqn:E; [|apply Hext; assumption].
    b2p. destruct E as [-> ->]. specialize (Hext i j Hi Hj Hnz). congruence.
Qed.

Lemma clues_kept_guess (input : Grid) (s : Solver) (i j : nat) (number : Z) (s' : Solver) :
  clues_kept input s -> wf s -> i < 9 -> j < 9 -> (1 <= number <= 9)%Z ->
  can_place_number s i j number = Ok true ->
  place_number s i j number = Ok s' -> clues_kept input s'.
Proof.
  intros Hk Hwf Hi Hj Hn Hcan Hp.
  rewrite (@can_place_digit s i j number Hn) in Hcan. injection Hcan as Hbit.
  exact (clues_kept_place input s s' i j number Hk Hwf Hi Hj Hn Hbit Hp).
Qed.

Lemma clues_kept_forced (input : Grid) (s : Solver) (i j : nat) (s' : Solver) :
  clues_kept input s -> wf s -> i < 9 -> j < 9 -> is_trivial_cell s i j = true ->
  place_number s i j (forced_number s i j) = Ok s' -> clues_kept input s'.
Proof.
  intros Hk Hwf Hi Hj Ht Hp.
  destruct (@forced_number_spec s i j Hwf Hi Hj Ht) as (_ & Hn & Hbit).
  exact (clues_kept_place input s s' i j _ Hk Hwf Hi Hj Hn Hbit Hp).
Qed.

(** ** Concrete inputs *)

Lemma extends_check_sound (input g : Grid) : extends_check input g = true -> extends input g.
Proof.
  unfold extends_check. rewrite forallb_forall. intros H r c Hr Hc Hnz.
  specialize (H (r, c) (proj2 (In_cells r c) (conj Hr Hc))). cbv beta iota in H.
  b2p. destruct H as [H|H]; [congruence|exact H].
Qed.

Lemma same_search_sym (x y : search_result) : same_search x y -> same_search y x.
Proof. unfold same_search, agree. intuition congruence. Qed.

Lemma same_search_trans (x y z : search_result) :
  same_search x y -> same_search y z -> same_search x z.
Proof. unfold same_search, agree. intuition congruence. Qed.

Lemma sim_sym {X : Type} (R : X -> X -> Prop) (a b : res X) :
  (forall x y, R x y -> R y x) -> sim R a b -> sim R b a.
Proof. intros HR. destruct a, b; cbn [sim]; auto. Qed.

Lemma sim_trans {X : Type} (R : X -> X -> Prop) (a b c : res X) :
  (forall x y z, R x y -> R y z -> R x z) -> sim R a b -> sim R b c -> sim R a c.
Proof.
  intros HR. destruct a, b, c; cbn [sim]; try contradiction; auto.
  - apply HR.
  - congruence.
Qed.

Lemma example_puzzle_completed : completes empty_solution example_puzzle.
Proof.
  split; [exact empty_solution_solution|].
  apply extends_check_sound. vm_compute. reflexivity.
Qed.

Lemma example_state_built : SudokuSolver example_puzzle false = Ok example_state.
Proof. vm_compute. reflexivity. Qed.

(** ** Further properties *)

(** X1.  [place_number(i, j, number)] with a digit 1..9 returns; it leaves
    the counters, the flags and the calls of the callback alone, changes no
    cell of the grid but (i, j), changes no candidate of another cell unless
    it is the candidate [number] of a cell in the row, the column or the box
    of (i, j), and switches no candidate on. *)
Theorem place_number_touches_only_peers (s : Solver) (i j : nat) (number : Z) :
  wf s -> i < 9 -> j < 9 -> (1 <= number <= 9)%Z ->
  exists s', place_number s i j number = Ok s' /\
    same_fields s s' /\
    (forall r c, r < 9 -> c < 9 -> (r, c) <> (i, j) ->
       get_cell (sudoku s') r c = get_cell (sudoku s) r c) /\
    (forall r c k, r < 9 -> c < 9 -> (r, c) <> (i, j) ->
       k <> Z.to_nat (number - 1) \/ ~ peer i j r c ->
       get_bit (bitmap s') r c k = get_bit (bitmap s) r c k) /\
    (forall r c k, get_bit (bitmap s) r c k = false -> get_bit (bitmap s') r c k = false).
Proof.
  intros Hwf Hi Hj Hn.
  destruct (@place_number_spec s i j number Hwf Hi Hj Hn) as (s' & Hp & _ & Hg & Hb).
  exists s'. split; [exact Hp|]. split; [exact (@place_number_fields s s' i j number Hp)|].
  splits.
  - intros r c Hr Hc Hne. rewrite (Hg r c Hr Hc).
    destruct ((r =? i) && (c =? j)) eqn:E; [|reflexivity].
    b2p. destruct E; subst. congruence.
  - intros r c k Hr Hc Hne Hout. rewrite Hb.
    destruct (cleared i j (Z.to_nat (number - 1)) r c k) eqn:E; [|reflexivity].
    apply (@cleared_true i j (Z.to_nat (number - 1)) r c k Hr Hc) in E.
    destruct E as [[-> ->]|[Hk Hp']]; [congruence|]. tauto.
  - intros r c k Hf. rewrite Hb, Hf. destruct (cleared _ _ _ _ _ _); reflexivity.
Qed.

Lemma place_number_touches_only_peers_witness :
  exists s', place_number (init_state false) 4 4 5 = Ok s' /\
    same_fields (init_state false) s' /\
    (forall r c, r < 9 -> c < 9 -> (r, c) <> (4, 4) ->
       get_cell (sudoku s') r c = get_cell (sudoku (init_state false)) r c) /\
    (forall r c k, r < 9 -> c < 9 -> (r, c) <> (4, 4) ->
       k <> Z.to_nat (5 - 1) \/ ~ peer 4 4 r c ->
       get_bit (bitmap s') r c k = get_bit (bitmap (init_state false)) r c k) /\
    (forall r c k, get_bit (bitmap (init_state false)) r c k = false ->
       get_bit (bitmap s') r c k = false).
Proof.
  apply (place_number_touches_only_peers (init_state false) 4 4 5).
  - apply wf_init_state.
  - lia.
  - lia.
  - lia.
Defined.

(** X2.  On the 9x9 arrays of a solver, for a cell (i, j) of the grid and
    a number of the int64 range, the index [number - 1] of [place_number]
    and [can_place_number] follows Python's rule for an axis of length 9:
    both raise [IndexError] exactly when [number] is below -8 or above 9;
    for [number] from -8 to 0 neither raises, [place_number] writes
    [number] into the cell and eliminates the bit [number + 8], so
    [place_number(i, j, 0)] removes the candidate 9 from the row, the column
    and the box. *)
Theorem place_number_index_edge (s : Solver) (i j : nat) (number : Z) :
  wf s -> i < 9 -> j < 9 -> (- 2 ^ 63 <= number < 2 ^ 63)%Z ->
  ((number < -8 \/ 9 < number)%Z <->
   place_number s i j number = Raise IndexError) /\
  ((number < -8 \/ 9 < number)%Z <->
   can_place_number s i j number = Raise IndexError) /\
  ((-8 <= number <= 0)%Z ->
   place_number s i j number =
   Ok (with_arrays s (set_cell (sudoku s) i j number)
                     (eliminate (bitmap s) i j (Z.to_nat (number + 8)))) /\
   can_place_number s i j number = Ok (get_bit (bitmap s) i j (Z.to_nat (number + 8)))).
Proof.
  intros _ _ _ _.
  unfold place_number, can_place_number. rewrite (py_index_cases number).
  destruct ((1 <=? number) && (number <=? 9))%Z eqn:E1; cbn [bind].
  - b2p. splits; try (split; [lia|discriminate]). lia.
  - destruct ((-8 <=? number) && (number <=? 0))%Z eqn:E2; cbn [bind].
    + b2p. splits; try (split; [lia|discriminate]). intros _. split; reflexivity.
    + b2p. splits; try (split; [reflexivity|lia]). lia.
Qed.

Lemma place_number_index_edge_witness :
  ((0 < -8 \/ 9 < 0)%Z <->
   place_number (init_state false) 4 4 0 = Raise IndexError) /\
  ((0 < -8 \/ 9 < 0)%Z <->
   can_place_number (init_state false) 4 4 0 = Raise IndexError) /\
  ((-8 <= 0 <= 0)%Z ->
   place_number (init_state false) 4 4 0 =
   Ok (with_arrays (init_state false) (set_cell (sudoku (init_state false)) 4 4 0)
         (eliminate (bitmap (init_state false)) 4 4 (Z.to_nat (0 + 8)))) /\
   can_place_number (init_state false) 4 4 0
   = Ok (get_bit (bitmap (init_state false)) 4 4 (Z.to_nat (0 + 8)))).
Proof.
  apply (place_number_index_edge (init_state false) 4 4 0).
  - apply wf_init_state.
  - lia.
  - lia.
  - lia.
Defined.

(** X3.  On a 9x9 input whose entries are in the int64 range, the
    constructor returns when every entry is between -8 and 9, with the input
    as its grid and both counters 0, and it raises [IndexError] when some
    entry is below -8 or above 9. *)
Theorem constructor_index_error (input : Grid) (cb : bool) :
  wf_grid input ->
  (forall r c, r < 9 -> c < 9 -> (- 2 ^ 63 <= get_cell input r c < 2 ^ 63)%Z) ->
  ((forall r c, r < 9 -> c < 9 -> (-8 <= get_cell input r c <= 9)%Z) ->
   exists s, SudokuSolver input cb = Ok s /\ sudoku s = input /\
             attempts s = 0%Z /\ backtrack_count s = 0%Z) /\
  ((exists r c, r < 9 /\ c < 9 /\ (get_cell input r c < -8 \/ 9 < get_cell input r c)%Z) ->
   SudokuSolver input cb = Raise IndexError).
Proof.
  intros Hin _. unfold SudokuSolver. split.
  - intros Hok.
    assert (Hl : forall i j, In (i, j) cells ->
                   i < 9 /\ j < 9 /\ (-8 <= get_cell input i j <= 9)%Z).
    { intros i j Hc. apply In_cells in Hc. destruct Hc. split; [|split]; auto. }
    destruct (init_cells_accepted input cells Hin Hl (init_state cb)
                (wf_init_state cb) (sub_grid_init_state input cb))
      as (s & Hs & Hwf & _ & Hsame & Hcells).
    exists s. split; [exact Hs|]. split.
    + apply (@grid_ext (sudoku s) input (proj1 Hwf) Hin).
      intros r c Hr Hc. apply Hcells; auto. left. apply In_cells. auto.
    + destruct Hsame as (_ & _ & Ha & Hb & _). simpl in Ha, Hb. auto.
  - intros (r & c & Hr & Hc & Hbad).
    apply init_cells_rejected; auto.
    + intros i j H. apply In_cells. exact H.
    + exists r, c. split; [apply In_cells; auto|exact Hbad].
    + apply wf_init_state.
Qed.

Lemma constructor_index_error_witness :
  ((forall r c, r < 9 -> c < 9 -> (-8 <= get_cell example_puzzle r c <= 9)%Z) ->
   exists s, SudokuSolver example_puzzle false = Ok s /\ sudoku s = example_puzzle /\
             attempts s = 0%Z /\ backtrack_count s = 0%Z) /\
  ((exists r c, r < 9 /\ c < 9 /\
      (get_cell example_puzzle r c < -8 \/ 9 < get_cell example_puzzle r c)%Z) ->
   SudokuSolver example_puzzle false = Raise IndexError).
Proof.
  apply (constructor_index_error example_puzzle false).
  - apply shape_grid_wf. vm_compute. reflexivity.
  - intros r c Hr Hc.
    pose proof (@digits_check_sound example_puzzle ltac:(vm_compute; reflexivity) r c Hr Hc).
    lia.
Defined.

(** X4.  After the constructor on a 9x9 grid of entries 0..9,
    [can_place_number(r, c, d)] is [True] for a digit [d] exactly when the
    cell (r, c) is empty and no cell of its row, its column or its box holds
    [d]; the clues need not be consistent for this. *)
Theorem constructor_candidates (input : Grid) (cb : bool) :
  wf_grid input -> digits_grid input ->
  exists s, SudokuSolver input cb = Ok s /\ sudoku s = input /\
    forall r c d, r < 9 -> c < 9 -> (1 <= d <= 9)%Z ->
      (can_place_number s r c d = Ok true <->
       get_cell input r c = 0%Z /\
       forall r' c', r' < 9 -> c' < 9 -> peer r c r' c' -> get_cell input r' c' <> d).
Proof.
  intros Hin Hdig.
  destruct (@SudokuSolver_spec input cb Hin Hdig) as (s & Hs & _ & Eg & _).
  exists s. split; [exact Hs|]. split; [exact Eg|].
  intros r c d Hr Hc Hd.
  pose proof (init_cells_candidates input Hin Hdig cells
                (fun i j H => proj1 (In_cells i j) H) [] (init_state cb) s
                (wf_init_state cb)) as Hcand.
  cbn [app] in Hcand.
  assert (Hstart : forall r c k, get_bit (bitmap (init_state cb)) r c k = true <->
                     get_bit ones999 r c k = true /\
                     forall i j, In (i, j) (@nil (nat * nat)) -> get_cell input i j <> 0%Z ->
                       cleared i j (Z.to_nat (get_cell input i j - 1)) r c k = false).
  { intros r0 c0 k0. simpl. split; [intros H; split; [exact H|intros ? ? []]|tauto]. }
  specialize (Hcand Hstart Hs r c (Z.to_nat (d - 1))).
  rewrite (@can_place_digit s r c d Hd).
  rewrite (get_bit_ones999 r c (Z.to_nat (d - 1)) Hr Hc ltac:(lia)) in Hcand.
  split.
  - intros [= Hbit]. apply Hcand in Hbit. destruct Hbit as [_ Hno].
    assert (Hz : get_cell input r c = 0%Z).
    { destruct (Z.eq_dec (get_cell input r c) 0) as [|Hnz]; [assumption|].
      specialize (Hno r c (proj2 (In_cells r c) (conj Hr Hc)) Hnz).
      unfold cleared in Hno. rewrite !Nat.eqb_refl in Hno. discriminate. }
    split; [exact Hz|]. intros r' c' Hr' Hc' Hp E.
    assert (Hnz : get_cell input r' c' <> 0%Z) by lia.
    specialize (Hno r' c' (proj2 (In_cells r' c') (conj Hr' Hc')) Hnz).
    assert (Ht : cleared r' c' (Z.to_nat (get_cell input r' c' - 1)) r c (Z.to_nat (d - 1))
                 = true).
    { apply cleared_true; auto. right. split; [rewrite E; reflexivity|].
      apply peer_sym. exact Hp. }
    congruence.
  - intros [Hz Hno]. f_equal. apply Hcand. split; [reflexivity|].
    intros i j Hc' Hnz. apply In_cells in Hc'. destruct Hc' as [Hi Hj].
    destruct (cleared i j (Z.to_nat (get_cell input i j - 1)) r c (Z.to_nat (d - 1)))
      eqn:Hcl; [|reflexivity].
    exfalso. apply cleared_true in Hcl; auto.
    destruct Hcl as [[-> ->]|[Hk Hp]]; [congruence|].
    apply (Hno i j Hi Hj); [apply peer_sym; exact Hp|].
    specialize (Hdig i j Hi Hj). lia.
Qed.

Lemma constructor_candidates_witness :
  exists s, SudokuSolver example_puzzle false = Ok s /\ sudoku s = example_puzzle /\
    forall r c d, r < 9 -> c < 9 -> (1 <= d <= 9)%Z ->
      (can_place_number s r c d = Ok true <->
       get_cell example_puzzle r c = 0%Z /\
       forall r' c', r' < 9 -> c' < 9 -> peer r c r' c' -> get_cell example_puzzle r' c' <> d).
Proof.
  apply (constructor_candidates example_puzzle false).
  - apply shape_grid_wf. vm_compute. reflexivity.
  - apply digits_check_sound. vm_compute. reflexivity.
Defined.

(** X5.  [trivial_moves] returns; it leaves the counters, the flags and the
    calls of the callback alone; a filled cell keeps its value; a cell it
    fills gets a digit 1..9 that [can_place_number] accepted for that cell
    before the call; and no candidate is switched on. *)
Theorem trivial_moves_only_fills (s : Solver) :
  wf s ->
  exists s', trivial_moves s = Ok s' /\ same_fields s s' /\
    (forall r c, r < 9 -> c < 9 -> get_cell (sudoku s) r c <> 0%Z ->
       get_cell (sudoku s') r c = get_cell (sudoku s) r c) /\
    (forall r c, r < 9 -> c < 9 -> get_cell (sudoku s) r c = 0%Z ->
       get_cell (sudoku s') r c <> 0%Z ->
       (1 <= get_cell (sudoku s') r c <= 9)%Z /\
       can_place_number s r c (get_cell (sudoku s') r c) = Ok true) /\
    (forall r c k, get_bit (bitmap s) r c k = false -> get_bit (bitmap s') r c k = false).
Proof.
  intros Hwf. destruct (@trivial_moves_total s Hwf) as (s' & Ht & Hst).
  exists s'. split; [exact Ht|]. split; [exact (@forced_steps_fields s s' Hst)|].
  destruct (forced_steps_frame s s' Hst Hwf) as (Ha & Hb & Hc).
  splits; auto. intros r c Hr Hc' Hz Hnz.
  destruct (Hb r c Hr Hc' Hz Hnz) as [Hd Hbit]. split; [exact Hd|].
  rewrite (@can_place_digit s r c _ Hd), Hbit. reflexivity.
Qed.

Lemma trivial_moves_only_fills_witness :
  exists s', trivial_moves example_state = Ok s' /\ same_fields example_state s' /\
    (forall r c, r < 9 -> c < 9 -> get_cell (sudoku example_state) r c <> 0%Z ->
       get_cell (sudoku s') r c = get_cell (sudoku example_state) r c) /\
    (forall r c, r < 9 -> c < 9 -> get_cell (sudoku example_state) r c = 0%Z ->
       get_cell (sudoku s') r c <> 0%Z ->
       (1 <= get_cell (sudoku s') r c <= 9)%Z /\
       can_place_number example_state r c (get_cell (sudoku s') r c) = Ok true) /\
    (forall r c k, get_bit (bitmap example_state) r c k = false ->
       get_bit (bitmap s') r c k = false).
Proof.
  apply (trivial_moves_only_fills example_state).
  apply shape_wf. vm_compute. reflexivity.
Defined.

(** X6.  [trivial_moves] rules no completion out: when the grid of a state
    holds only cells of a completed grid [g] and empty cells, and the digit
    of [g] is a candidate of every empty cell, then the same holds after
    [trivial_moves], and every filled cell holds the digit of [g]. *)
Theorem trivial_moves_keeps_completions (g : Grid) (s : Solver) :
  wf s -> solution g -> carries g s ->
  exists s', trivial_moves s = Ok s' /\ carries g s' /\
    forall r c, r < 9 -> c < 9 -> get_cell (sudoku s') r c <> 0%Z ->
      get_cell (sudoku s') r c = get_cell g r c.
Proof.
  intros Hwf Hsol Hc. destruct (@trivial_moves_total s Hwf) as (s' & Ht & Hst).
  exists s'. split; [exact Ht|].
  pose proof (carries_forced_steps g s s' Hsol Hst Hwf Hc) as Hc'.
  split; [exact Hc'|]. intros r c Hr Hcc Hnz.
  destruct (proj1 Hc' r c Hr Hcc); congruence.
Qed.

Lemma trivial_moves_keeps_completions_witness :
  exists s', trivial_moves example_state = Ok s' /\ carries empty_solution s' /\
    forall r c, r < 9 -> c < 9 -> get_cell (sudoku s') r c <> 0%Z ->
      get_cell (sudoku s') r c = get_cell empty_solution r c.
Proof.
  apply (trivial_moves_keeps_completions empty_solution example_state).
  - apply shape_wf. vm_compute. reflexivity.
  - exact empty_solution_solution.
  - apply (carries_built empty_solution example_puzzle false example_state).
    + apply shape_grid_wf. vm_compute. reflexivity.
    + exact example_puzzle_completed.
    + exact example_state_built.
Defined.

(** X7.  [advanced_least_options_cell] raises [ValueError] exactly when no
    cell is empty.  Otherwise it returns an empty cell such that no empty
    cell has a higher impact score (compared as binary64 numbers) and every
    empty cell before it in row-major order has a lower one. *)
Theorem least_options_cell_choice (s : Solver) :
  wf s ->
  (advanced_least_options_cell s = Raise ValueError <-> count_empty (sudoku s) = 0) /\
  (count_empty (sudoku s) <> 0 ->
   exists i j, advanced_least_options_cell s = Ok (i, j) /\ i < 9 /\ j < 9 /\
     get_cell (sudoku s) i j = 0%Z /\
     forall r c, r < 9 -> c < 9 -> get_cell (sudoku s) r c = 0%Z ->
       (impact_score s i j <? impact_score s r c)%float = false /\
       (before r c i j -> (impact_score s r c <? impact_score s i j)%float = true)).
Proof.
  intros Hwf. split; [|apply least_options_cell_max; exact Hwf].
  pose proof (full_mask s Hwf) as Hfull. unfold advanced_least_options_cell.
  destruct (existsb (fun m => m) (empty_cells_mask s)); cbn [negb].
  - split; [discriminate|]. intros H. apply Hfull in H. discriminate.
  - split; [intros _; now apply Hfull|reflexivity].
Qed.

Lemma least_options_cell_choice_witness :
  (advanced_least_options_cell example_state = Raise ValueError <->
   count_empty (sudoku example_state) = 0) /\
  (count_empty (sudoku example_state) <> 0 ->
   exists i j, advanced_least_options_cell example_state = Ok (i, j) /\ i < 9 /\ j < 9 /\
     get_cell (sudoku example_state) i j = 0%Z /\
     forall r c, r < 9 -> c < 9 -> get_cell (sudoku example_state) r c = 0%Z ->
       (impact_score example_state i j <? impact_score example_state r c)%float = false /\
       (before r c i j ->
        (impact_score example_state r c <? impact_score example_state i j)%float = true)).
Proof.
  apply (least_options_cell_choice example_state).
  apply shape_wf. vm_compute. reflexivity.
Defined.

(** X8.  [smart_number_ordering] lists, each once, exactly the digits 1..9
    that [can_place_number] accepts for the cell. *)
Theorem smart_number_ordering_placeable (s : Solver) (i j : nat) :
  NoDup (smart_number_ordering s i j) /\
  forall number, In number (smart_number_ordering s i j) <->
    (1 <= number <= 9)%Z /\ can_place_number s i j number = Ok true.
Proof.
  split.
  - apply (Permutation_NoDup (Permutation_sym (sorted_perm _ _))).
    unfold possible_numbers. apply Finite.Injective_map_NoDup.
    + intros x y H. lia.
    + apply NoDup_filter. unfold range. apply seq_NoDup.
  - intros number. unfold smart_number_ordering.
    rewrite In_sorted, In_possible_numbers. split.
    + intros [Hd Hb]. split; [exact Hd|]. rewrite (@can_place_digit s i j number Hd), Hb.
      reflexivity.
    + intros [Hd Hc]. split; [exact Hd|].
      rewrite (@can_place_digit s i j number Hd) in Hc. congruence.
Qed.

(** X9.  When [solve_with_visualization] returns [None], in either mode,
    the grid and the candidate array of the solver are what they were before
    the call. *)
Theorem failed_solve_restores (s : Solver) (vis : bool) (s' : Solver) :
  solve_with_visualization s vis = Ok (None, s') ->
  sudoku s' = sudoku s /\ bitmap s' = bitmap s.
Proof.
  assert (Hplain : forall t, solve_with_visualization s false = Ok (None, t) ->
                     sudoku t = sudoku s /\ bitmap t = bitmap s).
  { intros t H. unfold solve_with_visualization, solve_fuel in H.
    apply advanced_backtrack_failed in H. exact H. }
  destruct vis; [|apply Hplain]. intros H.
  pose proof (solve_fuel_agree (S (count_empty (sudoku s))) s) as Hsim.
  fold (solve_with_visualization s true) in Hsim.
  fold (solve_with_visualization s false) in Hsim. rewrite H in Hsim.
  destruct (sim_Ok_l _ _ _ Hsim) as ([r t] & Et & Er & Hs & Hb & _).
  simpl in Er, Hs, Hb. subst r. destruct (Hplain t Et) as [<- <-]. auto.
Qed.

Lemma failed_solve_restores_witness :
  sudoku stuck_failed = sudoku stuck_state /\ bitmap stuck_failed = bitmap stuck_state.
Proof.
  apply (failed_solve_restores stuck_state true stuck_failed).
  vm_compute. reflexivity.
Defined.

(** X10.  For a 9x9 puzzle of entries 0..9 with consistent clues, in both
    modes: the constructor and [solve_with_visualization] return; a grid
    that is returned is the solver's grid, is full, has row, column and box
    uniqueness and keeps every clue; when [None] is returned the solver's
    grid is the puzzle again. *)
Theorem solve_returns_a_completion (input : Grid) (cb vis : bool) :
  wf_grid input -> digits_grid input -> unique_grid input ->
  exists s0 r s', SudokuSolver input cb = Ok s0 /\
    solve_with_visualization s0 vis = Ok (r, s') /\
    match r with
    | Some g => completes g input /\ sudoku s' = g
    | None => sudoku s' = input
    end.
Proof.
  intros Hin Hdig Hun.
  destruct (@SudokuSolver_spec input cb Hin Hdig) as (s0 & Hs0 & _).
  destruct (keeps_built input cb s0 Hin Hdig Hun Hs0) as [Hk Eg].
  destruct (search_sound input s0 Hk) as (r & s' & Hr & Hres).
  destruct (solve_either_mode s0 vis r s' Hr) as (sv & Hv & Es & Eb).
  exists s0, r, sv. split; [exact Hs0|]. split; [exact Hv|].
  rewrite Es. destruct r as [g|].
  - destruct Hres as [Hc ->]. auto.
  - destruct Hres as [-> _]. exact Eg.
Qed.

Lemma solve_returns_a_completion_witness :
  exists s0 r s', SudokuSolver stuck_puzzle true = Ok s0 /\
    solve_with_visualization s0 true = Ok (r, s') /\
    match r with
    | Some g => completes g stuck_puzzle /\ sudoku s' = g
    | None => sudoku s' = stuck_puzzle
    end.
Proof.
  apply (solve_returns_a_completion stuck_puzzle true true).
  - apply shape_grid_wf. vm_compute. reflexivity.
  - apply digits_check_sound. vm_compute. reflexivity.
  - apply unique_check_sound. vm_compute. reflexivity.
Defined.

(** X11.  A 9x9 puzzle that has a completion is solved: in both modes
    [solve_with_visualization] returns a completion of it, which is the
    grid of the solver, and never [None]. *)
Theorem solve_finds_a_completion (input g0 : Grid) (cb vis : bool) :
  wf_grid input -> completes g0 input ->
  exists s0 g s', SudokuSolver input cb = Ok s0 /\
    solve_with_visualization s0 vis = Ok (Some g, s') /\
    completes g input /\ sudoku s' = g.
Proof.
  intros Hin Hc0.
  destruct (solve_search_complete input g0 cb vis Hin Hc0) as (s0 & g & s' & Hs0 & Hr & Hg).
  exists s0, g, s'. splits; auto.
  destruct (completes_consistent g0 input Hc0) as [Hdig Hun].
  destruct (keeps_built input cb s0 Hin Hdig Hun Hs0) as [Hk _].
  destruct (search_sound input s0 Hk) as (r & t & Hplain & Hres).
  destruct (solve_either_mode s0 vis r t Hplain) as (sv & Hv & Es & _).
  rewrite Hr in Hv. injection Hv as <- <-. rewrite Es. destruct Hres as [_ ->]. reflexivity.
Qed.

Lemma solve_finds_a_completion_witness :
  exists s0 g s', SudokuSolver example_puzzle true = Ok s0 /\
    solve_with_visualization s0 true = Ok (Some g, s') /\
    completes g example_puzzle /\ sudoku s' = g.
Proof.
  apply (solve_finds_a_completion example_puzzle empty_solution true true).
  - apply shape_grid_wf. vm_compute. reflexivity.
  - exact example_puzzle_completed.
Defined.

(** X12.  The outcome of [solve_with_visualization] depends on the grid and
    the candidates only: two solvers with the same arrays, whatever their
    modes, callbacks and counters, both return, with the same answer, the
    same final grid and candidates and the same count of backtracks, or
    both raise the same exception. *)
Theorem search_depends_on_arrays_only (s t : Solver) (vis vis' : bool) :
  sudoku s = sudoku t -> bitmap s = bitmap t ->
  sim same_search (solve_with_visualization s vis) (solve_with_visualization t vis').
Proof.
  intros Hs Hb. unfold solve_with_visualization. rewrite Hs.
  set (fuel := S (count_empty (sudoku t))).
  assert (Hst : sim same_search (solve_fuel fuel s true) (solve_fuel fuel t false)).
  { unfold solve_fuel. apply advanced_backtrack_agree. unfold agree. simpl. auto. }
  pose proof (solve_fuel_agree fuel s) as Hss.
  pose proof (solve_fuel_agree fuel t) as Htt.
  assert (Sym : forall a b : res search_result,
            sim same_search a b -> sim same_search b a)
    by (intros a b; apply sim_sym; exact same_search_sym).
  assert (Tr : forall a b c : res search_result,
            sim same_search a b -> sim same_search b c -> sim same_search a c)
    by (intros a b c; apply sim_trans; exact same_search_trans).
  destruct vis, vis'.
  - exact (Tr _ _ _ Hst (Sym _ _ Htt)).
  - exact Hst.
  - exact (Tr _ _ _ (Sym _ _ Hss) (Tr _ _ _ Hst (Sym _ _ Htt))).
  - exact (Tr _ _ _ (Sym _ _ Hss) Hst).
Qed.

Lemma search_depends_on_arrays_only_witness :
  sim same_search (solve_with_visualization example_state true)
                  (solve_with_visualization (with_counters example_state 7 3) false).
Proof.
  apply (search_depends_on_arrays_only example_state (with_counters example_state 7 3)
           true false); reflexivity.
Defined.

(** X13.  A 9x9 grid without an empty cell is returned as it is, in both
    modes, whether or not its rows, columns and boxes are consistent: the
    callback is not called, no backtrack is counted, and [attempts] is 1
    with visualisation and 0 without. *)
Theorem full_grid_is_returned (input : Grid) (cb : bool) :
  wf_grid input ->
  (forall r c, r < 9 -> c < 9 -> (1 <= get_cell input r c <= 9)%Z) ->
  exists s0, SudokuSolver input cb = Ok s0 /\
    forall vis, exists s',
      solve_with_visualization s0 vis = Ok (Some input, s') /\
      sudoku s' = input /\ emitted s' = [] /\ backtrack_count s' = 0%Z /\
      attempts s' = (if vis then 1 else 0)%Z.
Proof.
  intros Hin Hfull.
  assert (Hdig : digits_grid input) by (intros r c Hr Hc; specialize (Hfull r c Hr Hc); lia).
  destruct (@SudokuSolver_spec input cb Hin Hdig) as (s0 & Hs0 & _ & Eg & Hsame).
  exists s0. split; [exact Hs0|]. intros vis.
  assert (Hce : count_empty input = 0).
  { apply (count_empty_zero input Hin). intros r c Hr Hc.
    specialize (Hfull r c Hr Hc). lia. }
  destruct Hsame as (_ & _ & _ & _ & Hem & _). simpl in Hem.
  unfold solve_with_visualization, solve_fuel. rewrite Eg, Hce.
  destruct vis; cbn [advanced_backtrack advanced_backtrack_visualize].
  - set (sv := with_counters _ _ _).
    assert (Hsol : is_solved sv = true)
      by (unfold is_solved; simpl; rewrite Eg, Hce; reflexivity).
    rewrite Hsol. exists sv. simpl. rewrite Eg. splits; auto.
  - set (sv := enter _).
    assert (Hsol : is_solved sv = true)
      by (unfold is_solved; simpl; rewrite Eg, Hce; reflexivity).
    rewrite Hsol. exists sv. simpl. rewrite Eg. splits; auto.
Qed.

Lemma full_grid_is_returned_witness :
  exists s0, SudokuSolver fives false = Ok s0 /\
    forall vis, exists s',
      solve_with_visualization s0 vis = Ok (Some fives, s') /\
      sudoku s' = fives /\ emitted s' = [] /\ backtrack_count s' = 0%Z /\
      attempts s' = (if vis then 1 else 0)%Z.
Proof.
  apply (full_grid_is_returned fives false).
  - apply shape_grid_wf. vm_compute. reflexivity.
  - intros r c Hr Hc.
    assert (H : forallb (fun '(r, c) => (get_cell fives r c =? 5)%Z) cells = true)
      by (vm_compute; reflexivity).
    rewrite forallb_forall in H.
    specialize (H (r, c) (proj2 (In_cells r c) (conj Hr Hc))). cbv beta iota in H.
    b2p. lia.
Defined.

(** X14.  After a solve with visualisation, [backtrack_count] is at least 0
    and below [attempts]; when the solve returned [None], [attempts] is
    [backtrack_count + 1]. *)
Theorem backtracks_below_attempts (s : Solver) (r : option Grid) (s' : Solver) :
  solve_with_visualization s true = Ok (r, s') ->
  (0 <= backtrack_count s' < attempts s')%Z /\
  (r = None -> attempts s' = backtrack_count s' + 1)%Z.
Proof.
  unfold solve_with_visualization, solve_fuel. intros H.
  apply advanced_backtrack_visualize_counted in H.
  destruct H as (H0 & H1 & H2). cbv zeta in H0, H1, H2. simpl in H0, H1, H2.
  split; [lia|]. intros ->. specialize (H2 eq_refl). lia.
Qed.

Lemma backtracks_below_attempts_witness :
  (0 <= backtrack_count stuck_failed < attempts stuck_failed)%Z /\
  (@None Grid = None -> attempts stuck_failed = backtrack_count stuck_failed + 1)%Z.
Proof.
  apply (backtracks_below_attempts stuck_state None stuck_failed).
  vm_compute. reflexivity.
Defined.

(** X15.  After a solve with visualisation of a solver that has a callback:
    the callback was called with status 'backtracking' [backtrack_count]
    times, with 'trying' as often as with 'placed', and with 'searching'
    [attempts] times when [None] was returned and [attempts - 1] times
    when a grid was. *)
Theorem callback_calls_match_counters (s : Solver) (r : option Grid) (s' : Solver) :
  callback s = true -> emitted s = [] ->
  solve_with_visualization s true = Ok (r, s') ->
  calls_with backtracking s' = backtrack_count s' /\
  calls_with trying s' = calls_with placed s' /\
  calls_with searching s' = (attempts s' - found r)%Z.
Proof.
  intros Hc Hem. unfold solve_with_visualization, solve_fuel. intros H.
  apply advanced_backtrack_visualize_traced in H; [|exact Hc|reflexivity].
  destruct H as (_ & _ & H1 & H2 & H3).
  assert (N0 : forall st, calls_with st (with_counters (with_visualize s true) 0 0) = 0%Z).
  { intros st. unfold calls_with. simpl. rewrite Hem. reflexivity. }
  rewrite !N0 in *. simpl in H1, H2, H3. splits; lia.
Qed.

Lemma callback_calls_match_counters_witness :
  calls_with backtracking (snd example_streamed) = backtrack_count (snd example_streamed) /\
  calls_with trying (snd example_streamed) = calls_with placed (snd example_streamed) /\
  calls_with searching (snd example_streamed)
  = (attempts (snd example_streamed) - found (fst example_streamed))%Z.
Proof.
  apply (callback_calls_match_counters example_streaming (fst example_streamed)
           (snd example_streamed)).
  - reflexivity.
  - reflexivity.
  - vm_compute. reflexivity.
Defined.

(** X16.  The grid [solve_with_visualization] returns is no copy: it is the
    array the attribute [sudoku] of the solver is bound to when the call
    returns, in both modes. *)
Theorem solve_returns_own_array (o : object) (vis : bool) (st : store)
    (k : ref) (o' : object) (st' : store) :
  solve_with_visualization_in o vis st = Ok (Some k, o', st') ->
  k = sudoku_at o' /\
  forall s', view o' st' = Ok s' -> read_int k st' = Ok (sudoku s').
Proof.
  unfold solve_with_visualization_in, solve_fuel_in. intros H.
  apply bind_Ok in H. destruct H as (n & _ & H).
  assert (E : k = sudoku_at o').
  { destruct vis.
    - apply advanced_backtrack_visualize_in_own in H. exact H.
    - apply advanced_backtrack_in_own in H. exact H. }
  split; [exact E|]. subst k. intros s' Hv. unfold view in Hv.
  apply bind_Ok in Hv. destruct Hv as (g & Hg & Hv).
  apply bind_Ok in Hv. destruct Hv as (b & _ & Hv). injection Hv as <-. exact Hg.
Qed.

Lemma solve_returns_own_array_witness :
  2 = sudoku_at (snd (fst example_solved)) /\
  forall s', view (snd (fst example_solved)) (snd example_solved) = Ok s' ->
    read_int 2 (snd example_solved) = Ok (sudoku s').
Proof.
  apply (solve_returns_own_array example_object true example_store_built
           2 (snd (fst example_solved)) (snd example_solved)).
  vm_compute. reflexivity.
Defined.

(** X17.  Whatever the shuffles, [generate_puzzle] returns in the first
    execution of the body of its loop: the re-solve of the reduced puzzle
    cannot return [None], since the solved grid the puzzle was cut from
    completes it.  The exception of the last line is never raised. *)
Theorem generate_puzzle_succeeds
    (shuffle : nat -> list (nat * nat) -> list (nat * nat))
    (difficulty : String.string) :
  (forall k, Permutation (shuffle k cells) cells) ->
  exists p, generate_puzzle shuffle difficulty = (Ok p, 1) /\
    wf_grid p /\ completes empty_solution p.
Proof.
  intros Hperm.
  destruct (generation_attempt_succeeds (shuffle 0 cells) difficulty (Hperm 0))
    as (p & g & Hatt & Hwp & Hcp & _).
  exists p. split; [|auto].
  unfold generate_puzzle.
  pose proof (difficulty_attempts_pos difficulty) as Hpos.
  destruct (difficulty_settings difficulty) as [diff_param max_attempts].
  cbn [fst snd] in Hatt, Hpos.
  destruct max_attempts as [|m]; [lia|].
  cbn [generate_from]. rewrite Hatt. reflexivity.
Qed.

Lemma generate_puzzle_succeeds_witness :
  exists p, generate_puzzle no_shuffle "expert"%string = (Ok p, 1) /\
    wf_grid p /\ completes empty_solution p.
Proof.
  apply (generate_puzzle_succeeds no_shuffle "expert"%string).
  intros k. apply Permutation_refl.
Defined.

(** X18.  A difficulty that is none of 'easy', 'medium', 'hard' and 'expert'
    gets the settings of 'medium', and [generate_puzzle] does with it what
    it does with 'medium'. *)
Theorem unknown_difficulty_is_medium
    (shuffle : nat -> list (nat * nat) -> list (nat * nat)) (difficulty : String.string) :
  ~ In difficulty ["easy"; "medium"; "hard"; "expert"]%string ->
  difficulty_settings difficulty = difficulty_settings "medium"%string /\
  generate_puzzle shuffle difficulty = generate_puzzle shuffle "medium"%string.
Proof.
  intros Hnot.
  assert (E : difficulty_settings difficulty = difficulty_settings "medium"%string).
  { unfold difficulty_settings.
    destruct (String.eqb_spec difficulty "easy"%string) as [->|_];
      [destruct Hnot; simpl; tauto|].
    destruct (String.eqb_spec difficulty "medium"%string) as [->|_];
      [destruct Hnot; simpl; tauto|].
    destruct (String.eqb_spec difficulty "hard"%string) as [->|_];
      [destruct Hnot; simpl; tauto|].
    destruct (String.eqb_spec difficulty "expert"%string) as [->|_];
      [destruct Hnot; simpl; tauto|].
    reflexivity. }
  split; [exact E|]. unfold generate_puzzle. rewrite E. reflexivity.
Qed.

Lemma unknown_difficulty_is_medium_witness :
  difficulty_settings "Expert"%string = difficulty_settings "medium"%string /\
  generate_puzzle no_shuffle "Expert"%string = generate_puzzle no_shuffle "medium"%string.
Proof.
  apply (unknown_difficulty_is_medium no_shuffle "Expert"%string).
  simpl. intros [H|[H|[H|[H|[]]]]]; discriminate.
Defined.

(** X19.  With a callback, the calls of a solve with visualisation come in
    the order of the search: the first has status 'searching'; a call
    'searching' is followed by 'trying' or 'backtracking', 'trying' by
    'placed', 'placed' by 'searching', 'backtracking' by 'trying' or
    'backtracking'.  When a grid is returned the last call, if there was
    one, had status 'placed'; when [None] is returned it had status
    'searching' or 'backtracking'. *)
Theorem callback_calls_in_order (s : Solver) (r : option Grid) (s' : Solver) :
  callback s = true -> emitted s = [] ->
  solve_with_visualization s true = Ok (r, s') ->
  ordered (emitted s') = true /\
  match r with
  | Some _ => emitted s' = [] \/ last_status s' = Some placed
  | None => last_status s' = Some searching \/ last_status s' = Some backtracking
  end.
Proof.
  intros Hc Hem. unfold solve_with_visualization, solve_fuel. intros H.
  apply advanced_backtrack_visualize_ordered in H; auto.
  - destruct H as (_ & _ & Ho & Hl). split; [exact Ho|].
    destruct r as [g|]; [|exact Hl].
    destruct Hl as [Hl|Hl]; [left|right; exact Hl].
    unfold last_status in Hl. destruct (emitted s'); [reflexivity|discriminate].
  - simpl. rewrite Hem. reflexivity.
  - left. unfold last_status. simpl. rewrite Hem. reflexivity.
Qed.

Lemma callback_calls_in_order_witness :
  ordered (emitted (snd example_streamed)) = true /\
  match fst example_streamed with
  | Some _ => emitted (snd example_streamed) = [] \/
              last_status (snd example_streamed) = Some placed
  | None => last_status (snd example_streamed) = Some searching \/
            last_status (snd example_streamed) = Some backtracking
  end.
Proof.
  apply (callback_calls_in_order example_streaming (fst example_streamed)
           (snd example_streamed)).
  - reflexivity.
  - reflexivity.
  - vm_compute. reflexivity.
Defined.

(** X20.  On every 9x9 grid of entries 0..9, whether its clues are
    consistent or not, the constructor and [solve_with_visualization]
    return, in both modes; a grid that is returned is the solver's grid,
    has a digit 1..9 in every cell and keeps every clue, so that it holds
    the clash when the clues clash; when [None] is returned the solver's
    grid is the puzzle again. *)
Theorem solve_keeps_the_clues (input : Grid) (cb vis : bool) :
  wf_grid input -> digits_grid input ->
  exists s0 r s', SudokuSolver input cb = Ok s0 /\
    solve_with_visualization s0 vis = Ok (r, s') /\
    match r with
    | Some g => sudoku s' = g /\ wf_grid g /\ extends input g /\
                forall r c, r < 9 -> c < 9 -> (1 <= get_cell g r c <= 9)%Z
    | None => sudoku s' = input
    end.
Proof.
  intros Hin Hdig.
  destruct (@SudokuSolver_spec input cb Hin Hdig) as (s0 & Hs0 & [Hwf Hcl _ _] & Eg & _).
  set (s1 := with_counters (with_visualize s0 false) 0 0).
  assert (Hk1 : clues_kept input s1).
  { unfold clues_kept. simpl. rewrite Eg.
    split; [exact (@filled_closed_arrays s0 s1 eq_refl eq_refl Hcl)|].
    split; [exact Hdig|]. intros r c _ _ _. reflexivity. }
  destruct (@advanced_backtrack_total (clues_kept input)
              (fun s H => clues_kept_arrays input s (enter s) eq_refl eq_refl H)
              (clues_kept_guess input) (clues_kept_forced input)
              (fun s s3 H _ =>
                 clues_kept_arrays input s
                   (with_arrays (with_counters s3 (attempts s3) (backtrack_count s3 + 1))
                                (sudoku s) (bitmap s)) eq_refl eq_refl H)
              (S (count_empty (sudoku s0))) s1 Hk1
              (@wf_arrays s0 s1 eq_refl eq_refl Hwf) (proj1 Hk1) ltac:(simpl; lia))
    as (r & s' & Hr & Hpost).
  fold (solve_fuel (S (count_empty (sudoku s0))) s0 false) in Hr.
  fold (solve_with_visualization s0 false) in Hr.
  destruct (solve_either_mode s0 vis r s' Hr) as (sv & Hv & Es & _).
  exists s0, r, sv. split; [exact Hs0|]. split; [exact Hv|]. rewrite Es.
  destruct Hpost as ((_ & Hd' & Hext) & Hwf' & _ & _ & _ & _ & Hres).
  destruct r as [g|].
  - destruct Hres as [-> Hfull]. splits; auto; [apply Hwf'|].
    apply full_digits; auto. apply Hwf'.
  - destruct Hres as [Hs' _]. rewrite Hs'. exact Eg.
Qed.

Lemma solve_keeps_the_clues_witness :
  exists s0 r s', SudokuSolver clash_puzzle true = Ok s0 /\
    solve_with_visualization s0 true = Ok (r, s') /\
    match r with
    | Some g => sudoku s' = g /\ wf_grid g /\ extends clash_puzzle g /\
                forall r c, r < 9 -> c < 9 -> (1 <= get_cell g r c <= 9)%Z
    | None => sudoku s' = clash_puzzle
    end.
Proof.
  apply (solve_keeps_the_clues clash_puzzle true true).
  - apply shape_grid_wf. vm_compute. reflexivity.
  - apply digits_check_sound. vm_compute. reflexivity.
Defined.
